(** * ImHex "Find" view: pattern codec, match engine and search session

    A shallow embedding of
    [plugins/builtin/source/content/views/view_find.cpp]
    together with the properties its specification states about it. *)

From Stdlib Require Import List NArith ZArith Lia Bool String Ascii.
Import ListNotations.

Set Implicit Arguments.

Local Open Scope N_scope.
Local Open Scope bool_scope.

(** ** Fixed-width integers *)

(** The code works on [u8], [u32] and [u64] values; they are embedded in
    [N] and the truncation that the machine performs is written out. *)
Definition u8  (x : N) : N := x mod 256.
Definition u32 (x : N) : N := x mod 2 ^ 32.
Definition u64 (x : N) : N := x mod 2 ^ 64.

(** [a - b] on [u64] operands. *)
Definition u64_sub (a b : N) : N := (a + 2 ^ 64 - b mod 2 ^ 64) mod 2 ^ 64.

(** ** Characters *)

Definition code (c : ascii) : N := N_of_ascii c.

Definition in_range (lo hi n : N) : bool := (lo <=? n) && (n <=? hi).

(** The [<cctype>] classifiers in the "C" locale. *)
Definition isdigit (n : N) : bool := in_range 48 57 n.
Definition islower (n : N) : bool := in_range 97 122 n.
Definition isupper (n : N) : bool := in_range 65 90 n.
Definition isspace (n : N) : bool := (n =? 32) || in_range 9 13 n.
Definition isxdigit (n : N) : bool :=
  isdigit n || in_range 65 70 n || in_range 97 102 n.
Definition ispunct (n : N) : bool :=
  in_range 33 47 n || in_range 58 64 n || in_range 91 96 n || in_range 123 126 n.

Definition dquote : ascii := ascii_of_N 34.
Definition qmark : ascii := ascii_of_N 63.

(** Modelled from the spec: [hex::hexCharToValue] is declared in libimhex's
    helpers, outside the files at hand.  The specification of the pattern
    grammar says that a hexadecimal digit contributes "value = that nibble". *)
Definition hexCharToValue (c : ascii) : option N :=
  let n := code c in
  if isdigit n then Some (n - 48)
  else if in_range 65 70 n then Some (n - 55)
  else if in_range 97 102 n then Some (n - 87)
  else None.

(** ** PatternCodec: [parseBinaryPatternString] *)

Record BinaryPattern := mkPattern { mask : N; value : N }.

(** One round of the [for (const auto &c : hex)] loop.  [None] stands for the
    [return { }] that leaves the whole function. *)
Definition hexNibble (pattern : BinaryPattern) (c : ascii) : option BinaryPattern :=
  let m := u8 (N.shiftl (mask pattern) 4) in
  let v := u8 (N.shiftl (value pattern) 4) in
  if isxdigit (code c) then
    match hexCharToValue c with
    | Some hexValue => Some (mkPattern (N.lor m 15) (N.lor v hexValue))
    | None => None
    end
  else if negb (Ascii.eqb c qmark) then None
  else Some (mkPattern m v).

Definition hexToken (c1 c2 : ascii) : option BinaryPattern :=
  match hexNibble (mkPattern 0 0) c1 with
  | Some p => hexNibble p c2
  | None => None
  end.

(** The [while (string.length() > 0)] loop; every round consumes one or two
    characters of [str], so the recursion is structural. *)
Fixpoint parseLoop (str : string) (inString : bool) (result : list BinaryPattern)
  : list BinaryPattern :=
  match str with
  | EmptyString => if inString then [] else result
  | String c rest =>
      if Ascii.eqb c dquote then parseLoop rest (negb inString) result
      else if inString then
        parseLoop rest inString (result ++ [mkPattern 255 (u8 (code c))])
      else
        match rest with
        | String c2 rest2 =>
            if Ascii.eqb c qmark && Ascii.eqb c2 qmark then
              parseLoop rest2 inString (result ++ [mkPattern 0 0])
            else if isxdigit (code c) || Ascii.eqb c qmark then
              match hexToken c c2 with
              | Some pattern => parseLoop rest2 inString (result ++ [pattern])
              | None => []
              end
            else if isspace (code c) then parseLoop rest inString result
            else []
        | EmptyString =>
            if isspace (code c) then parseLoop rest inString result else []
        end
  end.

Definition parseBinaryPatternString (str : string) : list BinaryPattern :=
  if (String.length str <? 2)%nat then [] else parseLoop str false [].



(** ** The standard library's string-to-number conversions

    [std::stoull] and [std::stoll] with base [0] follow [strtoull] and
    [strtoll]: leading white space is skipped, a sign is accepted, the prefix
    [0x] selects base 16 and a leading [0] base 8, the longest run of digits
    is consumed, and an exception is raised when no digit was found or the
    value does not fit 64 bits. *)

Inductive conversion (A : Type) : Type :=
| Converted (v : A) (processed : nat)
| ConversionError.
Arguments ConversionError {A}.

Definition digitValue (c : ascii) : option N :=
  let n := code c in
  if isdigit n then Some (n - 48)
  else if islower n then Some (n - 87)
  else if isupper n then Some (n - 55)
  else None.

Fixpoint digits (base : N) (s : string) (acc : N) (count : nat) : N * nat :=
  match s with
  | String c r =>
      match digitValue c with
      | Some d => if d <? base then digits base r (acc * base + d) (S count)
                  else (acc, count)
      | None => (acc, count)
      end
  | EmptyString => (acc, count)
  end.

Fixpoint skipSpace (s : string) (count : nat) : string * nat :=
  match s with
  | String c r => if isspace (code c) then skipSpace r (S count) else (s, count)
  | EmptyString => (s, count)
  end.

Definition signOf (s : string) : bool * string * nat :=
  match s with
  | String c r =>
      if code c =? 45 then (true, r, 1%nat)
      else if code c =? 43 then (false, r, 1%nat)
      else (false, s, 0%nat)
  | EmptyString => (false, s, 0%nat)
  end.

(** The digits after the sign, with the base found from the prefix; the
    result is the magnitude and the number of characters consumed. *)
Definition magnitude (s : string) : option (N * nat) :=
  match s with
  | String c0 rest =>
      if code c0 =? 48 then
        match rest with
        | String x r =>
            if (code x =? 120) || (code x =? 88) then
              match digits 16 r 0 0 with
              | (_, O) => Some (0, 1%nat)
              | (v, n) => Some (v, (2 + n)%nat)
              end
            else let (v, n) := digits 8 rest 0 0 in Some (v, (1 + n)%nat)
        | EmptyString => Some (0, 1%nat)
        end
      else
        match digits 10 s 0 0 with
        | (_, O) => None
        | (v, n) => Some (v, n)
        end
  | EmptyString => None
  end.

Definition stoull (s : string) : conversion N :=
  let (s1, n1) := skipSpace s 0 in
  let '(neg, s2, n2) := signOf s1 in
  match magnitude s2 with
  | None => ConversionError
  | Some (m, n3) =>
      if m <? 2 ^ 64
      then Converted (if neg then u64 (2 ^ 64 - m) else m) (n1 + n2 + n3)
      else ConversionError
  end.

Definition stoll (s : string) : conversion Z :=
  let (s1, n1) := skipSpace s 0 in
  let '(neg, s2, n2) := signOf s1 in
  match magnitude s2 with
  | None => ConversionError
  | Some (m, n3) =>
      let v := if neg then (- Z.of_N m)%Z else Z.of_N m in
      if ((- 2 ^ 63 <=? v) && (v <=? 2 ^ 63 - 1))%Z
      then Converted v (n1 + n2 + n3)
      else ConversionError
  end.

(** Floating point numbers are taken as an interface: the two IEEE types,
    [std::stod], the narrowing conversion, the limits of the types, the
    comparisons and the reinterpretation of raw bits. *)
Class FloatingPoint : Type := {
  float32 : Type;
  float64 : Type;
  stod : string -> conversion float64;
  to_float32 : float64 -> float32;
  f32_lowest : float32;
  f32_max : float32;
  f64_lowest : float64;
  f64_max : float64;
  f32_ltb : float32 -> float32 -> bool;
  f32_leb : float32 -> float32 -> bool;
  f64_ltb : float64 -> float64 -> bool;
  f64_leb : float64 -> float64 -> bool;
  f32_of_bits : N -> float32;
  f64_of_bits : N -> float64
}.

(** An instance without floating point input: the two IEEE types are left to
    a host that parses no floating literal at all. *)
Definition integersOnly : FloatingPoint := {|
  float32 := unit;
  float64 := unit;
  stod := fun _ => ConversionError;
  to_float32 := fun d => d;
  f32_lowest := tt;
  f32_max := tt;
  f64_lowest := tt;
  f64_max := tt;
  f32_ltb := fun _ _ => false;
  f32_leb := fun _ _ => true;
  f64_ltb := fun _ _ => false;
  f64_leb := fun _ _ => true;
  f32_of_bits := fun _ => tt;
  f64_of_bits := fun _ => tt
|}.

(** ** PatternCodec: [parseNumericValue] *)

Inductive NumericType := U8 | U16 | U32 | U64 | I8 | I16 | I32 | I64 | F32 | F64.

Section NumericValues.
Context {FP : FloatingPoint}.

(** [std::variant<u64, i64, float, double>] *)
Inductive NumericValue : Type :=
| VU64 (n : N)
| VI64 (z : Z)
| VFloat (f : float32)
| VDouble (d : float64).

Definition ParseResult : Type := bool * NumericValue * N.

Definition parseFailure : ParseResult := (false, VU64 0, 0).

(** The body of the template [parseNumericValue<Type, StorageType>]:
    [conv] is the conversion chosen by [if constexpr], [outOfRange] the
    comparison against [std::numeric_limits<Type>], [size] is
    [sizeof(Type)]. *)
Definition parseNumericValue {Storage : Type}
           (conv : string -> conversion Storage)
           (outOfRange : Storage -> bool)
           (inject : Storage -> NumericValue)
           (size : N) (str : string) : ParseResult :=
  match conv str with
  | ConversionError => parseFailure
  | Converted value processed =>
      if negb (processed =? String.length str)%nat then parseFailure
      else if outOfRange value then parseFailure
      else (true, inject value, size)
  end.

Definition unsignedOutOfRange (max : N) (value : N) : bool :=
  (value <? 0) || (max <? value).

Definition signedOutOfRange (lowest max : Z) (value : Z) : bool :=
  ((value <? lowest) || (max <? value))%Z.

Definition parseNumericValueInput (input : string) (type : NumericType) : ParseResult :=
  match type with
  | U8  => parseNumericValue stoull (unsignedOutOfRange (2 ^ 8 - 1)) VU64 1 input
  | U16 => parseNumericValue stoull (unsignedOutOfRange (2 ^ 16 - 1)) VU64 2 input
  | U32 => parseNumericValue stoull (unsignedOutOfRange (2 ^ 32 - 1)) VU64 4 input
  | U64 => parseNumericValue stoull (unsignedOutOfRange (2 ^ 64 - 1)) VU64 8 input
  | I8  => parseNumericValue stoll (signedOutOfRange (- 2 ^ 7) (2 ^ 7 - 1)) VI64 1 input
  | I16 => parseNumericValue stoll (signedOutOfRange (- 2 ^ 15) (2 ^ 15 - 1)) VI64 2 input
  | I32 => parseNumericValue stoll (signedOutOfRange (- 2 ^ 31) (2 ^ 31 - 1)) VI64 4 input
  | I64 => parseNumericValue stoll (signedOutOfRange (- 2 ^ 63) (2 ^ 63 - 1)) VI64 8 input
  | F32 => parseNumericValue
             (fun s => match stod s with
                       | Converted d p => Converted (to_float32 d) p
                       | ConversionError => ConversionError
                       end)
             (fun v => f32_ltb v f32_lowest || f32_ltb f32_max v) VFloat 4 input
  | F64 => parseNumericValue stod
             (fun v => f64_ltb v f64_lowest || f64_ltb f64_max v) VDouble 8 input
  end.

Definition sizeofType (type : NumericType) : N :=
  match type with
  | U8 | I8 => 1
  | U16 | I16 => 2
  | U32 | I32 | F32 => 4
  | U64 | I64 | F64 => 8
  end.

End NumericValues.


(** ** Data model *)

(** [std::endian] *)
Inductive std_endian := little | big.

(** [std::endian::native] on the hosts the program is built for. *)
Definition native : std_endian := little.

Definition endian_eqb (a b : std_endian) : bool :=
  match a, b with
  | little, little | big, big => true
  | _, _ => false
  end.

Module DecodeType.
Inductive t := Binary | ASCII | UTF16 | Unsigned | Signed | Float | Double.
End DecodeType.

Record Region := mkRegion { getStartAddress : N; getSize : N }.

Record Occurrence := mkOccurrence {
  region : Region;
  decodeType : DecodeType.t;
  endian : std_endian
}.

(** A provider: its identity, its address span and its bytes. *)
Record Provider := mkProvider {
  ident : N;
  getBaseAddress : N;
  getActualSize : N;
  readByte : N -> N
}.

(** A provider over a buffer that starts at [base]. *)
Definition bufferProvider (id base : N) (data : list N) : Provider :=
  mkProvider id base (N.of_nat (List.length data))
             (fun a => nth (N.to_nat (a - base)) data 0).

(** Modelled from the spec: the byte stream reader ([prv::ProviderReader],
    declared in libimhex) gives "forward byte iteration with address
    tracking and a settable end bound" over "a bounded address range of a
    byte source".  After [seek(region start)] and [setEndAddress(region
    end)] its iterators run over the addresses of the region: [begin()] is
    at the address last sought, [end()] one past the last byte of the
    region. *)
Record ProviderReader := mkReader {
  m_provider : Provider;
  m_begin : N;
  m_end : N
}.

Definition readerOver (provider : Provider) (searchRegion : Region) : ProviderReader :=
  mkReader provider (getStartAddress searchRegion)
           (getStartAddress searchRegion + getSize searchRegion).

Definition seek (reader : ProviderReader) (address : N) : ProviderReader :=
  mkReader (m_provider reader) address (m_end reader).

(** [*it] for an iterator at [address]: one [u8]. *)
Definition deref (reader : ProviderReader) (address : N) : N :=
  u8 (readByte (m_provider reader) address).

(** The addresses [first, first + 1, ...], [count] of them. *)
Fixpoint addresses (first : N) (count : nat) : list N :=
  match count with
  | O => []
  | S n => first :: addresses (first + 1) n
  end.

(** The bytes that [for (u8 byte : reader)] visits, in order. *)
Definition readerBytes (reader : ProviderReader) : list N :=
  map (deref reader) (addresses (m_begin reader) (N.to_nat (m_end reader - m_begin reader))).

(** ** Tasks *)

(** Modelled from the spec: the task object handed to a search
    ([Task], declared in libimhex).  The task scheduler is an external
    collaborator, "consumed as: submit named task with total-work count,
    task exposes update(progress), isRunning(), interrupt() /
    cooperative-cancellation check"; a task "either completes with a result
    list or is interrupted".  The state kept here is the number of calls of
    [update] made so far and, when the task is going to be cancelled, the
    call of [update] (counted from 0) at which the interrupt request is
    seen. *)
Record Task := mkTask { updates : nat; interruptAt : option nat }.

Inductive fault :=
| TaskInterruptor      (* the task was cancelled *)
| RegexError           (* std::regex_error *)
| BadVariantAccess     (* std::bad_variant_access *)
| OutOfBounds.         (* an index past the end of a vector *)

Inductive outcome (A : Type) : Type :=
| Done (a : A)
| Thrown (f : fault)
| OutOfFuel.
Arguments Thrown {A}.
Arguments OutOfFuel {A}.

(** Computations that run inside a task. *)
Definition M (A : Type) : Type := Task -> outcome A * Task.

Definition ret {A} (a : A) : M A := fun t => (Done a, t).

Definition bind {A B} (m : M A) (k : A -> M B) : M B :=
  fun t => match m t with
           | (Done a, t') => k a t'
           | (Thrown f, t') => (Thrown f, t')
           | (OutOfFuel, t') => (OutOfFuel, t')
           end.

Definition throw {A} (f : fault) : M A := fun t => (Thrown f, t).

Definition outOfFuel {A} : M A := fun t => (OutOfFuel, t).

Declare Scope task_scope.
Delimit Scope task_scope with task.
Notation "x <- m ;; k" := (bind m (fun x => k))
  (at level 100, m at next level, right associativity) : task_scope.
Notation "m ;;; k" := (bind m (fun _ => k))
  (at level 100, right associativity) : task_scope.
Local Open Scope task_scope.

(** Modelled from the spec: [Task::update], the "cooperative-cancellation
    check".  The search functions never test a flag themselves and go on
    after every call, so the only way a cancellation can end a search is
    that [update] leaves the task body when the interrupt request is
    pending; otherwise it records the progress, whose value is of no
    consequence here, and returns. *)
Definition update : M unit :=
  fun t =>
    match interruptAt t with
    | Some k =>
        if (k <=? updates t)%nat then (Thrown TaskInterruptor, t)
        else (Done tt, mkTask (S (updates t)) (interruptAt t))
    | None => (Done tt, mkTask (S (updates t)) (interruptAt t))
    end.

(** [for (u8 byte : reader) body] *)
Fixpoint forBytes {S : Type} (body : S -> N -> M S) (bytes : list N) (s : S) : M S :=
  match bytes with
  | [] => ret s
  | byte :: rest => s' <- body s byte ;; forBytes body rest s'
  end.


(** ** Search settings *)

Module StringType.
Inductive t := ASCII | UTF16LE | UTF16BE | ASCII_UTF16LE | ASCII_UTF16BE.
End StringType.

Module Strings.
Record t := mk {
  minLength : Z;
  nullTermination : bool;
  type : StringType.t;
  lowerCaseLetters : bool;
  upperCaseLetters : bool;
  numbers : bool;
  underscores : bool;
  symbols : bool;
  spaces : bool;
  lineFeeds : bool
}.

Definition withType (s : t) (ty : StringType.t) : t :=
  mk (minLength s) (nullTermination s) ty (lowerCaseLetters s)
     (upperCaseLetters s) (numbers s) (underscores s) (symbols s)
     (spaces s) (lineFeeds s).
End Strings.

Module Sequence.
Record t := mk { sequence : string }.
End Sequence.

Module Regex.
Record t := mk {
  minLength : Z;
  nullTermination : bool;
  type : StringType.t;
  pattern : string;
  fullMatch : bool
}.
End Regex.

Module BinaryPatternSettings.
Record t := mk { input : string; pattern : list BinaryPattern }.
End BinaryPatternSettings.

Module Value.
Record t := mk {
  inputMin : string;
  inputMax : string;
  type : NumericType;
  endian : std_endian
}.
End Value.

(** [size_t(n)] for an [int] [n]. *)
Definition size_t_of_int (n : Z) : N := Z.to_N (n mod 2 ^ 64).

(** ** MatchEngine: [searchStrings] *)

Record StringsState := mkStringsState {
  countedCharacters : N;
  startAddress : N;
  stringResults : list Occurrence
}.

(** The character class test at the head of the loop body. *)
Definition classValid (settings : Strings.t) (byte : N) : bool :=
  (Strings.lowerCaseLetters settings && islower byte) ||
  (Strings.upperCaseLetters settings && isupper byte) ||
  (Strings.numbers settings && isdigit byte) ||
  (Strings.spaces settings && isspace byte && negb (byte =? 13) && negb (byte =? 10)) ||
  (Strings.underscores settings && (byte =? 95)) ||
  (Strings.symbols settings && ispunct byte && negb (isspace byte)) ||
  (Strings.lineFeeds settings && ((byte =? 13) || (byte =? 10))).

(** [validChar] once the UTF-16 adjustment has been made. *)
Definition validChar (settings : Strings.t) (counted : N) (byte : N) : bool :=
  match Strings.type settings with
  | StringType.UTF16LE =>
      if counted mod 2 =? 1 then byte =? 0 else classValid settings byte
  | StringType.UTF16BE =>
      if counted mod 2 =? 0 then byte =? 0 else classValid settings byte
  | _ => classValid settings byte
  end.

(** What one round of the loop does to the local variables, after
    [task.update]. *)
Definition stringsStep (settings : Strings.t) (endAddress : N)
           (decode : DecodeType.t) (en : std_endian)
           (st : StringsState) (byte : N) : StringsState :=
  let valid := validChar settings (countedCharacters st) byte in
  let counted := if valid then u64 (countedCharacters st + 1) else countedCharacters st in
  if negb valid || (u64 (startAddress st + counted) =? endAddress) then
    let results :=
      if size_t_of_int (Strings.minLength settings) <=? counted then
        if negb (Strings.nullTermination settings && negb (byte =? 0)) then
          stringResults st ++ [mkOccurrence (mkRegion (startAddress st) counted) decode en]
        else stringResults st
      else stringResults st in
    mkStringsState 0 (u64 (startAddress st + (counted + 1))) results
  else
    mkStringsState counted (startAddress st) (stringResults st).

Definition stringsDecoding (ty : StringType.t) : DecodeType.t * std_endian :=
  match ty with
  | StringType.ASCII => (DecodeType.ASCII, native)
  | StringType.UTF16BE => (DecodeType.UTF16, big)
  | StringType.UTF16LE => (DecodeType.UTF16, little)
  | _ => (DecodeType.Binary, native)
  end.

(** The part of [searchStrings] below the test for the combined types. *)
Definition searchStringsPass (provider : Provider) (searchRegion : Region)
           (settings : Strings.t) : M (list Occurrence) :=
  let reader := readerOver provider searchRegion in
  let (decode, en) := stringsDecoding (Strings.type settings) in
  let start := m_begin reader in
  let endAddress := m_end reader in
  st <- forBytes (fun st byte =>
                    update ;;; ret (stringsStep settings endAddress decode en st byte))
                 (readerBytes reader) (mkStringsState 0 start []) ;;
  ret (stringResults st).

Definition searchStrings (provider : Provider) (searchRegion : Region)
           (settings : Strings.t) : M (list Occurrence) :=
  match Strings.type settings with
  | StringType.ASCII_UTF16BE =>
      asciiResults <- searchStringsPass provider searchRegion
                        (Strings.withType settings StringType.ASCII) ;;
      utf16Results <- searchStringsPass provider searchRegion
                        (Strings.withType settings StringType.UTF16BE) ;;
      ret (asciiResults ++ utf16Results)
  | StringType.ASCII_UTF16LE =>
      asciiResults <- searchStringsPass provider searchRegion
                        (Strings.withType settings StringType.ASCII) ;;
      utf16Results <- searchStringsPass provider searchRegion
                        (Strings.withType settings StringType.UTF16LE) ;;
      ret (asciiResults ++ utf16Results)
  | _ => searchStringsPass provider searchRegion settings
  end.


(** ** Helpers of libimhex and the regular expression library

    These are used by the code at hand and declared elsewhere; they are
    taken as interfaces. *)
Class Helpers : Type := {
  (** [hex::decodeByteString] *)
  decodeByteString : string -> list N;
  (** [hex::encodeByteString] *)
  encodeByteString : list N -> string;
  (** [hex::format("{}", value)] on the value [formatBytes<T>] builds *)
  formatValue : DecodeType.t -> list N -> string;
  (** [hex::containsIgnoreCase] *)
  containsIgnoreCase : string -> string -> bool
}.

(** [std::regex]: construction fails with [std::regex_error] on a pattern
    that does not compile. *)
Class StdRegex : Type := {
  regex : Type;
  std_regex : string -> option regex;
  regex_match : list N -> regex -> bool;
  regex_search : list N -> regex -> bool
}.

(** Plain text helpers: a byte string without escape sequences stands for
    the codes of its characters, a value is shown by its bytes, and the
    containment test folds upper case letters to lower case. *)
Fixpoint codes (s : string) : list N :=
  match s with
  | EmptyString => []
  | String c r => code c :: codes r
  end.

Fixpoint text (l : list N) : string :=
  match l with
  | [] => EmptyString
  | b :: r => String (ascii_of_N b) (text r)
  end.

Definition tolower (n : N) : N := if isupper n then n + 32 else n.

Fixpoint isPrefixLower (needle hay : list N) : bool :=
  match needle, hay with
  | [], _ => true
  | p :: ps, x :: xs => (tolower x =? tolower p) && isPrefixLower ps xs
  | _ :: _, [] => false
  end.

Fixpoint containsAt (needle hay : list N) : bool :=
  isPrefixLower needle hay ||
  match hay with
  | [] => false
  | _ :: rest => containsAt needle rest
  end.

Definition plainHelpers : Helpers := {|
  decodeByteString := codes;
  encodeByteString := text;
  formatValue := fun _ raw => text raw;
  containsIgnoreCase := fun a b => containsAt (codes b) (codes a)
|}.

(** An engine for literal patterns: a pattern compiles when its parentheses
    are balanced, and it then matches its own text. *)
Fixpoint balanced (s : string) (depth : nat) : bool :=
  match s with
  | EmptyString => Nat.eqb depth 0
  | String c r =>
      if code c =? 40 then balanced r (S depth)
      else if code c =? 41 then
        match depth with
        | O => false
        | S d => balanced r d
        end
      else balanced r depth
  end.

Fixpoint containsExactly (needle hay : list N) : bool :=
  (fix isPrefixOf (p l : list N) : bool :=
     match p, l with
     | [], _ => true
     | x :: xs, y :: ys => (x =? y) && isPrefixOf xs ys
     | _ :: _, [] => false
     end) needle hay ||
  match hay with
  | [] => false
  | _ :: rest => containsExactly needle rest
  end.

Definition literalRegex : StdRegex := {|
  regex := list N;
  std_regex := fun p => if balanced p 0 then Some (codes p) else None;
  regex_match := fun s re => if list_eq_dec N.eq_dec s re then true else false;
  regex_search := fun s re => containsExactly re s
|}.

(** ** MatchEngine: [searchSequence] *)

(** Whether [pattern] stands at [address]. *)
Fixpoint matchesAt (reader : ProviderReader) (address : N) (pattern : list N) : bool :=
  match pattern with
  | [] => true
  | p :: ps => (deref reader address =? p) && matchesAt reader (address + 1) ps
  end.

Fixpoint searchFrom (reader : ProviderReader) (pattern : list N)
         (first : N) (candidates : nat) : N :=
  match candidates with
  | O => m_end reader
  | S n => if matchesAt reader first pattern then first
           else searchFrom reader pattern (first + 1) n
  end.

(** [std::search(reader.begin(), reader.end(), searcher)]: the standard
    library returns the first position of the range at which the whole
    pattern occurs, and the end of the range if there is none, whichever
    searcher is used. *)
Definition std_search (reader : ProviderReader) (pattern : list N) : N :=
  let len := m_end reader - m_begin reader in
  let plen := N.of_nat (List.length pattern) in
  if len <? plen then m_end reader
  else searchFrom reader pattern (m_begin reader) (N.to_nat (len - plen + 1)).

(** The [while (true)] loop; one unit of fuel per round. *)
Fixpoint sequenceLoop (fuel : nat) (reader : ProviderReader) (bytes : list N)
         (results : list Occurrence) : M (list Occurrence) :=
  match fuel with
  | O => outOfFuel
  | S fuel' =>
      update ;;;
      let occurrence := std_search reader bytes in
      if occurrence =? m_end reader then ret results
      else
        let address := occurrence in
        sequenceLoop fuel' (seek reader (u64 (address + 1))) bytes
          (results ++ [mkOccurrence (mkRegion address (N.of_nat (List.length bytes)))
                                    DecodeType.Binary native])
  end.

Section SequenceSearch.
Context {H : Helpers}.

Definition searchSequence (provider : Provider) (searchRegion : Region)
           (settings : Sequence.t) : M (list Occurrence) :=
  let reader := readerOver provider searchRegion in
  let bytes := decodeByteString (Sequence.sequence settings) in
  match bytes with
  | [] => ret []
  | _ => sequenceLoop (S (N.to_nat (getSize searchRegion))) reader bytes []
  end.
End SequenceSearch.

(** ** MatchEngine: [searchRegex] *)

(** [provider->read(address, buffer, size)] *)
Definition read (provider : Provider) (address size : N) : list N :=
  map (fun a => u8 (readByte provider a)) (addresses address (N.to_nat size)).

Section RegexSearch.
Context {R : StdRegex}.

Fixpoint regexLoop (provider : Provider) (fullMatch : bool) (re : regex)
         (stringOccurrences result : list Occurrence) : M (list Occurrence) :=
  match stringOccurrences with
  | [] => ret result
  | occurrence :: rest =>
      let str := read provider (getStartAddress (region occurrence))
                      (getSize (region occurrence)) in
      update ;;;
      let hit := if fullMatch then regex_match str re else regex_search str re in
      regexLoop provider fullMatch re rest
                (if hit then result ++ [occurrence] else result)
  end.

Definition searchRegex (provider : Provider) (searchRegion : Region)
           (settings : Regex.t) : M (list Occurrence) :=
  stringOccurrences <-
    searchStrings provider searchRegion
      (Strings.mk (Regex.minLength settings) (Regex.nullTermination settings)
                  (Regex.type settings) true true true true true true true) ;;
  match std_regex (Regex.pattern settings) with
  | None => throw RegexError
  | Some re =>
      regexLoop provider (Regex.fullMatch settings) re stringOccurrences []
  end.
End RegexSearch.

(** ** MatchEngine: [searchBinaryPattern] *)

Record PatternState := mkPatternState {
  it : N;
  matchedBytes : N;
  patternResults : list Occurrence
}.

(** The body of the [for] loop for the pattern entry [entry] read at
    [pattern[matchedBytes]], without the [++it] that ends the round. *)
Definition patternBody (patternSize : N) (entry : BinaryPattern) (byte : N)
           (st : PatternState) : PatternState :=
  if N.land byte (mask entry) =? value entry then
    let matched := u32 (matchedBytes st + 1) in
    if matched =? patternSize then
      let occurrenceAddress := u64_sub (it st) (u64_sub patternSize 1) in
      mkPatternState occurrenceAddress 0
        (patternResults st ++
           [mkOccurrence (mkRegion occurrenceAddress patternSize) DecodeType.Binary native])
    else mkPatternState (it st) matched (patternResults st)
  else
    mkPatternState
      (if 0 <? matchedBytes st then u64_sub (it st) (matchedBytes st) else it st)
      0 (patternResults st).

(** [++it] *)
Definition advance (st : PatternState) : PatternState :=
  mkPatternState (u64 (it st + 1)) (matchedBytes st) (patternResults st).

Fixpoint patternLoop (fuel : nat) (reader : ProviderReader)
         (pattern : list BinaryPattern) (st : PatternState) : M (list Occurrence) :=
  match fuel with
  | O => outOfFuel
  | S fuel' =>
      if it st =? m_end reader then ret (patternResults st)
      else
        let byte := deref reader (it st) in
        update ;;;
        match nth_error pattern (N.to_nat (matchedBytes st)) with
        | None => throw OutOfBounds
        | Some entry =>
            patternLoop fuel' reader pattern
              (advance (patternBody (N.of_nat (List.length pattern)) entry byte st))
        end
  end.

Definition patternFuel (searchRegion : Region) (pattern : list BinaryPattern) : nat :=
  S (N.to_nat (getSize searchRegion) * List.length pattern).

Definition searchBinaryPattern (provider : Provider) (searchRegion : Region)
           (settings : BinaryPatternSettings.t) : M (list Occurrence) :=
  let reader := readerOver provider searchRegion in
  let pattern := BinaryPatternSettings.pattern settings in
  patternLoop (patternFuel searchRegion pattern) reader pattern
              (mkPatternState (m_begin reader) 0 []).


(** ** MatchEngine: [searchValue] *)

(** Modelled from the spec: [hex::bitmask], a helper of libimhex: the mask
    of the [bits] low bits, which keeps "a rolling window of byteWidth
    bytes". *)
Definition bitmask (bits : N) : N := N.ones bits.

(** The [count] low bytes of [v], least significant first, and the number
    they stand for. *)
Fixpoint bytesOf (count : nat) (v : N) : list N :=
  match count with
  | O => []
  | S n => (v mod 256) :: bytesOf n (v / 256)
  end.

Fixpoint ofBytes (bytes : list N) : N :=
  match bytes with
  | [] => 0
  | b :: rest => b + 256 * ofBytes rest
  end.

(** Modelled from the spec: [hex::changeEndianess], a helper of libimhex.
    "Each window's raw bytes [are] reinterpreted at the chosen endianness":
    [changeEndianess(value, size, endian)] leaves the value alone when
    [endian] is the native byte order and reverses its [size] low bytes
    otherwise. *)
Definition changeEndianess (v : N) (size : N) (en : std_endian) : N :=
  if endian_eqb en native then v
  else ofBytes (rev (bytesOf (N.to_nat size) v)).

(** The bits of an [i64] read as a number. *)
Definition to_i64 (bits : N) : Z :=
  if bits <? 2 ^ 63 then Z.of_N bits else (Z.of_N bits - 2 ^ 64)%Z.

Record ValueState := mkValueState {
  bytes : N;
  address : N;
  validBytes : N;
  valueResults : list Occurrence
}.

Definition valueDecodeType (type : NumericType) : DecodeType.t :=
  match type with
  | U8 | U16 | U32 | U64 => DecodeType.Unsigned
  | I8 | I16 | I32 | I64 => DecodeType.Signed
  | F32 => DecodeType.Float
  | F64 => DecodeType.Double
  end.

Section ValueSearch.
Context {FP : FloatingPoint}.

(** The [std::visit] call: [T value = 0; memcpy(&value, &bytes, size)],
    the two changes of byte order, and the comparison in the type [T] of
    the alternative [min] holds.  [std::get<T>(max)] throws when [max]
    holds another alternative. *)
Definition windowInRange (min max : NumericValue) (window : N) (size : N)
           (en : std_endian) : M bool :=
  let raw := window mod 2 ^ (8 * size) in
  let v := changeEndianess (changeEndianess raw size big) size en in
  match min, max with
  | VU64 lo, VU64 hi => ret ((lo <=? v) && (v <=? hi))
  | VI64 lo, VI64 hi => ret ((lo <=? to_i64 v) && (to_i64 v <=? hi))%Z
  | VFloat lo, VFloat hi =>
      ret (f32_leb lo (f32_of_bits v) && f32_leb (f32_of_bits v) hi)
  | VDouble lo, VDouble hi =>
      ret (f64_leb lo (f64_of_bits v) && f64_leb (f64_of_bits v) hi)
  | _, _ => throw BadVariantAccess
  end.

Definition valueBody (settings : Value.t) (min max : NumericValue) (size : N)
           (st : ValueState) (byte : N) : M ValueState :=
  let window := N.lor (u64 (N.shiftl (bytes st) 8)) byte in
  if validBytes st =? size then
    let window := N.land window (bitmask (size * 8)) in
    update ;;;
    result <- windowInRange min max window size (Value.endian settings) ;;
    let results :=
      if result then
        valueResults st ++
          [mkOccurrence (mkRegion (u64_sub (address st) (u64_sub size 1)) size)
                        (valueDecodeType (Value.type settings))
                        (Value.endian settings)]
      else valueResults st in
    ret (mkValueState window (u64 (address st + 1)) (validBytes st) results)
  else
    ret (mkValueState window (u64 (address st + 1)) (u64 (validBytes st + 1))
                      (valueResults st)).

Definition searchValue (provider : Provider) (searchRegion : Region)
           (settings : Value.t) : M (list Occurrence) :=
  let reader := readerOver provider searchRegion in
  let '(validMin, min, sizeMin) :=
    parseNumericValueInput (Value.inputMin settings) (Value.type settings) in
  let '(validMax, max, sizeMax) :=
    parseNumericValueInput (Value.inputMax settings) (Value.type settings) in
  if negb validMin || negb validMax || negb (sizeMin =? sizeMax) then ret []
  else
    let size := sizeMin in
    st <- forBytes (valueBody settings min max size) (readerBytes reader)
                   (mkValueState 0 (getStartAddress searchRegion) 0 []) ;;
    ret (valueResults st).
End ValueSearch.


(** ** SearchSession: the state of the view *)

Module Mode.
Inductive t := Strings | Sequence | Regex | BinaryPattern | Value.
End Mode.

(** [ui::SelectedRegion] *)
Inductive SelectedRegion := EntireData | Selection.

Module SearchSettings.
Record t := mk {
  range : SelectedRegion;
  mode : Mode.t;
  strings : Strings.t;
  bytes : Sequence.t;
  regex : Regex.t;
  binaryPattern : BinaryPatternSettings.t;
  value : Value.t
}.
End SearchSettings.

(** Modelled from the spec: [hex::Region] is declared in libimhex; the data
    model gives "end = start + size (exclusive)". *)
Definition getEndAddress (r : Region) : N := u64 (getStartAddress r + getSize r).

(** An entry of the interval tree. *)
Record Interval := mkInterval { start : N; stop : N; occurrence : Occurrence }.

(** The members of [ViewFind].  The maps are keyed by the provider; a key
    that was never written reads as the empty list, as with [operator[]]. *)
Record ViewFind := mkView {
  m_searchSettings : SearchSettings.t;
  m_decodeSettings : SearchSettings.t;
  m_settingsValid : bool;
  m_foundOccurrences : N -> list Occurrence;
  m_sortedOccurrences : N -> list Occurrence;
  m_occurrenceTree : N -> list Interval;
  m_currFilter : N -> string
}.

Definition assign {A} (map : N -> A) (key : N) (v : A) : N -> A :=
  fun k => if k =? key then v else map k.

Definition setFound (key : N) (l : list Occurrence) (v : ViewFind) : ViewFind :=
  mkView (m_searchSettings v) (m_decodeSettings v) (m_settingsValid v)
         (assign (m_foundOccurrences v) key l) (m_sortedOccurrences v)
         (m_occurrenceTree v) (m_currFilter v).

Definition setSorted (key : N) (l : list Occurrence) (v : ViewFind) : ViewFind :=
  mkView (m_searchSettings v) (m_decodeSettings v) (m_settingsValid v)
         (m_foundOccurrences v) (assign (m_sortedOccurrences v) key l)
         (m_occurrenceTree v) (m_currFilter v).

Definition setTree (key : N) (l : list Interval) (v : ViewFind) : ViewFind :=
  mkView (m_searchSettings v) (m_decodeSettings v) (m_settingsValid v)
         (m_foundOccurrences v) (m_sortedOccurrences v)
         (assign (m_occurrenceTree v) key l) (m_currFilter v).

Definition setFilter (key : N) (text : string) (v : ViewFind) : ViewFind :=
  mkView (m_searchSettings v) (m_decodeSettings v) (m_settingsValid v)
         (m_foundOccurrences v) (m_sortedOccurrences v)
         (m_occurrenceTree v) (assign (m_currFilter v) key text).

Definition setSettings (s : SearchSettings.t) (valid : bool) (v : ViewFind) : ViewFind :=
  mkView s (m_decodeSettings v) valid
         (m_foundOccurrences v) (m_sortedOccurrences v)
         (m_occurrenceTree v) (m_currFilter v).

Definition setDecodeSettings (s : SearchSettings.t) (v : ViewFind) : ViewFind :=
  mkView (m_searchSettings v) s (m_settingsValid v)
         (m_foundOccurrences v) (m_sortedOccurrences v)
         (m_occurrenceTree v) (m_currFilter v).

(** Task bodies that capture [this]: they run inside a task and read and
    write the members of the view.  A fault leaves the members as they are
    at the moment it is raised. *)
Definition W (A : Type) : Type := ViewFind -> Task -> outcome A * ViewFind * Task.

Definition retW {A} (a : A) : W A := fun v t => (Done a, v, t).

Definition bindW {A B} (m : W A) (k : A -> W B) : W B :=
  fun v t => match m v t with
             | (Done a, v', t') => k a v' t'
             | (Thrown f, v', t') => (Thrown f, v', t')
             | (OutOfFuel, v', t') => (OutOfFuel, v', t')
             end.

(** A computation that does not touch the members. *)
Definition liftW {A} (m : M A) : W A :=
  fun v t => let (r, t') := m t in (r, v, t').

Definition getView : W ViewFind := fun v t => (Done v, v, t).

Definition modify (f : ViewFind -> ViewFind) : W unit := fun v t => (Done tt, f v, t).

Section Session.
Context {FP : FloatingPoint} {H : Helpers} {R : StdRegex}.

(** The [switch (settings.mode)] of the task body, up to the assignment. *)
Definition dispatch (provider : Provider) (searchRegion : Region)
           (settings : SearchSettings.t) : M (list Occurrence) :=
  match SearchSettings.mode settings with
  | Mode.Strings =>
      searchStrings provider searchRegion (SearchSettings.strings settings)
  | Mode.Sequence =>
      searchSequence provider searchRegion (SearchSettings.bytes settings)
  | Mode.Regex =>
      searchRegex provider searchRegion (SearchSettings.regex settings)
  | Mode.BinaryPattern =>
      searchBinaryPattern provider searchRegion (SearchSettings.binaryPattern settings)
  | Mode.Value =>
      searchValue provider searchRegion (SearchSettings.value settings)
  end.

(** The lambda handed to [TaskManager::createTask] by [runSearch]. *)
Definition searchTask (provider : Provider) (settings : SearchSettings.t)
           (searchRegion : Region) : W unit :=
  bindW (liftW (dispatch provider searchRegion settings)) (fun found =>
  bindW (modify (setFound (ident provider) found)) (fun _ =>
  bindW (modify (fun v => setSorted (ident provider)
                            (m_foundOccurrences v (ident provider)) v)) (fun _ =>
  modify (fun v => setTree (ident provider)
                     (map (fun occ => mkInterval (getStartAddress (region occ))
                                                 (getEndAddress (region occ)) occ)
                          (m_foundOccurrences v (ident provider))) v)))).

(** [runSearch]: the region is resolved and the settings are copied when
    the task is created; [selection] is [None] when no selection is valid. *)
Definition searchRegionOf (view : ViewFind) (provider : Provider)
           (selection : option Region) : Region :=
  match SearchSettings.range (m_searchSettings view), selection with
  | Selection, Some r => r
  | _, _ => mkRegion (getBaseAddress provider) (getActualSize provider)
  end.

Definition runSearch (view : ViewFind) (provider : Provider)
           (selection : option Region) : W unit :=
  searchTask provider (m_searchSettings view) (searchRegionOf view provider selection).
End Session.


(** ** [decodeValue] *)

Fixpoint everyOther {A} (l : list A) : list A :=
  match l with
  | a :: _ :: rest => a :: everyOther rest
  | l => l
  end.

Section Decode.
Context {H : Helpers}.

Definition decodeValue (view : ViewFind) (provider : Provider)
           (occ : Occurrence) : string :=
  let raw := read provider (getStartAddress (region occ))
                  (N.min (getSize (region occ)) 128) in
  let raw := if endian_eqb (endian occ) native then raw else rev raw in
  match SearchSettings.mode (m_decodeSettings view) with
  | Mode.Value | Mode.Strings =>
      match decodeType occ with
      | DecodeType.Binary | DecodeType.ASCII => encodeByteString raw
      | DecodeType.UTF16 =>
          String.concat EmptyString
            (map (fun b => encodeByteString [b]) (everyOther raw))
      | dt => formatValue dt raw
      end
  | _ => encodeByteString raw
  end.
End Decode.

(** ** [drawContent]: the settings tabs and the search button *)

(** What the open tab holds once its widgets have run in a frame. *)
Inductive Tab :=
| StringsTab (settings : Strings.t)
| SequenceTab (settings : Sequence.t)
| RegexTab (settings : Regex.t)
| BinaryPatternTab (input : string)
| ValueTab (settings : Value.t) (edited : bool).

Definition isEmpty {A} (l : list A) : bool :=
  match l with [] => true | _ => false end.

Definition emptyString (s : string) : bool :=
  match s with EmptyString => true | _ => false end.

Section Tabs.
Context {FP : FloatingPoint} {H : Helpers} {R : StdRegex}.

Definition drawTab (tab : Tab) (view : ViewFind) : ViewFind :=
  let s := m_searchSettings view in
  match tab with
  | StringsTab settings =>
      let settings :=
        if (Strings.minLength settings <? 1)%Z
        then Strings.mk 1 (Strings.nullTermination settings) (Strings.type settings)
               (Strings.lowerCaseLetters settings) (Strings.upperCaseLetters settings)
               (Strings.numbers settings) (Strings.underscores settings)
               (Strings.symbols settings) (Strings.spaces settings)
               (Strings.lineFeeds settings)
        else settings in
      setSettings
        (SearchSettings.mk (SearchSettings.range s) Mode.Strings settings
           (SearchSettings.bytes s) (SearchSettings.regex s)
           (SearchSettings.binaryPattern s) (SearchSettings.value s))
        true view
  | SequenceTab settings =>
      setSettings
        (SearchSettings.mk (SearchSettings.range s) Mode.Sequence
           (SearchSettings.strings s) settings (SearchSettings.regex s)
           (SearchSettings.binaryPattern s) (SearchSettings.value s))
        (negb (emptyString (Sequence.sequence settings)) &&
         negb (isEmpty (decodeByteString (Sequence.sequence settings))))
        view
  | RegexTab settings =>
      let settings :=
        if (Regex.minLength settings <? 1)%Z
        then Regex.mk 1 (Regex.nullTermination settings) (Regex.type settings)
               (Regex.pattern settings) (Regex.fullMatch settings)
        else settings in
      let valid := match std_regex (Regex.pattern settings) with
                   | Some _ => true
                   | None => false
                   end in
      let valid := if emptyString (Regex.pattern settings) then false else valid in
      setSettings
        (SearchSettings.mk (SearchSettings.range s) Mode.Regex
           (SearchSettings.strings s) (SearchSettings.bytes s) settings
           (SearchSettings.binaryPattern s) (SearchSettings.value s))
        valid view
  | BinaryPatternTab input =>
      let pattern := parseBinaryPatternString input in
      setSettings
        (SearchSettings.mk (SearchSettings.range s) Mode.BinaryPattern
           (SearchSettings.strings s) (SearchSettings.bytes s) (SearchSettings.regex s)
           (BinaryPatternSettings.mk input pattern) (SearchSettings.value s))
        (negb (isEmpty pattern)) view
  | ValueTab settings edited =>
      let valid :=
        if edited then
          let '(minValid, _, minSize) :=
            parseNumericValueInput (Value.inputMin settings) (Value.type settings) in
          let '(maxValid, _, maxSize) :=
            parseNumericValueInput (Value.inputMax settings) (Value.type settings) in
          minValid && maxValid && (minSize =? maxSize)
        else m_settingsValid view in
      setSettings
        (SearchSettings.mk (SearchSettings.range s) Mode.Value
           (SearchSettings.strings s) (SearchSettings.bytes s) (SearchSettings.regex s)
           (SearchSettings.binaryPattern s) settings)
        valid view
  end.

(** The search button is disabled unless [m_settingsValid]; pressing it
    creates the task and copies the settings for decoding. *)
Definition searchButton (clicked : bool) (view : ViewFind) (provider : Provider)
           (selection : option Region) : ViewFind * option (W unit) :=
  if clicked && m_settingsValid view
  then (setDecodeSettings (m_searchSettings view) view,
        Some (runSearch view provider selection))
  else (view, None).

(** ** [drawContent]: the filter box *)

(** The assignment [vector[index] = value]; [std::remove_if] writes only
    below the element it has just read, never past the end. *)
Definition store (index : nat) (value : Occurrence) (vector : list Occurrence)
  : list Occurrence :=
  firstn index vector ++ value :: skipn (S index) vector.

(** [std::remove_if] over [currOccurrences], a reference to the vector of
    the view itself, with the predicate of the filtering task.  The
    algorithm is one pass from the front: [first] is the place of the
    next element to keep, and [rest] holds the elements not yet tested,
    which no move has touched.  The predicate calls [task.update()] and
    then tests the decoded value against the filter; an element that
    passes is moved to [first] (onto itself as long as nothing was
    removed).  When the predicate throws, the pass ends there and the
    vector stays as the moves made so far have left it.  The result is
    the new logical end. *)
Fixpoint removeIf (provider : Provider) (first : nat) (rest : list Occurrence)
  : W nat :=
  match rest with
  | [] => retW first
  | region :: rest =>
      bindW (liftW update) (fun _ =>
      bindW getView (fun v =>
      if negb (containsIgnoreCase (decodeValue v provider region)
                                  (m_currFilter v (ident provider)))
      then removeIf provider first rest
      else
        bindW (modify (fun v =>
                 setSorted (ident provider)
                           (store first region (m_sortedOccurrences v (ident provider)))
                           v)) (fun _ =>
        removeIf provider (S first) rest)))
  end.

(** The filtering task: [erase] cuts the vector at the end that
    [remove_if] returned. *)
Definition filterTask (provider : Provider) : W unit :=
  bindW getView (fun v =>
  bindW (removeIf provider 0 (m_sortedOccurrences v (ident provider))) (fun first =>
  modify (fun v =>
    setSorted (ident provider)
              (firstn first (m_sortedOccurrences v (ident provider))) v))).

(** The block run when the text of the filter box was edited to [text]:
    the members are updated and a filtering task may be created. *)
Definition filterEdited (provider : Provider) (text : string) (view : ViewFind)
  : ViewFind * option (W unit) :=
  let prevFilterLength := String.length (m_currFilter view (ident provider)) in
  let view := setFilter (ident provider) text view in
  let view :=
    if (String.length (m_currFilter view (ident provider)) <? prevFilterLength)%nat
    then setSorted (ident provider) (m_foundOccurrences view (ident provider)) view
    else view in
  if negb (emptyString (m_currFilter view (ident provider)))
  then (view, Some (filterTask provider))
  else (view, None).

(** A task run to its end by the scheduler: the members afterwards. *)
Definition runTask (body : option (W unit)) (view : ViewFind) (task : Task) : ViewFind :=
  match body with
  | Some w => snd (fst (w view task))
  | None => view
  end.
End Tabs.


(** ** Notions used to state the properties *)

(** A task on which no interrupt is pending. *)
Definition quiet (t : Task) : Prop := interruptAt t = None.

Definition never : Task := mkTask 0 None.

(** The region lies in the 64-bit address space, its end included. *)
Definition fitsAddressSpace (r : Region) : Prop :=
  getStartAddress r + getSize r < 2 ^ 64.

(** The bytes of a region, the haystack of a search. *)
Definition haystack (provider : Provider) (searchRegion : Region) : list N :=
  readerBytes (readerOver provider searchRegion).

(** [P] is a prefix of [l]: [l[0 : len(P)] == P]. *)
Fixpoint isPrefix (P l : list N) : bool :=
  match P, l with
  | [], _ => true
  | p :: ps, x :: xs => (x =? p) && isPrefix ps xs
  | _ :: _, [] => false
  end.

(** [H[i : i + len(P)] == P] *)
Definition occursAt (P H : list N) (i : nat) : bool := isPrefix P (skipn i H).

(** The occurrence a search reports for offset [i] of its region. *)
Definition occurrenceAt (searchRegion : Region) (size : N) (dt : DecodeType.t)
           (en : std_endian) (i : nat) : Occurrence :=
  mkOccurrence (mkRegion (getStartAddress searchRegion + N.of_nat i) size) dt en.

(** Runs of valid bytes.  [runLength valid l] is the number of valid bytes at
    the head of [l]; a maximal run starts at offset [s] when the byte at [s]
    is valid and the byte before it, if any, is not. *)
Fixpoint runLength (valid : N -> bool) (l : list N) : nat :=
  match l with
  | b :: rest => if valid b then S (runLength valid rest) else O
  | [] => O
  end.

Definition validAt (valid : N -> bool) (H : list N) (j : nat) : bool :=
  match nth_error H j with
  | Some b => valid b
  | None => false
  end.

Definition startsRun (valid : N -> bool) (H : list N) (s : nat) : bool :=
  match s with
  | O => validAt valid H 0
  | S p => negb (validAt valid H p) && validAt valid H s
  end.

(** The byte at offset [e] exists and is [0x00]. *)
Definition zeroAt (H : list N) (e : nat) : bool :=
  match nth_error H e with
  | Some b => b =? 0
  | None => false
  end.

(** The maximal run that starts at [s] is to be reported: it has at least
    [m] bytes and, when [nullTermination] is set, a zero byte follows it. *)
Definition reportedRun (valid : N -> bool) (m : N) (nullTermination : bool)
           (H : list N) (s : nat) : bool :=
  let len := runLength valid (skipn s H) in
  startsRun valid H s && (m <=? N.of_nat len) &&
  (negb nullTermination || zeroAt H (s + len)).

(** The declarative reading: [[s, s + len)] is a maximal run of [H]. *)
Definition maximalRun (valid : N -> bool) (H : list N) (s len : nat) : Prop :=
  (1 <= len)%nat /\ (s + len <= List.length H)%nat /\
  (forall j, (s <= j < s + len)%nat -> validAt valid H j = true) /\
  (s = O \/ validAt valid H (s - 1) = false) /\
  validAt valid H (s + len) = false.

(** Runs for the UTF-16 types, where the test a byte must pass depends on
    its position in the run: a run of [len] bytes stands at [s] when, for
    every [k < len], the byte at [s + k] passes [validChar] for position
    [k].  It is maximal when it can be extended neither to the right nor to
    the left. *)
Definition positionalRun (settings : Strings.t) (H : list N) (s len : nat) : Prop :=
  forall k, (k < len)%nat ->
    exists b, nth_error H (s + k) = Some b /\ validChar settings (N.of_nat k) b = true.

Definition positionalMaximalRun (settings : Strings.t) (H : list N) (s len : nat) : Prop :=
  (1 <= len)%nat /\ positionalRun settings H s len /\
  ~ positionalRun settings H s (S len) /\
  (s = O \/ ~ positionalRun settings H (s - 1) (S len)).

(** Outcomes of a task body that are no defect of the code: a result, or
    the cancellation of the task. *)
Definition benign {A} (o : outcome A) : Prop :=
  match o with
  | Done _ => True
  | Thrown TaskInterruptor => True
  | _ => False
  end.

(** The states the loop of [searchBinaryPattern] can be in at the head of a
    round. *)
Inductive reachable (reader : ProviderReader) (pattern : list BinaryPattern)
  : PatternState -> Prop :=
| reach_first : reachable reader pattern (mkPatternState (m_begin reader) 0 [])
| reach_round st entry :
    reachable reader pattern st ->
    it st <> m_end reader ->
    nth_error pattern (N.to_nat (matchedBytes st)) = Some entry ->
    reachable reader pattern
      (advance (patternBody (N.of_nat (List.length pattern)) entry
                            (deref reader (it st)) st)).

(** What holds of the state of that loop at the head of every round, and a
    quantity that every round decreases. *)
Definition patternInv (reader : ProviderReader) (pattern : list BinaryPattern)
           (st : PatternState) : Prop :=
  m_begin reader + matchedBytes st <= it st /\
  it st <= m_end reader /\
  matchedBytes st < N.of_nat (List.length pattern).

Definition patternMeasure (reader : ProviderReader) (pattern : list BinaryPattern)
           (st : PatternState) : N :=
  (m_end reader - (it st - matchedBytes st)) * N.of_nat (List.length pattern)
  - matchedBytes st.

(** How many times [searchStrings] runs over the region. *)
Definition passes (ty : StringType.t) : nat :=
  match ty with
  | StringType.ASCII_UTF16LE | StringType.ASCII_UTF16BE => 2
  | _ => 1
  end.

(** A view in which nothing has been searched yet. *)
Definition blankSettings : SearchSettings.t :=
  SearchSettings.mk EntireData Mode.Strings
    (Strings.mk 5 false StringType.ASCII true true true true true true false)
    (Sequence.mk EmptyString)
    (Regex.mk 5 false StringType.ASCII EmptyString false)
    (BinaryPatternSettings.mk EmptyString [])
    (Value.mk EmptyString EmptyString U8 little).

Definition blankView : ViewFind :=
  mkView blankSettings blankSettings true
         (fun _ => []) (fun _ => []) (fun _ => []) (fun _ => EmptyString).

(** The test the filter applies: the decoded value of the occurrence
    contains the text, whatever the case of the letters. *)
Definition keeps {Hl : Helpers} (view : ViewFind) (provider : Provider)
           (filterText : string) (occ : Occurrence) : bool :=
  containsIgnoreCase (decodeValue view provider occ) filterText.

(** Two states of the view that differ at most in the working copy of one
    provider. *)
Definition sameButSorted (id : N) (v v0 : ViewFind) : Prop :=
  m_searchSettings v = m_searchSettings v0 /\
  m_decodeSettings v = m_decodeSettings v0 /\
  m_settingsValid v = m_settingsValid v0 /\
  m_foundOccurrences v = m_foundOccurrences v0 /\
  m_occurrenceTree v = m_occurrenceTree v0 /\
  m_currFilter v = m_currFilter v0 /\
  forall k, k <> id -> m_sortedOccurrences v k = m_sortedOccurrences v0 k.

(** The number of elements, out of [n], that a task gets to test before a
    pending interrupt ends it: every test starts with one call of
    [Task::update]. *)
Definition allowed (t : Task) (n : nat) : nat :=
  match interruptAt t with
  | Some k => Nat.min n (k - updates t)
  | None => n
  end.

(** The vector in the middle of the pass of [std::remove_if], after
    [tested] of its elements were tested: the ones kept so far at the
    front, and behind them what the vector held there before. *)
Definition torn (keep : Occurrence -> bool) (vector : list Occurrence) (tested : nat)
  : list Occurrence :=
  let kept := filter keep (firstn tested vector) in
  kept ++ skipn (List.length kept) vector.

(** One edit of the filter box followed by the task it creates, run to its
    end. *)
Definition editFilter {FP : FloatingPoint} {Hl : Helpers} {R : StdRegex}
           (provider : Provider) (filterText : string) (t : Task)
           (view : ViewFind) : ViewFind :=
  let (view', body) := filterEdited provider filterText view in
  runTask body view' t.

(** Whether the input holds an odd number of double quotes. *)
Fixpoint oddQuotes (s : string) : bool :=
  match s with
  | EmptyString => false
  | String c r => xorb (Ascii.eqb c dquote) (oddQuotes r)
  end.

(** The integer types of the value search, and the characters that are
    neither a digit nor a letter. *)
Definition integral (type : NumericType) : bool :=
  match type with
  | F32 | F64 => false
  | _ => true
  end.

Definition alphanumeric (c : ascii) : bool :=
  isdigit (code c) || islower (code c) || isupper (code c).

(** The integer that the text of a number stands for: white space, a sign
    and the digits in the base of the prefix, as [strtoull] and [strtoll]
    read them, before the result is fitted into 64 bits; with it the number
    of characters read. *)
Definition denoted (input : string) : option (Z * nat) :=
  let (s1, n1) := skipSpace input 0 in
  let '(neg, s2, n2) := signOf s1 in
  match magnitude s2 with
  | None => None
  | Some (m, n3) =>
      Some (if neg then (- Z.of_N m)%Z else Z.of_N m, (n1 + n2 + n3)%nat)
  end.

(** [std::numeric_limits<Type>::lowest()] and [max()] of the integer
    types. *)
Definition limits (type : NumericType) : option (Z * Z) :=
  match type with
  | U8 => Some (0, 255)
  | U16 => Some (0, 65535)
  | U32 => Some (0, 4294967295)
  | U64 => Some (0, 18446744073709551615)
  | I8 => Some (-128, 127)
  | I16 => Some (-32768, 32767)
  | I32 => Some (-2147483648, 2147483647)
  | I64 => Some (-9223372036854775808, 9223372036854775807)
  | F32 | F64 => None
  end%Z.

Section NumericSpec.
Context {FP : FloatingPoint}.

(** The conversion that [parseNumericValueInput] selects for a type: the
    value it yields, in the alternative of the variant that is returned,
    and the number of characters it consumed. *)
Definition conversionOf (type : NumericType) (input : string)
  : option (NumericValue * nat) :=
  match type with
  | U8 | U16 | U32 | U64 =>
      match stoull input with
      | Converted v p => Some (VU64 v, p)
      | ConversionError => None
      end
  | I8 | I16 | I32 | I64 =>
      match stoll input with
      | Converted v p => Some (VI64 v, p)
      | ConversionError => None
      end
  | F32 =>
      match stod input with
      | Converted d p => Some (VFloat (to_float32 d), p)
      | ConversionError => None
      end
  | F64 =>
      match stod input with
      | Converted d p => Some (VDouble d, p)
      | ConversionError => None
      end
  end.

(** The range of the target type. *)
Definition fitsType (type : NumericType) (v : NumericValue) : Prop :=
  match type, v with
  | U8, VU64 n => n <= 255
  | U16, VU64 n => n <= 65535
  | U32, VU64 n => n <= 4294967295
  | U64, VU64 n => n <= 18446744073709551615
  | I8, VI64 z => (-128 <= z <= 127)%Z
  | I16, VI64 z => (-32768 <= z <= 32767)%Z
  | I32, VI64 z => (-2147483648 <= z <= 2147483647)%Z
  | I64, VI64 z => (-9223372036854775808 <= z <= 9223372036854775807)%Z
  | F32, VFloat f => f32_ltb f f32_lowest = false /\ f32_ltb f32_max f = false
  | F64, VDouble d => f64_ltb d f64_lowest = false /\ f64_ltb f64_max d = false
  | _, _ => False
  end.
End NumericSpec.

Definition allBytes (l : list N) : Prop := Forall (fun b => b < 256) l.

(** The [w] bytes of a window read at the byte order [en], as raw bits. *)
Definition windowValue (en : std_endian) (window : list N) : N :=
  match en with
  | little => ofBytes window
  | big => ofBytes (rev window)
  end.

Section ValueSpec.
Context {FP : FloatingPoint}.

(** The comparison of [searchValue] on the raw bits of a window: in the type
  of the alternative that the bounds hold. *)
Definition valueInRange (min max : NumericValue) (v : N) : bool :=
match min, max with
| VU64 lo, VU64 hi => (lo <=? v) && (v <=? hi)
| VI64 lo, VI64 hi => ((lo <=? to_i64 v) && (to_i64 v <=? hi))%Z
| VFloat lo, VFloat hi => f32_leb lo (f32_of_bits v) && f32_leb (f32_of_bits v) hi
| VDouble lo, VDouble hi => f64_leb lo (f64_of_bits v) && f64_leb (f64_of_bits v) hi
| _, _ => false
end.

Definition sameAlternative (a b : NumericValue) : Prop :=
match a, b with
| VU64 _, VU64 _ | VI64 _, VI64 _ | VFloat _, VFloat _ | VDouble _, VDouble _ => True
| _, _ => False
end.
End ValueSpec.

(** The masked pattern stands at the head of [l]: byte [k] of [l] matches
    entry [k], [(byte & mask) == value], for every entry. *)
Fixpoint matchesPattern (pattern : list BinaryPattern) (l : list N) : bool :=
  match pattern, l with
  | [], _ => true
  | e :: es, b :: bs => (N.land b (mask e) =? value e) && matchesPattern es bs
  | _ :: _, [] => false
  end.

Definition patternAt (pattern : list BinaryPattern) (H : list N) (a : nat) : bool :=
  matchesPattern pattern (skipn a H).


(** * The event system ([lib/libimhex/include/hex/api/event.hpp]) *)

(** ** [impl::EventId] *)

Module EventId.
(** An id is its [m_hash], a [u32]; [operator==] is the defaulted one. *)
Definition t := N.

Definition eqb (a b : t) : bool := a =? b.

(** [(m_hash >> 5) | (m_hash << 27)] *)
Definition rotate (m_hash : N) : N :=
  N.lor (N.shiftr m_hash 5) (u32 (N.shiftl m_hash 27)).

(** The operand [c] of [m_hash ^= c]: the [char] is promoted to [int] and
    converted to [u32], which repeats its sign bit where [char] is
    signed. *)
Definition promote (c : ascii) : N :=
  if code c <? 128 then code c else code c + (2 ^ 32 - 256).

(** The loop over [std::string_view(func)]. *)
Fixpoint mix (m_hash : N) (func : string) : N :=
  match func with
  | EmptyString => m_hash
  | String c rest => mix (N.lxor (rotate m_hash) (promote c)) rest
  end.

(** The constructor, from [__builtin_FUNCTION()] and [__builtin_LINE()]. *)
Definition make (func : string) (line : N) : t :=
  mix (N.lxor line 987654321) func.
End EventId.

(** ** [EventManager] *)

Module EventManager.
Section Manager.
(** The parameters an event is posted with, and the state of the rest of
    the program, which a callback may change.  A callback that
    subscribes or unsubscribes while an event is being posted is not
    covered. *)
Variables Params World : Type.

(** [Event<Params...>::Callback] *)
Definition Callback : Type := Params -> World -> World.

(** An [EventBase *] got from [new E(function)]: where the object is
    and what it holds. *)
Record EventPointer := mkPointer { location : nat; m_func : Callback }.

(** An element of [EventList]; an [EventList::iterator] is given by the
    element it points to. *)
Definition Entry : Type := EventId.t * EventPointer.

(** [operator==] on the pairs. *)
Definition entry_eqb (a b : Entry) : bool :=
  EventId.eqb (fst a) (fst b) && Nat.eqb (location (snd a)) (location (snd b)).

(** The static members: [s_tokenStore], a [std::map] kept in the order
    of its keys, and [s_events]; [allocated] counts the objects created
    so far, none of which is ever deleted. *)
Record t := mk {
  allocated : nat;
  s_events : list Entry;
  s_tokenStore : list (N * Entry)
}.

Definition empty : t := mk 0 [] [].

(** [subscribe<E>(function)]: the new element goes to the end of the
    list; the iterator to it is returned. *)
Definition subscribe (id : EventId.t) (function : Callback) (st : t) : Entry * t :=
  let entry := (id, mkPointer (allocated st) function) in
  (entry, mk (S (allocated st)) (s_events st ++ [entry]) (s_tokenStore st)).

(** [std::map::insert]: a key that is present keeps its value. *)
Fixpoint insert (token : N) (it : Entry) (store : list (N * Entry))
  : list (N * Entry) :=
  match store with
  | [] => [(token, it)]
  | item :: rest =>
      if token <? fst item then (token, it) :: store
      else if token =? fst item then store
      else item :: insert token it rest
  end.

(** [subscribe<E>(token, function)] *)
Definition subscribe_token (id : EventId.t) (token : N) (function : Callback)
           (st : t) : t :=
  let (it, st') := subscribe id function st in
  mk (allocated st') (s_events st') (insert token it (s_tokenStore st')).

(** An iterator is dangling once its element has left the list; using
    it is undefined, which the operations below report as [None]. *)
Definition dangling (events : list Entry) (it : Entry) : bool :=
  negb (existsb (entry_eqb it) events).

(** [std::list::remove(value)] *)
Definition remove (value : Entry) (events : list Entry) : list Entry :=
  filter (fun e => negb (entry_eqb e value)) events.

(** [unsubscribe(token)] for an iterator. *)
Definition unsubscribe (it : Entry) (st : t) : option t :=
  if dangling (s_events st) it then None
  else Some (mk (allocated st) (remove it (s_events st)) (s_tokenStore st)).

(** [std::find_if] over the token store with the predicate
    [item.first == token && item.second->first == E::id]. *)
Fixpoint find_if (events : list Entry) (id : EventId.t) (token : N)
         (store : list (N * Entry)) : option (option (N * Entry)) :=
  match store with
  | [] => Some None
  | item :: rest =>
      if fst item =? token then
        if dangling events (snd item) then None
        else if EventId.eqb (fst (snd item)) id then Some (Some item)
        else find_if events id token rest
      else find_if events id token rest
  end.

(** [std::map::erase(iter)] *)
Definition erase (item : N * Entry) (store : list (N * Entry)) : list (N * Entry) :=
  filter (fun other => negb (fst other =? fst item)) store.

(** [unsubscribe<E>(token)] *)
Definition unsubscribe_token (id : EventId.t) (token : N) (st : t) : option t :=
  match find_if (s_events st) id token (s_tokenStore st) with
  | None => None
  | Some None => Some st
  | Some (Some item) =>
      Some (mk (allocated st) (remove (snd item) (s_events st))
               (erase item (s_tokenStore st)))
  end.

(** [post<E>(args...)] *)
Definition post (id : EventId.t) (args : Params) (st : t) (world : World) : World :=
  fold_left (fun w (e : Entry) =>
               if EventId.eqb (fst e) id then m_func (snd e) args w else w)
            (s_events st) world.

(** [clear()] *)
Definition clear (st : t) : t := mk (allocated st) [] [].
End Manager.
End EventManager.

(** The events of [event.hpp] that the hex editor uses.  Each [EVENT_DEF]
    builds its id inside a lambda, so [__builtin_FUNCTION()] is the name
    the compiler gives to the call operator of a lambda and
    [__builtin_LINE()] is the line of the [EVENT_DEF]. *)
Section DefaultEvents.
Variable lambda : string.

Definition EventRegionSelected : EventId.t := EventId.make lambda 149.
Definition EventProviderChanged : EventId.t := EventId.make lambda 154.
Definition RequestSelectionChange : EventId.t := EventId.make lambda 165.
End DefaultEvents.


(** * The hex editor view ([view_hex_editor.cpp]): its use of the events *)

Section HexEditorEvents.
Variables Params World : Type.
Variable lambda : string.

(** [ViewHexEditor::registerEvents]: the view subscribes twice under the
    token [this]; the bodies of the two handlers are left open. *)
Definition registerEvents (this : N)
           (onSelectionChange onProviderChanged : EventManager.Callback Params World)
           (st : EventManager.t Params World) : EventManager.t Params World :=
  EventManager.subscribe_token (EventProviderChanged lambda) this onProviderChanged
    (EventManager.subscribe_token (RequestSelectionChange lambda) this
       onSelectionChange st).

(** [ViewHexEditor::~ViewHexEditor] *)
Definition destroyViewHexEditor (this : N) (st : EventManager.t Params World)
  : option (EventManager.t Params World) :=
  EventManager.unsubscribe_token (EventProviderChanged lambda) this st.
End HexEditorEvents.

(** [PopupFind]: the members that the search position is kept in. *)
Module PopupFind.
Record t := mk {
  m_searchPosition : option N;
  m_nextSearchPosition : option N
}.

(** The handler of [EventRegionSelected] that the constructor installs:
    [m_searchPosition = m_nextSearchPosition.value_or(region.getStartAddress())]
    and then [m_nextSearchPosition.reset()]. *)
Definition onRegionSelected (selected : Region) (popup : t) : t :=
  mk (Some (match m_nextSearchPosition popup with
            | Some position => position
            | None => getStartAddress selected
            end))
     None.

Section Lifetime.
Variable lambda : string.

(** [PopupFind::PopupFind] *)
Definition construct (this : N) (st : EventManager.t Region t)
  : EventManager.t Region t :=
  EventManager.subscribe_token (EventRegionSelected lambda) this onRegionSelected st.

(** [PopupFind::~PopupFind] *)
Definition destroy (this : N) (st : EventManager.t Region t)
  : option (EventManager.t Region t) :=
  EventManager.unsubscribe_token (EventRegionSelected lambda) this st.
End Lifetime.
End PopupFind.


(** * The Find view: highlighting, the reset button and the table *)

From Stdlib Require Permutation.

(** ** The highlighting provider installed by the constructor *)

(** [HighlightColor], from the colour [ImGuiCustomCol_ToolbarPurple] of the
    theme. *)
Definition HighlightColor (toolbarPurple : N) : N :=
  N.lor (N.land toolbarPurple 0x00FFFFFF) 0x70000000.

(** Modelled from the spec: the interval tree of the occurrences ("an
    interval tree keyed by [start, end) of Region ... queries return all
    overlapping entries").  [findOverlapping(first, last)] gives the
    entries whose interval meets the addresses [first] to [last]. *)
Definition findOverlapping (tree : list Interval) (first last : N) : list Interval :=
  filter (fun entry => (start entry <=? last) && (first <? stop entry)) tree.

(** The lambda given to [addBackgroundHighlightingProvider]; [running] is
    [m_searchTask.isRunning()]. *)
Definition highlightingProvider (view : ViewFind) (running : bool) (provider : Provider)
           (toolbarPurple : N) (address : N) : option N :=
  if running then None
  else if negb (isEmpty (findOverlapping (m_occurrenceTree view (ident provider))
                                         address address))
       then Some (HighlightColor toolbarPurple)
       else None.

(** ** [drawContent]: the reset button *)

(** The button is disabled while the found list is empty. *)
Definition resetButton (clicked : bool) (provider : Provider) (view : ViewFind) : ViewFind :=
  if clicked && negb (isEmpty (m_foundOccurrences view (ident provider)))
  then setTree (ident provider) []
         (setSorted (ident provider) [] (setFound (ident provider) [] view))
  else view.

(** ** [drawContent]: sorting the table *)

Inductive ImGuiSortDirection :=
| ImGuiSortDirection_None
| ImGuiSortDirection_Ascending
| ImGuiSortDirection_Descending.

(** [ColumnUserID], which the comparison tests against the ids of the
    three columns. *)
Inductive ColumnUserID := OffsetColumn | SizeColumn | ValueColumn | OtherColumn.

Record ImGuiTableSortSpecs := mkSortSpecs {
  SpecsDirty : bool;
  Column : ColumnUserID;
  SortDirection : ImGuiSortDirection
}.

(** [std::sort(first, last, comp)]: the standard promises a permutation of
    the range in which no element is placed before one that [comp] puts
    ahead of it, and leaves the order of equivalent elements open; this is
    one such result. *)
Fixpoint insertSorted {A} (comp : A -> A -> bool) (x : A) (l : list A) : list A :=
  match l with
  | [] => [x]
  | y :: rest => if comp x y then x :: l else y :: insertSorted comp x rest
  end.

Definition std_sort {A} (comp : A -> A -> bool) (l : list A) : list A :=
  fold_right (insertSorted comp) [] l.

Section Table.
Context {H : Helpers}.

(** The comparison handed to [std::sort]: [left > right] when the
    direction is ascending, [left < right] otherwise. *)
Definition sortComparison (view : ViewFind) (provider : Provider)
           (sortSpecs : ImGuiTableSortSpecs) (left right : Occurrence) : bool :=
  let ascending := match SortDirection sortSpecs with
                   | ImGuiSortDirection_Ascending => true
                   | _ => false
                   end in
  match Column sortSpecs with
  | OffsetColumn =>
      if ascending
      then getStartAddress (region right) <? getStartAddress (region left)
      else getStartAddress (region left) <? getStartAddress (region right)
  | SizeColumn =>
      if ascending
      then getSize (region right) <? getSize (region left)
      else getSize (region left) <? getSize (region right)
  | ValueColumn =>
      if ascending
      then String.ltb (decodeValue view provider right) (decodeValue view provider left)
      else String.ltb (decodeValue view provider left) (decodeValue view provider right)
  | OtherColumn => false
  end.

(** The block under [if (sortSpecs->SpecsDirty)]. *)
Definition sortTable (sortSpecs : ImGuiTableSortSpecs) (provider : Provider)
           (view : ViewFind) : ViewFind * ImGuiTableSortSpecs :=
  if SpecsDirty sortSpecs
  then (setSorted (ident provider)
          (std_sort (sortComparison view provider sortSpecs)
                    (m_sortedOccurrences view (ident provider))) view,
        mkSortSpecs false (Column sortSpecs) (SortDirection sortSpecs))
  else (view, sortSpecs).
End Table.


(** * The hex editor view: the colour of a byte *)

(** [ImHexApi::HexEditor::Highlighting]: a region and its colour. *)
Record Highlighting := mkHighlighting { getRegion : Region; getColor : N }.

Section HighlightCallbacks.
(** [Region::overlaps], declared in libimhex. *)
Variable overlaps : Region -> Region -> bool.

(** A highlighting provider function: it is given the address, the data,
    the size and whether a colour has been found already. *)
Definition HighlightingProviderFunction : Type :=
  N -> list N -> N -> bool -> option N.

(** The loop over the highlights set by region: the first that overlaps
    the bytes gives the colour. *)
Fixpoint firstOverlapping (highlights : list (N * Highlighting)) (address size : N)
  : option N :=
  match highlights with
  | [] => None
  | (_, highlighting) :: rest =>
      if overlaps (getRegion highlighting) (mkRegion address size)
      then Some (getColor highlighting)
      else firstOverlapping rest address size
  end.

(** The foreground callback of the constructor: every function is
    called, and a colour it returns replaces the one held. *)
Definition foregroundHighlight (functions : list (N * HighlightingProviderFunction))
           (highlights : list (N * Highlighting))
           (address : N) (data : list N) (size : N) : option N :=
  let result :=
    fold_left (fun (result : option N) (entry : N * HighlightingProviderFunction) =>
                 match snd entry address data size
                                 (match result with Some _ => true | None => false end)
                 with
                 | Some color => Some color
                 | None => result
                 end)
              functions None in
  match result with
  | Some color => Some color
  | None => firstOverlapping highlights address size
  end.

(** The background callback: the first colour that a function returns
    is returned at once; [result] is never assigned. *)
Fixpoint firstColor (functions : list (N * HighlightingProviderFunction))
         (address : N) (data : list N) (size : N) : option N :=
  match functions with
  | [] => None
  | (_, callback) :: rest =>
      match callback address data size false with
      | Some color => Some color
      | None => firstColor rest address data size
      end
  end.

Definition backgroundHighlight (functions : list (N * HighlightingProviderFunction))
           (highlights : list (N * Highlighting))
           (address : N) (data : list N) (size : N) : option N :=
  match firstColor functions address data size with
  | Some color => Some color
  | None => firstOverlapping highlights address size
  end.
End HighlightCallbacks.

(** The provider of the Find view as the hex editor calls it. *)
Definition findHighlighting (view : ViewFind) (running : bool) (provider : Provider)
           (toolbarPurple : N) : HighlightingProviderFunction :=
  fun address _ _ _ => highlightingProvider view running provider toolbarPurple address.


(** * [formatBytes] *)

(** [formatBytes<u64>]: nothing is shown for more bytes than the type has;
    otherwise the bytes are copied to the low end of a zeroed value, which
    is formatted with [hex::format("{}", value)], a helper of libimhex
    taken as the parameter [format]. *)
Definition formatBytes_u64 (format : N -> string) (bytes : list N) : string :=
  if (8 <? List.length bytes)%nat then EmptyString else format (ofBytes bytes).

From Stdlib Require DecimalString.

(** The digits of a number, as ["{}"] prints an unsigned integer. *)
Definition decimal (v : N) : string :=
  DecimalString.NilEmpty.string_of_uint (N.to_uint v).

(** The plain helpers, with unsigned values shown by [formatBytes<u64>]. *)
Definition decimalHelpers : Helpers := {|
  decodeByteString := codes;
  encodeByteString := text;
  formatValue := fun dt raw =>
                   match dt with
                   | DecodeType.Unsigned => formatBytes_u64 decimal raw
                   | _ => text raw
                   end;
  containsIgnoreCase := fun a b => containsAt (codes b) (codes a)
|}.


(** ** Notions used to state the properties of the event system *)

(** Keys in strictly increasing order. *)
Fixpoint increasing (keys : list N) : Prop :=
  match keys with
  | [] => True
  | k :: rest => Forall (fun k' => k < k') rest /\ increasing rest
  end.

Section ManagerSpec.
Variables Params World : Type.

(** What the containers guarantee by themselves: the objects in the list
    have been allocated, so an object created later differs from them,
    and the token store is ordered by its keys, each of which occurs
    once. *)
Definition consistent (st : EventManager.t Params World) : Prop :=
  Forall (fun e => (EventManager.location (snd e) < EventManager.allocated st)%nat)
         (EventManager.s_events st) /\
  increasing (map fst (EventManager.s_tokenStore st)).

(** The token has no entry in the token store. *)
Definition unused (token : N) (st : EventManager.t Params World) : Prop :=
  ~ In token (map fst (EventManager.s_tokenStore st)).
End ManagerSpec.

(** ** Notions used to state the properties of the Find view *)

(** The bytes of a text in UTF-16, for characters below [0x100]. *)
Definition utf16le (chars : list N) : list N := flat_map (fun c => [c; 0]) chars.
Definition utf16be (chars : list N) : list N := flat_map (fun c => [0; c]) chars.

(** The address is one of the bytes of the occurrence. *)
Definition covers (occ : Occurrence) (address : N) : Prop :=
  getStartAddress (region occ) <= address
  < getStartAddress (region occ) + getSize (region occ).

(** A list in which every element stands in the relation to all that come
    after it. *)
Fixpoint ordered {A} (le : A -> A -> Prop) (l : list A) : Prop :=
  match l with
  | [] => True
  | a :: rest => Forall (le a) rest /\ ordered le rest
  end.

(** What [searchStrings] may report: an occurrence that lies in the region,
    every byte of which passes the test of its position in the run, that
    has the minimal length, and that, when null termination is asked for,
    is followed by a zero byte, or else ends the region on a zero byte. *)
Definition stringHit (provider : Provider) (r : Region) (settings : Strings.t)
           (occ : Occurrence) : Prop :=
  let H := haystack provider r in
  let s := N.to_nat (getStartAddress (region occ) - getStartAddress r) in
  let len := N.to_nat (getSize (region occ)) in
  getStartAddress r <= getStartAddress (region occ) /\
  getStartAddress (region occ) + getSize (region occ) <= getStartAddress r + getSize r /\
  positionalRun settings H s len /\
  size_t_of_int (Strings.minLength settings) <= getSize (region occ) /\
  (Strings.nullTermination settings = true ->
   zeroAt H (s + len) = true \/
   ((s + len)%nat = List.length H /\ zeroAt H (s + len - 1) = true)) /\
  (decodeType occ, endian occ) = stringsDecoding (Strings.type settings).

(** At least one byte lies between the two occurrences. *)
Definition apart (a b : Occurrence) : Prop :=
  getStartAddress (region a) + getSize (region a) < getStartAddress (region b).

Definition stringHits (provider : Provider) (r : Region) (settings : Strings.t)
           (found : list Occurrence) : Prop :=
  Forall (stringHit provider r settings) found /\ ordered apart found.

(** ** Notions used to state further properties of the searches *)

(** The test of [searchBinaryPattern] for one byte and one entry. *)
Definition matchesEntry (entry : BinaryPattern) (byte : N) : bool :=
  N.land byte (mask entry) =? value entry.

(** An entry that fits a byte and that some byte matches: its value has no
    bit outside its mask. *)
Definition satisfiable (entry : BinaryPattern) : bool :=
  (mask entry <? 256) && (value entry <? 256) && matchesEntry entry (value entry).

(** The pattern that stands for the bytes themselves. *)
Definition exactPattern (bytes : list N) : list BinaryPattern :=
  map (fun b => mkPattern 255 b) bytes.

(** The pattern after the first character of a hexadecimal token. *)
Definition halfToken (p : BinaryPattern) : bool :=
  ((mask p =? 0) && (value p =? 0)) || ((mask p =? 15) && (value p <? 16)).

(** The strings that [searchRegex] tests: those of a strings search with
    every character class enabled. *)
Definition regexStrings (settings : Regex.t) : Strings.t :=
  Strings.mk (Regex.minLength settings) (Regex.nullTermination settings)
             (Regex.type settings) true true true true true true true.

(** The test that [searchRegex] applies to the bytes of a string. *)
Definition accepted {R : StdRegex} (provider : Provider) (fullMatch : bool) (re : regex)
           (occ : Occurrence) : bool :=
  let str := read provider (getStartAddress (region occ)) (getSize (region occ)) in
  if fullMatch then regex_match str re else regex_search str re.


(** Bounds of an integer type whose upper bound lies below the lower one. *)
Definition inverted {FP : FloatingPoint} (min max : NumericValue) : Prop :=
  match min, max with
  | VU64 lo, VU64 hi => hi < lo
  | VI64 lo, VI64 hi => (hi < lo)%Z
  | _, _ => False
  end.

(** * Theorems *)

(** ** Fixed-width arithmetic *)

Lemma u64_small x : x < 2 ^ 64 -> u64 x = x.
Proof. intros H. unfold u64. now apply N.mod_small. Qed.

Lemma u32_small x : x < 2 ^ 32 -> u32 x = x.
Proof. intros H. unfold u32. now apply N.mod_small. Qed.

Lemma u64_sub_small a b : b <= a -> a < 2 ^ 64 -> u64_sub a b = a - b.
Proof.
  intros Hle Hlt. unfold u64_sub.
  assert (Hb : b < 2 ^ 64) by lia.
  rewrite (N.mod_small b) by exact Hb.
  replace (a + 2 ^ 64 - b) with ((a - b) + 1 * 2 ^ 64) by lia.
  rewrite N.Div0.mod_add. apply N.mod_small. lia.
Qed.


(** ** Properties of [parseBinaryPatternString] *)

Lemma hexToken_not_quote c p : hexToken c dquote = Some p -> False.
Proof.
  unfold hexToken. destruct (hexNibble _ c); [|discriminate].
  unfold hexNibble. simpl. discriminate.
Qed.

Lemma parseLoop_unbalanced n :
  forall str inString result,
    (String.length str <= n)%nat ->
    xorb inString (oddQuotes str) = true ->
    parseLoop str inString result = [].
Proof.
  induction n as [|n IH]; intros str inString result Hlen Hodd.
  - destruct str; simpl in *; [|lia].
    destruct inString; [reflexivity|discriminate].
  - destruct str as [|c rest]; simpl in *.
    + destruct inString; [reflexivity|discriminate].
    + destruct (Ascii.eqb c dquote) eqn:Hq.
      * apply IH; [lia|]. destruct inString, (oddQuotes rest); simpl in *; congruence.
      * simpl in Hodd. destruct inString.
        -- apply IH; [lia|exact Hodd].
        -- destruct rest as [|c2 rest2].
           ++ simpl in Hodd. discriminate.
           ++ assert (Hrest2 : forall p, hexToken c c2 = Some p \/ Ascii.eqb c2 qmark = true ->
                                  xorb false (oddQuotes rest2) = true).
              { intros p Hp. simpl in Hodd. simpl.
                destruct (Ascii.eqb c2 dquote) eqn:Hq2; [|exact Hodd].
                apply Ascii.eqb_eq in Hq2. subst c2. destruct Hp as [Hp|Hp].
                - exfalso. eapply hexToken_not_quote; eauto.
                - discriminate Hp. }
              destruct (Ascii.eqb c qmark && Ascii.eqb c2 qmark) eqn:Hw.
              { apply IH; [simpl in Hlen; lia|].
                apply (Hrest2 (mkPattern 0 0)). right.
                apply andb_true_iff in Hw. tauto. }
              destruct (isxdigit (code c) || Ascii.eqb c qmark).
              { destruct (hexToken c c2) eqn:Ht; [|reflexivity].
                apply IH; [simpl in Hlen; lia|]. apply (Hrest2 b). now left. }
              destruct (isspace (code c)); [|reflexivity].
              apply IH; [lia|exact Hodd].
Qed.

Lemma mixed_token h :
  isxdigit (code h) = true ->
  exists v, hexCharToValue h = Some v /\ v < 16 /\
    parseBinaryPatternString (String h (String qmark EmptyString)) = [mkPattern 240 (16 * v)] /\
    parseBinaryPatternString (String qmark (String h EmptyString)) = [mkPattern 15 v].
Proof.
  destruct h as [[] [] [] [] [] [] [] []]; vm_compute; intros H;
    try discriminate H; eexists; repeat split.
Qed.

Lemma malformed_token c1 c2 rest result :
  isxdigit (code c1) || Ascii.eqb c1 qmark = true ->
  isxdigit (code c2) || Ascii.eqb c2 qmark = false ->
  parseLoop (String c1 (String c2 rest)) false result = [].
Proof.
  intros H1 H2. apply orb_false_iff in H2. destruct H2 as [Hx Hm].
  assert (Hq : Ascii.eqb c1 dquote = false).
  { destruct (Ascii.eqb c1 dquote) eqn:E; [|reflexivity].
    apply Ascii.eqb_eq in E. subst c1. vm_compute in H1. discriminate. }
  simpl. rewrite Hq, Hm, andb_false_r, H1.
  unfold hexToken. destruct (hexNibble _ c1); [|reflexivity].
  unfold hexNibble. rewrite Hx, Hm. reflexivity.
Qed.

Local Open Scope string_scope.

(** C4: [parseBinaryPatternString] follows the grammar of masked patterns.
    Four hexadecimal tokens give four exact entries; [??] gives the entry
    with mask 0 and value 0; a quoted literal gives one exact entry per
    character; a token that mixes a hexadecimal digit and [?] leaves only the
    nibble of the [?] free; the single character [D], any input with
    unbalanced quotes, and a token whose second character is neither a
    hexadecimal digit nor [?] give the empty result. *)
Theorem parseBinaryPattern_grammar :
  parseBinaryPatternString "DE AD BE EF"
    = [mkPattern 255 222; mkPattern 255 173; mkPattern 255 190; mkPattern 255 239] /\
  parseBinaryPatternString "DE ?? BE EF"
    = [mkPattern 255 222; mkPattern 0 0; mkPattern 255 190; mkPattern 255 239] /\
  parseBinaryPatternString (String dquote ("AB" ++ String dquote ""))
    = [mkPattern 255 (code "A"); mkPattern 255 (code "B")] /\
  (forall h, isxdigit (code h) = true ->
     exists v, hexCharToValue h = Some v /\ v < 16 /\
       parseBinaryPatternString (String h (String qmark "")) = [mkPattern 240 (16 * v)] /\
       parseBinaryPatternString (String qmark (String h "")) = [mkPattern 15 v]) /\
  parseBinaryPatternString "D" = [] /\
  (forall s, oddQuotes s = true -> parseBinaryPatternString s = []) /\
  (forall c1 c2 rest,
     isxdigit (code c1) || Ascii.eqb c1 qmark = true ->
     isxdigit (code c2) || Ascii.eqb c2 qmark = false ->
     parseBinaryPatternString (String c1 (String c2 rest)) = []).
Proof.
  repeat split; try reflexivity.
  - exact mixed_token.
  - intros s Hodd. unfold parseBinaryPatternString.
    destruct (String.length s <? 2)%nat; [reflexivity|].
    apply parseLoop_unbalanced with (n := String.length s); [lia|exact Hodd].
  - intros c1 c2 rest H1 H2. unfold parseBinaryPatternString.
    change (String.length (String c1 (String c2 rest)) <? 2)%nat with false.
    now apply malformed_token.
Qed.

Lemma parseBinaryPattern_grammar_witness :
  parseBinaryPatternString (String dquote "AB") = [] /\
  parseBinaryPatternString "D " = [] /\
  exists v, hexCharToValue "D" = Some v /\ v < 16 /\
    parseBinaryPatternString (String "D" (String qmark "")) = [mkPattern 240 (16 * v)] /\
    parseBinaryPatternString (String qmark (String "D" "")) = [mkPattern 15 v].
Proof.
  destruct parseBinaryPattern_grammar as (_ & _ & _ & Hmix & _ & Hq & Hbad).
  split; [apply Hq; reflexivity|].
  split; [apply Hbad; reflexivity|].
  apply Hmix. reflexivity.
Defined.

Local Close Scope string_scope.


(** ** Properties of [parseNumericValue] *)

(** *** Trailing characters *)

Lemma digits_count base : forall s acc cnt v n,
  digits base s acc cnt = (v, n) -> (cnt <= n <= cnt + String.length s)%nat.
Proof.
  induction s as [|c r IH]; intros acc cnt v n Hd; simpl in *.
  - injection Hd as _ <-. lia.
  - destruct (digitValue c) as [d|].
    + destruct (d <? base).
      * apply IH in Hd. lia.
      * injection Hd as _ <-. lia.
    + injection Hd as _ <-. lia.
Qed.

Lemma digits_append base c g : forall s acc cnt v,
  digitValue c = None ->
  digits base s acc cnt = (v, (cnt + String.length s)%nat) ->
  digits base (s ++ String c g) acc cnt = (v, (cnt + String.length s)%nat).
Proof.
  intros s. induction s as [|c0 r IH]; intros acc cnt v Hc Hd; simpl in *.
  - rewrite Hc. exact Hd.
  - destruct (digitValue c0) as [d|].
    + destruct (d <? base).
      * replace (cnt + S (String.length r))%nat with (S cnt + String.length r)%nat in * by lia.
        now apply IH.
      * injection Hd as _ Hn. lia.
    + injection Hd as _ Hn. lia.
Qed.

Lemma skipSpace_count : forall s k s1 n1,
  skipSpace s k = (s1, n1) -> (n1 + String.length s1 = k + String.length s)%nat.
Proof.
  induction s as [|c r IH]; intros k s1 n1 Hs; simpl in *.
  - injection Hs as <- <-. reflexivity.
  - destruct (isspace (code c)).
    + apply IH in Hs. lia.
    + injection Hs as <- <-. reflexivity.
Qed.

Lemma skipSpace_append J : forall s k s1 n1,
  skipSpace s k = (s1, n1) -> s1 <> EmptyString ->
  skipSpace (s ++ J) k = ((s1 ++ J)%string, n1).
Proof.
  induction s as [|c r IH]; intros k s1 n1 Hs Hne; simpl in *.
  - injection Hs as <- <-. congruence.
  - destruct (isspace (code c)).
    + now apply IH.
    + injection Hs as <- <-. reflexivity.
Qed.

Lemma signOf_count s neg s2 n2 :
  signOf s = (neg, s2, n2) -> (n2 + String.length s2 = String.length s)%nat.
Proof.
  unfold signOf. destruct s as [|c r]; [intros [= <- <- <-]; reflexivity|].
  destruct (code c =? 45); [intros [= <- <- <-]; reflexivity|].
  destruct (code c =? 43); intros [= <- <- <-]; reflexivity.
Qed.

Lemma signOf_append J s neg s2 n2 :
  signOf s = (neg, s2, n2) -> s <> EmptyString ->
  signOf (s ++ J) = (neg, (s2 ++ J)%string, n2).
Proof.
  unfold signOf. destruct s as [|c r]; [congruence|]. simpl.
  destruct (code c =? 45); [intros [= <- <- <-]; reflexivity|].
  destruct (code c =? 43); intros [= <- <- <-]; reflexivity.
Qed.

Lemma magnitude_count s m n : magnitude s = Some (m, n) -> (n <= String.length s)%nat.
Proof.
  unfold magnitude. destruct s as [|c0 rest]; [discriminate|].
  destruct (code c0 =? 48).
  - destruct rest as [|x r]; [intros [= _ <-]; simpl; lia|].
    destruct ((code x =? 120) || (code x =? 88)).
    + destruct (digits 16 r 0 0) as [v k] eqn:Hd. apply digits_count in Hd.
      destruct k; intros [= _ <-]; simpl in *; lia.
    + destruct (digits 8 (String x r) 0 0) as [v k] eqn:Hd. apply digits_count in Hd.
      intros [= _ <-]. simpl in *. lia.
  - destruct (digits 10 (String c0 rest) 0 0) as [v k] eqn:Hd. apply digits_count in Hd.
    destruct k; [discriminate|]. intros [= _ <-]. simpl in *. lia.
Qed.

Lemma junk_not_x c : digitValue c = None -> (code c =? 120) || (code c =? 88) = false.
Proof.
  unfold digitValue. intros Hc.
  destruct (N.eqb_spec (code c) 120) as [E|_]; [rewrite E in Hc; discriminate|].
  destruct (N.eqb_spec (code c) 88) as [E|_]; [rewrite E in Hc; discriminate|].
  reflexivity.
Qed.

Lemma magnitude_append c g s m :
  digitValue c = None ->
  magnitude s = Some (m, String.length s) ->
  magnitude (s ++ String c g) = Some (m, String.length s).
Proof.
  intros Hc. unfold magnitude. destruct s as [|c0 rest]; [discriminate|].
  cbn [append]. destruct (code c0 =? 48).
  - destruct rest as [|x r].
    + cbn [append]. rewrite (junk_not_x _ Hc). intros [= <-].
      cbn [digits]. rewrite Hc. reflexivity.
    + cbn [append]. destruct ((code x =? 120) || (code x =? 88)).
      * destruct (digits 16 r 0 0) as [v k] eqn:Hd.
        destruct k; [intros [= _ Hn]; simpl in Hn; lia|].
        intros [= <- Hn]. simpl in Hn.
        assert (Hk : S k = (0 + String.length r)%nat) by lia.
        rewrite Hk in Hd. rewrite (@digits_append _ c g r 0 0%nat _ Hc Hd).
        rewrite <- Hk. cbv beta iota. do 2 f_equal. simpl in *. lia.
      * destruct (digits 8 (String x r) 0 0) as [v k] eqn:Hd.
        intros [= <- Hn]. simpl in Hn.
        assert (Hk : k = (0 + String.length (String x r))%nat) by (simpl; lia).
        rewrite Hk in Hd.
        change (String x (r ++ String c g)) with ((String x r) ++ String c g)%string.
        rewrite (@digits_append _ c g (String x r) 0 0%nat _ Hc Hd). rewrite <- Hk. cbv beta iota. do 2 f_equal. simpl in *. lia.
  - destruct (digits 10 (String c0 rest) 0 0) as [v k] eqn:Hd.
    destruct k; [discriminate|]. intros [= <- Hn].
    assert (Hk : S k = (0 + String.length (String c0 rest))%nat) by (simpl in *; lia).
    rewrite Hk in Hd.
    change (String c0 (rest ++ String c g)) with ((String c0 rest) ++ String c g)%string.
    rewrite (@digits_append _ c g (String c0 rest) 0 0%nat _ Hc Hd). rewrite <- Hk. cbv beta iota. do 2 f_equal. simpl in *. lia.
Qed.

Lemma length_append (s J : string) :
  String.length (s ++ J) = (String.length s + String.length J)%nat.
Proof. induction s as [|c r IH]; simpl; [reflexivity|now rewrite IH]. Qed.

Lemma alphanumeric_digitValue c : alphanumeric c = false -> digitValue c = None.
Proof.
  unfold alphanumeric, digitValue. intros Hc.
  apply orb_false_iff in Hc. destruct Hc as [Hc Hu].
  apply orb_false_iff in Hc. destruct Hc as [Hd Hl].
  cbv zeta. now rewrite Hd, Hl, Hu.
Qed.

(** What the conversions have in common: the part before the digits. *)
Lemma prefix_append c g s s1 n1 neg s2 n2 m n3 :
  digitValue c = None ->
  skipSpace s 0 = (s1, n1) -> signOf s1 = (neg, s2, n2) ->
  magnitude s2 = Some (m, n3) -> (n1 + n2 + n3)%nat = String.length s ->
  skipSpace (s ++ String c g) 0 = ((s1 ++ String c g)%string, n1) /\
  signOf (s1 ++ String c g) = (neg, (s2 ++ String c g)%string, n2) /\
  magnitude (s2 ++ String c g) = Some (m, n3).
Proof.
  intros Hc Hs Hg Hm Hn.
  assert (Hne : s1 <> EmptyString).
  { intros ->. unfold signOf in Hg. injection Hg as _ <- _. discriminate. }
  pose proof (skipSpace_count _ _ Hs) as C1.
  pose proof (signOf_count _ Hg) as C2.
  pose proof (magnitude_count _ Hm) as C3.
  assert (n3 = String.length s2) by lia. subst n3.
  split; [now apply skipSpace_append|].
  split; [now apply signOf_append|].
  now apply magnitude_append.
Qed.

Lemma stoull_append c g s v :
  digitValue c = None ->
  stoull s = Converted v (String.length s) ->
  stoull (s ++ String c g) = Converted v (String.length s).
Proof.
  intros Hc. unfold stoull.
  destruct (skipSpace s 0) as [s1 n1] eqn:Hs.
  destruct (signOf s1) as [[neg s2] n2] eqn:Hg.
  destruct (magnitude s2) as [[m n3]|] eqn:Hm; [|discriminate].
  destruct (m <? 2 ^ 64) eqn:Hr; [|discriminate].
  intros Heq.
  assert (Hn : (n1 + n2 + n3)%nat = String.length s) by congruence.
  destruct (@prefix_append c g s s1 n1 neg s2 n2 m n3 Hc Hs Hg Hm Hn) as (-> & -> & ->).
  cbv zeta. rewrite Hr. exact Heq.
Qed.

Lemma stoll_append c g s v :
  digitValue c = None ->
  stoll s = Converted v (String.length s) ->
  stoll (s ++ String c g) = Converted v (String.length s).
Proof.
  intros Hc. unfold stoll.
  destruct (skipSpace s 0) as [s1 n1] eqn:Hs.
  destruct (signOf s1) as [[neg s2] n2] eqn:Hg.
  destruct (magnitude s2) as [[m n3]|] eqn:Hm; [|discriminate].
  cbv zeta.
  destruct ((- 2 ^ 63 <=? (if neg then (- Z.of_N m)%Z else Z.of_N m))%Z &&
            ((if neg then (- Z.of_N m)%Z else Z.of_N m) <=? 2 ^ 63 - 1)%Z) eqn:Hr;
    [|discriminate].
  intros Heq.
  assert (Hn : (n1 + n2 + n3)%nat = String.length s) by congruence.
  destruct (@prefix_append c g s s1 n1 neg s2 n2 m n3 Hc Hs Hg Hm Hn) as (-> & -> & ->).
  cbv zeta. rewrite Hr. exact Heq.
Qed.

Section NumericTheorems.
Context {FP : FloatingPoint}.

Lemma parseNumericValue_success {Storage : Type}
      (conv : string -> conversion Storage) outOfRange inject size str v w :
  parseNumericValue conv outOfRange inject size str = (true, v, w) <->
  exists raw, conv str = Converted raw (String.length str) /\
              outOfRange raw = false /\ v = inject raw /\ w = size.
Proof.
  unfold parseNumericValue, parseFailure. split.
  - destruct (conv str) as [raw p|]; [|discriminate].
    destruct (Nat.eqb_spec p (String.length str)) as [->|]; simpl; [|discriminate].
    destruct (outOfRange raw) eqn:Hr; [discriminate|].
    intros [= <- <-]. exists raw. auto.
  - intros (raw & -> & Hr & -> & ->).
    rewrite Nat.eqb_refl. simpl. rewrite Hr. reflexivity.
Qed.

Lemma parseNumericValue_outcome {Storage : Type}
      (conv : string -> conversion Storage) outOfRange inject size str :
  parseNumericValue conv outOfRange inject size str = parseFailure \/
  exists v, parseNumericValue conv outOfRange inject size str = (true, v, size).
Proof.
  unfold parseNumericValue.
  destruct (conv str) as [raw p|]; [|now left].
  destruct (negb _); [now left|].
  destruct (outOfRange raw); [now left|]. right. eauto.
Qed.

Ltac range_solve :=
  unfold unsignedOutOfRange, signedOutOfRange, fitsType in *;
  cbv beta iota in *;
  repeat match goal with
         | H : _ /\ _ |- _ => destruct H
         | H : _ || _ = false |- _ => apply orb_false_iff in H; destruct H
         | H : (_ <? _) = false |- _ => apply N.ltb_ge in H
         | H : (_ <? _)%Z = false |- _ => apply Z.ltb_ge in H
         | |- _ /\ _ => split
         | |- _ || _ = false => apply orb_false_iff; split
         | |- (_ <? _) = false => apply N.ltb_ge
         | |- (_ <? _)%Z = false => apply Z.ltb_ge
         end;
  try lia; auto.

Lemma parseNumericValueInput_success input type v w :
  parseNumericValueInput input type = (true, v, w) <->
  conversionOf type input = Some (v, String.length input) /\
  fitsType type v /\ w = sizeofType type.
Proof.
  destruct type; unfold parseNumericValueInput, conversionOf;
    rewrite parseNumericValue_success;
    (split;
     [ intros (raw & Hc & Hr & -> & ->);
       try (destruct (stod input) as [d p|]; [|discriminate]; injection Hc as <- ->);
       try rewrite Hc;
       split; [reflexivity|split; [range_solve|reflexivity]]
     | intros (Hc & Hf & ->);
       match type of Hc with
       | match ?c with _ => _ end = _ => destruct c as [raw p|] eqn:Hs
       end; [|discriminate];
       injection Hc as <- ->; eexists; repeat split; range_solve ]).
Qed.

Lemma parseNumericValueInput_outcome input type :
  parseNumericValueInput input type = parseFailure \/
  exists v, parseNumericValueInput input type = (true, v, sizeofType type).
Proof.
  destruct type; unfold parseNumericValueInput; apply parseNumericValue_outcome.
Qed.

Lemma parseNumericValueInput_stops_early input type v p :
  conversionOf type input = Some (v, p) -> p <> String.length input ->
  parseNumericValueInput input type = parseFailure.
Proof.
  intros Hc Hp.
  destruct (parseNumericValueInput_outcome input type) as [Hf|[v' Hs]]; [exact Hf|].
  apply parseNumericValueInput_success in Hs. destruct Hs as (Hc' & _).
  rewrite Hc in Hc'. congruence.
Qed.

(** An accepted integer followed by anything that starts with a character
    which is neither a digit nor a letter is refused: the conversion stops
    where it stopped before. *)
Lemma parseNumericValueInput_trailing input c rest type v w :
  integral type = true -> alphanumeric c = false ->
  parseNumericValueInput input type = (true, v, w) ->
  parseNumericValueInput (input ++ String c rest) type = parseFailure.
Proof.
  intros Hi Hc Hs.
  apply parseNumericValueInput_success in Hs. destruct Hs as (Hconv & _ & _).
  apply alphanumeric_digitValue in Hc.
  apply (@parseNumericValueInput_stops_early _ type v (String.length input));
    [|rewrite length_append; simpl; lia].
  destruct type; try discriminate Hi; unfold conversionOf in *.
  1-4: destruct (stoull input) as [raw p|] eqn:E; [|discriminate];
       injection Hconv as <- ->; now rewrite (@stoull_append c rest input raw Hc E).
  all: destruct (stoll input) as [raw p|] eqn:E; [|discriminate];
       injection Hconv as <- ->; now rewrite (@stoll_append c rest input raw Hc E).
Qed.

(** What [parseNumericValueInput] tests, in terms of the value that the
    conversion returns: it succeeds exactly when the conversion consumed
    the whole input and the converted value lies in the range of the
    target type, and the width it returns is the size of that type; a
    conversion that stops before the end of the input, or a converted
    value out of range, gives the failure result; in particular an
    accepted integer followed by further text that starts with a
    character other than a digit or a letter is refused.  Prefixed
    integers are accepted: ["0xFF"] is 255 with width 1 and ["017"] is
    15, while ["256"] does not fit [U8] and trailing characters are
    refused.  The converted value is not always the number the text
    stands for: see [stoull_denoted]. *)
Theorem parseNumericValue_contract :
  (forall input type v w,
      parseNumericValueInput input type = (true, v, w) <->
      conversionOf type input = Some (v, String.length input) /\
      fitsType type v /\ w = sizeofType type) /\
  (forall input type v p,
      conversionOf type input = Some (v, p) -> p <> String.length input ->
      parseNumericValueInput input type = parseFailure) /\
  (forall input type v p,
      conversionOf type input = Some (v, p) -> ~ fitsType type v ->
      parseNumericValueInput input type = parseFailure) /\
  (forall input c rest type v w,
      integral type = true -> alphanumeric c = false ->
      parseNumericValueInput input type = (true, v, w) ->
      parseNumericValueInput (input ++ String c rest) type = parseFailure) /\
  parseNumericValueInput "256" U8 = parseFailure /\
  parseNumericValueInput "0xFF" U8 = (true, VU64 255, 1) /\
  parseNumericValueInput "017" U8 = (true, VU64 15, 1) /\
  parseNumericValueInput "0x7f" I8 = (true, VI64 127, 1) /\
  parseNumericValueInput "-0x80" I8 = (true, VI64 (-128), 1) /\
  parseNumericValueInput "0xFFq" U8 = parseFailure /\
  parseNumericValueInput "12 " U16 = parseFailure.
Proof.
  split; [exact parseNumericValueInput_success|].
  split; [exact parseNumericValueInput_stops_early|].
  split; [|split; [exact parseNumericValueInput_trailing|]].
  - intros input type v p Hc Hfit.
    destruct (parseNumericValueInput_outcome input type) as [Hf|[v' Hs]]; [exact Hf|].
    apply parseNumericValueInput_success in Hs. destruct Hs as (Hc' & Hfit' & _).
    rewrite Hc in Hc'. injection Hc' as <- _. contradiction.
  - repeat split.
Qed.
End NumericTheorems.

Lemma parseNumericValue_contract_witness :
  conversionOf (FP := integersOnly) U8 "0x1F"%string = Some (VU64 31, 4%nat) /\
  fitsType (FP := integersOnly) U8 (VU64 31) /\
  parseNumericValueInput (FP := integersOnly) "0x1F"%string U8 = (true, VU64 31, 1) /\
  parseNumericValueInput (FP := integersOnly) "300"%string U8 = parseFailure /\
  parseNumericValueInput (FP := integersOnly) "1F"%string U8 = parseFailure.
Proof.
  destruct (parseNumericValue_contract (FP := integersOnly)) as (Hiff & Hgarbage & Hrange & _).
  assert (Hc : conversionOf (FP := integersOnly) U8 "0x1F"%string = Some (VU64 31, 4%nat))
    by reflexivity.
  assert (Hf : fitsType (FP := integersOnly) U8 (VU64 31)) by (simpl; lia).
  split; [exact Hc|]. split; [exact Hf|]. split; [|split].
  - apply Hiff. repeat split; assumption.
  - apply (Hrange "300"%string U8 (VU64 300) 3%nat); [reflexivity|simpl; lia].
  - apply (Hgarbage "1F"%string U8 (VU64 1) 1%nat); [reflexivity|simpl; lia].
Defined.


(** ** The range test and the sign of the input *)

Ltac limits_numerals :=
  change (2 ^ 64)%Z with 18446744073709551616%Z in *;
  change (2 ^ 63)%Z with 9223372036854775808%Z in *;
  change (2 ^ 64) with 18446744073709551616 in *.

(** [std::stoull] in terms of the number the text stands for: a magnitude
    of up to 64 bits is accepted whatever the sign, and a negative number
    is returned modulo [2 ^ 64]. *)
Lemma stoull_denoted input :
  stoull input
  = match denoted input with
    | Some (z, p) =>
        if (Z.abs z <? 2 ^ 64)%Z then Converted (Z.to_N (z mod 2 ^ 64)) p
        else ConversionError
    | None => ConversionError
    end.
Proof.
  unfold stoull, denoted.
  destruct (skipSpace input 0) as [s1 n1]. destruct (signOf s1) as [[neg s2] n2].
  destruct (magnitude s2) as [[m n3]|]; [|reflexivity].
  unfold u64. limits_numerals.
  destruct (N.ltb_spec m 18446744073709551616) as [Hm|Hm].
  - destruct neg.
    + destruct (Z.ltb_spec (Z.abs (- Z.of_N m)) 18446744073709551616); [|lia].
      f_equal. destruct (N.eq_dec m 0) as [->|Hpos]; [reflexivity|].
      rewrite N.mod_small by lia.
      replace ((- Z.of_N m) mod 18446744073709551616)%Z
        with (18446744073709551616 - Z.of_N m)%Z; [lia|].
      apply (Z.mod_unique _ _ (-1)); lia.
    + destruct (Z.ltb_spec (Z.abs (Z.of_N m)) 18446744073709551616); [|lia].
      f_equal. rewrite Z.mod_small by lia. lia.
  - destruct neg.
    + destruct (Z.ltb_spec (Z.abs (- Z.of_N m)) 18446744073709551616); [lia|reflexivity].
    + destruct (Z.ltb_spec (Z.abs (Z.of_N m)) 18446744073709551616); [lia|reflexivity].
Qed.

(** [std::stoll] in the same terms: the number itself must fit 64 bits. *)
Lemma stoll_denoted input :
  stoll input
  = match denoted input with
    | Some (z, p) =>
        if ((- 2 ^ 63 <=? z) && (z <=? 2 ^ 63 - 1))%Z then Converted z p
        else ConversionError
    | None => ConversionError
    end.
Proof.
  unfold stoll, denoted.
  destruct (skipSpace input 0) as [s1 n1]. destruct (signOf s1) as [[neg s2] n2].
  destruct (magnitude s2) as [[m n3]|]; reflexivity.
Qed.

Lemma denoted_minus s m :
  magnitude s = Some (m, String.length s) ->
  denoted (String "-" s) = Some ((- Z.of_N m)%Z, S (String.length s)).
Proof.
  intros Hm. unfold denoted.
  change (skipSpace (String "-" s) 0) with (String "-" s, 0%nat). cbv beta iota.
  change (signOf (String "-" s)) with (true, s, 1%nat). cbv beta iota.
  rewrite Hm. reflexivity.
Qed.

Section RangeTheorems.
Context {FP : FloatingPoint}.

Lemma negative_accepted type s m hi :
  limits type = Some (0%Z, hi) ->
  magnitude s = Some (m, String.length s) ->
  0 < m < 2 ^ 64 -> (2 ^ 64 - Z.of_N m <= hi)%Z ->
  parseNumericValueInput (String "-" s) type
  = (true, VU64 (2 ^ 64 - m), sizeofType type).
Proof.
  intros Hlim Hmag Hm Hhi.
  pose proof (denoted_minus s Hmag) as Hden.
  apply parseNumericValueInput_success.
  assert (Hconv : stoull (String "-" s)
                  = Converted (2 ^ 64 - m) (String.length (String "-" s))).
  { rewrite stoull_denoted, Hden. limits_numerals.
    destruct (Z.ltb_spec (Z.abs (- Z.of_N m)) 18446744073709551616); [|lia].
    cbn [String.length]. f_equal.
    replace ((- Z.of_N m) mod 18446744073709551616)%Z
      with (18446744073709551616 - Z.of_N m)%Z; [lia|].
    apply (Z.mod_unique _ _ (-1)); lia. }
  limits_numerals.
  destruct type; try discriminate Hlim; injection Hlim as <-;
    unfold conversionOf; rewrite Hconv;
    (split; [reflexivity|split; [cbn [fitsType]; lia|reflexivity]]).
Qed.

Lemma out_of_range_refused input type lo hi z p :
  limits type = Some (lo, hi) -> denoted input = Some (z, p) ->
  (z < lo \/ hi < z)%Z -> (0 <= z \/ lo < 0)%Z ->
  parseNumericValueInput input type = parseFailure.
Proof.
  intros Hlim Hden Hout Hside.
  destruct (parseNumericValueInput_outcome input type) as [Hf|[v Hs]]; [exact Hf|].
  exfalso. apply parseNumericValueInput_success in Hs. destruct Hs as (Hc & Hfit & _).
  destruct type; try discriminate Hlim; injection Hlim as <- <-;
    unfold conversionOf in Hc;
    try rewrite stoull_denoted in Hc; try rewrite stoll_denoted in Hc;
    rewrite Hden in Hc; limits_numerals.
  1-4: destruct (Z.ltb_spec (Z.abs z) 18446744073709551616); [|discriminate];
       injection Hc as <- _; cbn [fitsType] in Hfit;
       rewrite Z.mod_small in Hfit by lia; lia.
  all: destruct ((_ <=? z) && (z <=? _))%Z; [|discriminate];
       injection Hc as <- _; cbn [fitsType] in Hfit; lia.
Qed.

Lemma accepted_numbers input type lo hi v w :
  limits type = Some (lo, hi) ->
  parseNumericValueInput input type = (true, v, w) ->
  exists z, denoted input = Some (z, String.length input) /\
            w = sizeofType type /\
            (((lo <= z <= hi)%Z /\
              (lo = 0%Z -> v = VU64 (Z.to_N z)) /\ ((lo < 0)%Z -> v = VI64 z)) \/
             (lo = 0%Z /\ (z < 0)%Z /\ (2 ^ 64 + z <= hi)%Z /\
              v = VU64 (Z.to_N (2 ^ 64 + z)))).
Proof.
  intros Hlim Hs.
  apply parseNumericValueInput_success in Hs. destruct Hs as (Hc & Hfit & ->).
  destruct type; try discriminate Hlim; injection Hlim as <- <-;
    unfold conversionOf in Hc;
    try rewrite stoull_denoted in Hc; try rewrite stoll_denoted in Hc;
    destruct (denoted input) as [[z p]|]; try discriminate Hc; limits_numerals.
  1-4: destruct (Z.ltb_spec (Z.abs z) 18446744073709551616); [|discriminate];
       injection Hc as <- ->; cbn [fitsType] in Hfit;
       exists z; split; [reflexivity|split; [reflexivity|]];
       destruct (Z.neg_nonneg_cases z) as [Hneg|Hpos];
       [ right;
         assert (E : (z mod 18446744073709551616 = 18446744073709551616 + z)%Z)
           by (symmetry; apply (Z.mod_unique _ _ (-1)); lia);
         rewrite E in *; repeat split; lia
       | left; rewrite Z.mod_small in * by lia;
         repeat split; try lia; intros; reflexivity ].
  all: destruct ((_ <=? z) && (z <=? _))%Z; [|discriminate];
       injection Hc as <- ->; cbn [fitsType] in Hfit;
       exists z; split; [reflexivity|split; [reflexivity|]];
       left; repeat split; try lia; intros; reflexivity.
Qed.

(** C8: the range test misses negative input for the unsigned types.
    [std::stoull] accepts a minus sign and returns the number modulo
    [2 ^ 64], and the test against the limits of the target type is made
    on that result, where [value < lowest()] can never hold.  So a text
    that stands for [- m], with [0 < m < 2 ^ 64], is accepted for an
    unsigned type whenever [2 ^ 64 - m] does not exceed the maximum of
    the type, with the value [2 ^ 64 - m]: for [U64] every such text is
    accepted (["-1"] as 18446744073709551615), for [U8] the text
    ["-18446744073709551361"] is accepted as 255.  That is the only way
    in which a number out of range is accepted: for the signed types, and
    for a text that stands for a number that is not negative, out of
    range gives the failure result; and whatever is accepted has consumed
    the whole input and has the width of the target type. *)
Theorem parseNumericValue_accepts_negative_unsigned :
  (forall type s m hi,
      limits type = Some (0%Z, hi) ->
      magnitude s = Some (m, String.length s) ->
      0 < m < 2 ^ 64 -> (2 ^ 64 - Z.of_N m <= hi)%Z ->
      denoted (String "-" s) = Some ((- Z.of_N m)%Z, String.length (String "-" s)) /\
      ~ (0 <= - Z.of_N m <= hi)%Z /\
      parseNumericValueInput (String "-" s) type
      = (true, VU64 (2 ^ 64 - m), sizeofType type)) /\
  (forall input type lo hi z p,
      limits type = Some (lo, hi) -> denoted input = Some (z, p) ->
      (z < lo \/ hi < z)%Z -> (0 <= z \/ lo < 0)%Z ->
      parseNumericValueInput input type = parseFailure) /\
  (forall input type lo hi v w,
      limits type = Some (lo, hi) ->
      parseNumericValueInput input type = (true, v, w) ->
      exists z, denoted input = Some (z, String.length input) /\
                w = sizeofType type /\
                (((lo <= z <= hi)%Z /\
                  (lo = 0%Z -> v = VU64 (Z.to_N z)) /\ ((lo < 0)%Z -> v = VI64 z)) \/
                 (lo = 0%Z /\ (z < 0)%Z /\ (2 ^ 64 + z <= hi)%Z /\
                  v = VU64 (Z.to_N (2 ^ 64 + z))))) /\
  parseNumericValueInput "-1" U64 = (true, VU64 18446744073709551615, 8) /\
  parseNumericValueInput "-18446744073709551361" U8 = (true, VU64 255, 1) /\
  parseNumericValueInput "-1" U8 = parseFailure /\
  parseNumericValueInput "-1" I8 = (true, VI64 (-1), 1) /\
  parseNumericValueInput "-129" I8 = parseFailure /\
  parseNumericValueInput "256" U8 = parseFailure /\
  parseNumericValueInput "0xFF" U8 = (true, VU64 255, 1).
Proof.
  split; [|split; [exact out_of_range_refused|split; [exact accepted_numbers|]]].
  - intros type s m hi Hlim Hmag Hm Hhi.
    split; [exact (denoted_minus s Hmag)|]. split; [lia|].
    exact (negative_accepted type s Hlim Hmag Hm Hhi).
  - repeat split.
Qed.
End RangeTheorems.

Lemma parseNumericValue_accepts_negative_unsigned_witness :
  magnitude "1" = Some (1, 1%nat) /\
  denoted "-1" = Some ((-1)%Z, 2%nat) /\
  parseNumericValueInput (FP := integersOnly) "-1" U64
  = (true, VU64 18446744073709551615, 8) /\
  parseNumericValueInput (FP := integersOnly) "-1" I64 = (true, VI64 (-1), 8) /\
  parseNumericValueInput (FP := integersOnly) "300" U8 = parseFailure /\
  parseNumericValueInput (FP := integersOnly) "-0x100" I8 = parseFailure.
Proof.
  destruct (parseNumericValue_accepts_negative_unsigned (FP := integersOnly))
    as (Hneg & Hout & Hacc & _).
  destruct (Hneg U64 "1"%string 1 18446744073709551615%Z eq_refl eq_refl)
    as (Hden & _ & Hparse); [lia|vm_compute; discriminate|].
  split; [reflexivity|]. split; [exact Hden|]. split; [exact Hparse|].
  split; [reflexivity|]. split.
  - apply (Hout "300"%string U8 0%Z 255%Z 300%Z 3%nat eq_refl eq_refl); lia.
  - apply (Hout "-0x100"%string I8 (-128)%Z 127%Z (-256)%Z 6%nat eq_refl eq_refl); lia.
Defined.


(** ** Tasks that are not interrupted *)

Lemma update_quiet t :
  quiet t -> update t = (Done tt, mkTask (S (updates t)) None).
Proof. unfold quiet, update. intros ->. reflexivity. Qed.

Lemma forBytes_quiet {S : Type} (f : S -> N -> S) bytes :
  forall s t, quiet t ->
    forBytes (fun st byte => update ;;; ret (f st byte)) bytes s t
    = (Done (fold_left f bytes s), mkTask (updates t + List.length bytes) (interruptAt t)).
Proof.
  induction bytes as [|b rest IH]; intros s t Hq; simpl.
  - unfold ret. rewrite Nat.add_0_r. destruct t; reflexivity.
  - unfold bind at 1. unfold bind at 1. rewrite (update_quiet Hq). unfold ret at 1.
    rewrite IH by reflexivity. simpl. rewrite Hq. f_equal. f_equal. lia.
Qed.

(** ** Addresses and the bytes of a reader *)

Lemma addresses_length a c : List.length (addresses a c) = c.
Proof. revert a. induction c; simpl; intros; [reflexivity|now rewrite IHc]. Qed.

Lemma addresses_skipn i : forall a c,
  skipn i (addresses a c) = addresses (a + N.of_nat i) (c - i).
Proof.
  induction i as [|i IH]; intros a c.
  - simpl. rewrite N.add_0_r, Nat.sub_0_r. reflexivity.
  - destruct c as [|c]; [reflexivity|]. simpl skipn. rewrite IH.
    simpl Nat.sub. f_equal. lia.
Qed.

Lemma haystack_length provider r :
  List.length (haystack provider r) = N.to_nat (getSize r).
Proof.
  unfold haystack, readerBytes, readerOver. simpl.
  rewrite length_map, addresses_length. f_equal. lia.
Qed.

Lemma haystack_skipn provider r i :
  skipn i (haystack provider r)
  = map (deref (readerOver provider r))
        (addresses (getStartAddress r + N.of_nat i) (N.to_nat (getSize r) - i)).
Proof.
  unfold haystack, readerBytes. rewrite skipn_map, addresses_skipn.
  simpl. do 3 f_equal. lia.
Qed.


(** ** Properties of [searchSequence] *)

Lemma isPrefix_short P : forall l,
  (List.length l < List.length P)%nat -> isPrefix P l = false.
Proof.
  induction P as [|p ps IH]; intros l Hl; simpl in *; [lia|].
  destruct l as [|x xs]; [reflexivity|]. simpl in Hl.
  rewrite IH by lia. apply andb_false_r.
Qed.

Lemma isPrefix_firstn P : forall l,
  isPrefix P l = true <-> firstn (List.length P) l = P.
Proof.
  induction P as [|p ps IH]; intros l; simpl.
  - tauto.
  - destruct l as [|x xs]; [split; discriminate|].
    rewrite andb_true_iff, N.eqb_eq, IH. split.
    + intros [-> ->]. reflexivity.
    + intros [= -> ->]. auto.
Qed.

Lemma matchesAt_isPrefix reader P : forall a c,
  (List.length P <= c)%nat ->
  matchesAt reader a P = isPrefix P (map (deref reader) (addresses a c)).
Proof.
  induction P as [|p ps IH]; intros a c Hc; simpl in *; [reflexivity|].
  destruct c as [|c]; [lia|]. simpl. f_equal. apply IH. lia.
Qed.

Lemma matchesAt_occursAt provider r P i :
  (i + List.length P <= N.to_nat (getSize r))%nat ->
  matchesAt (readerOver provider r) (getStartAddress r + N.of_nat i) P
  = occursAt P (haystack provider r) i.
Proof.
  intros Hi. unfold occursAt. rewrite haystack_skipn.
  apply matchesAt_isPrefix. lia.
Qed.

Lemma matchesAt_seek reader b a P :
  matchesAt (seek reader b) a P = matchesAt reader a P.
Proof. revert a. induction P; simpl; intros; [reflexivity|now rewrite IHP]. Qed.

Lemma occursAt_late provider r P i :
  (i <= N.to_nat (getSize r))%nat ->
  (N.to_nat (getSize r) < i + List.length P)%nat ->
  occursAt P (haystack provider r) i = false.
Proof.
  intros Hn Hi. unfold occursAt. apply isPrefix_short.
  rewrite length_skipn, haystack_length. lia.
Qed.

Lemma searchFrom_spec reader P : forall c first,
  (searchFrom reader P first c = m_end reader /\
   forall k, (k < c)%nat -> matchesAt reader (first + N.of_nat k) P = false)
  \/
  (exists k, (k < c)%nat /\
     searchFrom reader P first c = first + N.of_nat k /\
     matchesAt reader (first + N.of_nat k) P = true /\
     forall k', (k' < k)%nat -> matchesAt reader (first + N.of_nat k') P = false).
Proof.
  induction c as [|c IH]; intros first; simpl.
  - left. split; [reflexivity|]. intros; lia.
  - destruct (matchesAt reader first P) eqn:Hm.
    + right. exists 0%nat. rewrite N.add_0_r. repeat split; auto; [lia|]. intros; lia.
    + destruct (IH (first + 1)) as [[He Hn]|(k & Hk & Hr & Hmk & Hn)].
      * left. split; [exact He|]. intros [|k] Hk.
        -- now rewrite N.add_0_r.
        -- replace (first + N.of_nat (S k)) with (first + 1 + N.of_nat k) by lia.
           apply Hn. lia.
      * right. exists (S k).
        replace (first + N.of_nat (S k)) with (first + 1 + N.of_nat k) by lia.
        repeat split; auto; [lia|]. intros [|k'] Hk'.
        -- now rewrite N.add_0_r.
        -- replace (first + N.of_nat (S k')) with (first + 1 + N.of_nat k') by lia.
           apply Hn. lia.
Qed.

Lemma filter_none {A} (f : A -> bool) l :
  (forall x, In x l -> f x = false) -> filter f l = [].
Proof.
  induction l as [|x xs IH]; intros Hf; simpl; [reflexivity|].
  rewrite (Hf x) by now left. apply IH. intros y Hy. apply Hf. now right.
Qed.

Lemma seq_split3 b k m :
  (k < m)%nat -> seq b m = seq b k ++ (b + k)%nat :: seq (S (b + k)) (m - S k).
Proof.
  intros Hk. replace m with (k + S (m - S k))%nat at 1 by lia.
  rewrite seq_app. simpl. reflexivity.
Qed.

Section SequenceLoop.
Variables (provider : Provider) (r : Region) (P : list N).
Hypothesis Hfits : fitsAddressSpace r.
Hypothesis HP : P <> [].

Let n := N.to_nat (getSize r).
Let occ := occurrenceAt r (N.of_nat (List.length P)) DecodeType.Binary native.
Let good := occursAt P (haystack provider r).

Lemma no_match_from b c :
  (b <= n)%nat ->
  (forall k, (k < c)%nat ->
     matchesAt (readerOver provider r) (getStartAddress r + N.of_nat b + N.of_nat k) P = false) ->
  (n < b + c + List.length P)%nat ->
  (b + c <= S n)%nat ->
  filter good (seq b (n - b)) = [].
Proof.
  intros Hb Hnone Hc Hc'. apply filter_none. intros i Hi.
  apply in_seq in Hi. unfold good.
  destruct (Nat.le_gt_cases (i + List.length P) n) as [Hle|Hgt].
  - rewrite <- matchesAt_occursAt by exact Hle.
    replace (getStartAddress r + N.of_nat i)
      with (getStartAddress r + N.of_nat b + N.of_nat (i - b)) by lia.
    apply Hnone. lia.
  - apply occursAt_late; fold n; lia.
Qed.

Lemma sequenceLoop_spec : forall fuel b results t,
  quiet t -> (b <= n)%nat -> (n - b < fuel)%nat ->
  fst (sequenceLoop fuel
         (seek (readerOver provider r) (getStartAddress r + N.of_nat b)) P results t)
  = Done (results ++ map occ (filter good (seq b (n - b)))).
Proof.
  assert (Hlen : (0 < List.length P)%nat) by (destruct P; [congruence|simpl; lia]).
  unfold fitsAddressSpace in Hfits.
  induction fuel as [|fuel IH]; intros b results t Hq Hb Hfuel; [lia|].
  simpl sequenceLoop. unfold bind at 1. rewrite (update_quiet Hq).
  set (t' := mkTask (S (updates t)) None).
  set (first := getStartAddress r + N.of_nat b).
  unfold std_search. cbn [m_end m_begin seek readerOver].
  destruct (N.ltb_spec (getStartAddress r + getSize r - first)
                       (N.of_nat (List.length P))) as [Hshort|Hlong].
  - rewrite N.eqb_refl. unfold ret. simpl.
    rewrite (@no_match_from b 0); [now rewrite app_nil_r|exact Hb|intros; lia| |lia].
    subst first n. lia.
  - set (c := N.to_nat (getStartAddress r + getSize r - first
                        - N.of_nat (List.length P) + 1)).
    destruct (searchFrom_spec (seek (readerOver provider r) first) P c first)
      as [[He Hnone]|(k & Hk & Hr & Hm & Hnone)].
    + cbn [m_end m_begin seek readerOver] in He. rewrite He, N.eqb_refl. unfold ret. simpl.
      rewrite (@no_match_from b c); [now rewrite app_nil_r|exact Hb| | |].
      * intros k Hk. rewrite <- (Hnone k Hk). symmetry. apply matchesAt_seek.
      * subst c first n. lia.
      * subst c first n. lia.
    + rewrite Hr.
      assert (Hkn : (b + k + List.length P <= n)%nat) by (subst c first n; lia).
      destruct (N.eqb_spec (first + N.of_nat k) (getStartAddress r + getSize r))
        as [Heq|_]; [subst first n; lia|].
      rewrite u64_small by (subst first n; lia).
      replace (first + N.of_nat k + 1)
        with (getStartAddress r + N.of_nat (S (b + k))) by (subst first; lia).
      change (seek (seek (readerOver provider r) first)
                   (getStartAddress r + N.of_nat (S (b + k))))
        with (seek (readerOver provider r) (getStartAddress r + N.of_nat (S (b + k)))).
      rewrite IH; [|reflexivity|lia|lia].
      f_equal. rewrite <- app_assoc. f_equal.
      rewrite (@seq_split3 b k (n - b)) by lia.
      rewrite filter_app. simpl filter.
      assert (Hgood : good (b + k) = true).
      { unfold good. rewrite <- matchesAt_occursAt by exact Hkn.
        rewrite <- Hm, matchesAt_seek. f_equal. subst first. lia. }
      rewrite Hgood.
      rewrite (@filter_none _ good (seq b k)).
      * simpl. f_equal.
        -- unfold occ, occurrenceAt. do 2 f_equal. subst first. lia.
        -- do 3 f_equal. lia.
      * intros i Hi. apply in_seq in Hi. unfold good.
        rewrite <- matchesAt_occursAt by lia.
        rewrite <- (Hnone (i - b)%nat) by lia.
        rewrite matchesAt_seek. f_equal. subst first. lia.
Qed.
End SequenceLoop.

(** C1: [searchSequence] finds every occurrence of the pattern.  For a
    pattern [P] that is not empty it reports, in ascending order and once
    each, exactly the offsets [i] of the region with
    [H[i : i + len(P)] == P], overlapping ones included, each as an
    occurrence of [len(P)] bytes; so the pattern [aa] in [aaaa] is reported
    at the offsets 0, 1 and 2.  The empty pattern, which the sequence tab
    does not let through, is answered by the guard before the scan: the
    result is empty and nothing is read. *)
Theorem searchSequence_finds_every_occurrence
        {Hl : Helpers} (provider : Provider) (r : Region) (settings : Sequence.t) (t : Task) :
  let P := decodeByteString (Sequence.sequence settings) in
  let H := haystack provider r in
  let occ := occurrenceAt r (N.of_nat (List.length P)) DecodeType.Binary native in
  (P = [] -> searchSequence provider r settings t = (Done [], t)) /\
  (fitsAddressSpace r -> quiet t -> P <> [] ->
   fst (searchSequence provider r settings t)
     = Done (map occ (filter (occursAt P H) (seq 0 (List.length H)))) /\
   (forall i, occursAt P H i = true <-> firstn (List.length P) (skipn i H) = P) /\
   (H = [97; 97; 97; 97] -> P = [97; 97] ->
    fst (searchSequence provider r settings t) = Done [occ 0%nat; occ 1%nat; occ 2%nat])).
Proof.
  intros P H occ. split.
  { intros HP. unfold searchSequence. fold P. now rewrite HP. }
  intros Hfits Hq HP.
  assert (Hmain : fst (searchSequence provider r settings t)
                  = Done (map occ (filter (occursAt P H) (seq 0 (List.length H))))).
  { transitivity (fst (sequenceLoop (S (N.to_nat (getSize r)))
                           (seek (readerOver provider r) (getStartAddress r + N.of_nat 0))
                           P [] t)).
    - unfold searchSequence. fold P. rewrite N.add_0_r. clearbody P.
      destruct P; [congruence|reflexivity].
    - rewrite sequenceLoop_spec; try assumption; try lia.
      simpl app. unfold H. rewrite haystack_length, Nat.sub_0_r. reflexivity. }
  split; [exact Hmain|]. split.
  - intros i. unfold occursAt. apply isPrefix_firstn.
  - intros EH EP. rewrite Hmain, EH, EP. reflexivity.
Qed.

Lemma searchSequence_finds_every_occurrence_witness :
  fst (searchSequence (H := plainHelpers) (bufferProvider 1 16 [97; 97; 97; 97])
         (mkRegion 16 4) (Sequence.mk "aa") never)
  = Done [mkOccurrence (mkRegion 16 2) DecodeType.Binary native;
          mkOccurrence (mkRegion 17 2) DecodeType.Binary native;
          mkOccurrence (mkRegion 18 2) DecodeType.Binary native].
Proof.
  assert (Hfits : fitsAddressSpace (mkRegion 16 4)) by (unfold fitsAddressSpace; simpl; lia).
  assert (Hq : quiet never) by reflexivity.
  assert (HP : @decodeByteString plainHelpers (Sequence.sequence (Sequence.mk "aa")) <> [])
    by (simpl; discriminate).
  exact (proj2 (proj2 (proj2 (@searchSequence_finds_every_occurrence plainHelpers
                                (bufferProvider 1 16 [97; 97; 97; 97]) (mkRegion 16 4)
                                (Sequence.mk "aa") never) Hfits Hq HP))
               eq_refl eq_refl).
Defined.


(** ** Properties of [searchStrings] *)

Lemma skipn_cons_nth {A} (l : list A) : forall s,
  skipn s l = match nth_error l s with
              | Some b => b :: skipn (S s) l
              | None => []
              end.
Proof.
  induction l as [|x xs IH]; intros [|s]; simpl; try reflexivity.
  rewrite IH. destruct (nth_error xs s); reflexivity.
Qed.

Lemma runLength_exact valid H : forall len s,
  (forall j, (s <= j < s + len)%nat -> validAt valid H j = true) ->
  validAt valid H (s + len) = false ->
  runLength valid (skipn s H) = len.
Proof.
  induction len as [|len IH]; intros s Hall Hend.
  - rewrite Nat.add_0_r in Hend. rewrite skipn_cons_nth.
    unfold validAt in Hend. destruct (nth_error H s); [|reflexivity].
    cbn [runLength]. now rewrite Hend.
  - rewrite skipn_cons_nth. specialize (Hall s ltac:(lia)) as Hs.
    unfold validAt in Hs. destruct (nth_error H s) as [b|]; [|discriminate].
    cbn [runLength]. rewrite Hs. f_equal. apply IH.
    + intros j Hj. apply Hall. lia.
    + now replace (S s + len)%nat with (s + S len)%nat by lia.
Qed.

Lemma runLength_valid valid H : forall s j,
  (s <= j < s + runLength valid (skipn s H))%nat -> validAt valid H j = true.
Proof.
  intros s j. remember (runLength valid (skipn s H)) as len eqn:E.
  revert s j E. induction len as [|len IH]; intros s j E Hj; [lia|].
  rewrite skipn_cons_nth in E.
  destruct (nth_error H s) as [b|] eqn:Hb; [|discriminate].
  cbn [runLength] in E. destruct (valid b) eqn:Hv; [|discriminate]. injection E as E.
  destruct (Nat.eq_dec j s) as [->|Hne].
  - unfold validAt. now rewrite Hb.
  - apply (IH (S s)); [exact E|lia].
Qed.

Lemma runLength_stop valid H : forall s,
  validAt valid H (s + runLength valid (skipn s H)) = false.
Proof.
  intros s. remember (runLength valid (skipn s H)) as len eqn:E.
  revert s E. induction len as [|len IH]; intros s E.
  - rewrite Nat.add_0_r. rewrite skipn_cons_nth in E. unfold validAt.
    destruct (nth_error H s) as [b|]; [|reflexivity].
    cbn [runLength] in E. destruct (valid b); [discriminate|reflexivity].
  - rewrite skipn_cons_nth in E.
    destruct (nth_error H s) as [b|] eqn:Hb; [|discriminate].
    cbn [runLength] in E. destruct (valid b) eqn:Hv; [|discriminate]. injection E as E.
    replace (s + S len)%nat with (S s + len)%nat by lia. now apply IH.
Qed.

Lemma validAt_bound valid H j : validAt valid H j = true -> (j < List.length H)%nat.
Proof.
  unfold validAt. destruct (nth_error H j) eqn:E; [|discriminate].
  intros _. apply nth_error_Some. congruence.
Qed.

(** A start of a run together with the length of the run is a maximal run,
    and a maximal run is found at its start with that length. *)
Lemma startsRun_maximalRun valid H s len :
  startsRun valid H s = true /\ runLength valid (skipn s H) = len <->
  maximalRun valid H s len.
Proof.
  split.
  - intros [Hs <-]. set (len := runLength valid (skipn s H)).
    assert (Hv : validAt valid H s = true).
    { destruct s; simpl in Hs; [exact Hs|]. apply andb_true_iff in Hs. tauto. }
    assert (Hpos : (1 <= len)%nat).
    { destruct len eqn:E; [|lia]. pose proof (@runLength_stop valid H s) as Hst.
      fold len in Hst. rewrite E, Nat.add_0_r in Hst. congruence. }
    repeat split.
    + exact Hpos.
    + assert (Hl : validAt valid H (s + len - 1) = true)
        by (apply (@runLength_valid valid H s); fold len; lia).
      apply validAt_bound in Hl. lia.
    + intros j Hj. now apply (@runLength_valid valid H s).
    + destruct s; [now left|right]. simpl in Hs. apply andb_true_iff in Hs.
      destruct Hs as [Hs _]. apply negb_true_iff in Hs.
      now replace (S s - 1)%nat with s by lia.
    + apply runLength_stop.
  - intros (Hpos & Hlen & Hall & Hleft & Hstop). split.
    + assert (Hv : validAt valid H s = true) by (apply Hall; lia).
      destruct s; simpl; [exact Hv|]. rewrite Hv, andb_true_r.
      destruct Hleft as [|Hl]; [lia|].
      replace (S s - 1)%nat with s in Hl by lia. now rewrite Hl.
    + now apply runLength_exact.
Qed.

Lemma classValid_zero settings : classValid settings 0 = false.
Proof.
  unfold classValid. simpl. now repeat rewrite andb_false_r.
Qed.

Lemma classValid_nonzero settings b : classValid settings b = true -> (b =? 0) = false.
Proof.
  intros Hv. destruct (N.eqb_spec b 0) as [->|]; [|reflexivity].
  now rewrite classValid_zero in Hv.
Qed.

Section StringsAscii.
Variables (provider : Provider) (r : Region) (settings : Strings.t).
Hypothesis Hfits : fitsAddressSpace r.
Hypothesis Hascii : Strings.type settings = StringType.ASCII.
Hypothesis Hmin : (1 <= Strings.minLength settings < 2 ^ 31)%Z.

Let H := haystack provider r.
Let n := N.to_nat (getSize r).
Let valid := classValid settings.
Let m := Z.to_N (Strings.minLength settings).
Let nt := Strings.nullTermination settings.
Let occ := fun s => occurrenceAt r (N.of_nat (runLength valid (skipn s H)))
                                 DecodeType.ASCII native s.
Let rep := reportedRun valid m nt H.
Let step := stringsStep settings (getStartAddress r + getSize r)
                        DecodeType.ASCII native.

Lemma size_t_minLength : size_t_of_int (Strings.minLength settings) = m.
Proof.
  unfold size_t_of_int, m. rewrite Z.mod_small; [reflexivity|lia].
Qed.

Lemma rep_not_start s :
  validAt valid H s = false \/ ((0 < s)%nat /\ validAt valid H (s - 1) = true) ->
  rep s = false.
Proof.
  intros Hs. unfold rep, reportedRun.
  assert (Hst : startsRun valid H s = false).
  { destruct Hs as [Hs|[Hpos Hs]].
    - destruct s; simpl; [exact Hs|]. rewrite Hs. apply andb_false_r.
    - destruct s; [lia|]. simpl. replace (S s - 1)%nat with s in Hs by lia.
      now rewrite Hs. }
  now rewrite Hst.
Qed.

Lemma rep_none a k :
  (forall s, (a <= s < a + k)%nat ->
     validAt valid H s = false \/ ((0 < s)%nat /\ validAt valid H (s - 1) = true)) ->
  filter rep (seq a k) = [].
Proof.
  intros Hs. apply filter_none. intros s Hin. apply in_seq in Hin.
  apply rep_not_start. now apply Hs.
Qed.

(** The run that starts at [s0] and has [len] bytes. *)
Lemma rep_run s0 len :
  (1 <= len)%nat ->
  (forall j, (s0 <= j < s0 + len)%nat -> validAt valid H j = true) ->
  (s0 = O \/ validAt valid H (s0 - 1) = false) ->
  validAt valid H (s0 + len) = false ->
  runLength valid (skipn s0 H) = len /\
  rep s0 = (m <=? N.of_nat len) && (negb nt || zeroAt H (s0 + len)).
Proof.
  intros Hpos Hall Hleft Hstop.
  assert (Hmax : maximalRun valid H s0 len).
  { repeat split; auto.
    assert (Hl : validAt valid H (s0 + len - 1) = true) by (apply Hall; lia).
    apply validAt_bound in Hl. lia. }
  apply startsRun_maximalRun in Hmax. destruct Hmax as [Hs Hl].
  split; [exact Hl|]. unfold rep, reportedRun. now rewrite Hl, Hs.
Qed.

Lemma validAt_nth i b : nth_error H i = Some b -> validAt valid H i = valid b.
Proof. unfold validAt. now intros ->. Qed.

Lemma stringsLoop_ascii : forall rest i c R,
  rest = skipn i H ->
  (c <= i <= n)%nat ->
  (i = n -> c = O) ->
  (forall j, (i - c <= j < i)%nat -> validAt valid H j = true) ->
  ((i - c)%nat = O \/ validAt valid H (i - c - 1) = false) ->
  stringResults
    (fold_left step rest
       (mkStringsState (N.of_nat c) (getStartAddress r + N.of_nat (i - c)) R))
  = R ++ map occ (filter rep (seq (i - c) (n - (i - c)))).
Proof.
  assert (Hn : List.length H = n) by apply haystack_length.
  unfold fitsAddressSpace in Hfits.
  induction rest as [|b rest IH]; intros i c R Hrest Hi Hlast Hall Hleft.
  - assert (i = n).
    { apply (f_equal (@List.length N)) in Hrest. rewrite length_skipn in Hrest.
      simpl in Hrest. lia. }
    rewrite (Hlast ltac:(assumption)). subst i. simpl.
    rewrite Nat.sub_0_r, Nat.sub_diag. simpl. now rewrite app_nil_r.
  - rewrite skipn_cons_nth in Hrest.
    destruct (nth_error H i) as [b'|] eqn:Hb; [|discriminate].
    injection Hrest as <- Hrest.
    change (rest = skipn (S i) H) in Hrest.
    assert (Hin : (i < n)%nat) by (rewrite <- Hn; apply nth_error_Some; congruence).
    pose proof (validAt_nth i Hb) as Hvb.
    set (s0 := (i - c)%nat) in *.
    cbn [fold_left]. unfold step at 2. unfold stringsStep.
    cbn [countedCharacters startAddress stringResults].
    unfold validChar. rewrite Hascii. fold valid. rewrite size_t_minLength. fold nt.
    destruct (valid b) eqn:Hv.
    + (* a valid byte *)
      rewrite (u64_small (x := N.of_nat c + 1)) by lia.
      rewrite (u64_small (x := getStartAddress r + N.of_nat s0 + (N.of_nat c + 1)))
        by (subst s0; lia).
      cbn [negb orb].
      destruct (N.eqb_spec (getStartAddress r + N.of_nat s0 + (N.of_nat c + 1))
                           (getStartAddress r + getSize r)) as [Hend|Hmid].
      * (* the last byte of the region *)
        assert (Hsn : S i = n) by (subst s0 n; lia).
        assert (Hnil : rest = []).
        { apply length_zero_iff_nil. rewrite Hrest, length_skipn. lia. }
        rewrite Hnil. cbn [fold_left stringResults].
        destruct (@rep_run s0 (S c)) as [Hlen Hrep].
        { lia. }
        { intros j Hj. destruct (Nat.eq_dec j i) as [->|]; [congruence|].
          apply Hall. subst s0. lia. }
        { exact Hleft. }
        { unfold validAt. replace (s0 + S c)%nat with n by (subst s0; lia).
          rewrite <- Hn. now rewrite (proj2 (nth_error_None H (List.length H))). }
        rewrite (@seq_split3 s0 0 (n - s0)) by (subst s0; lia).
        cbn [seq app filter]. rewrite Nat.add_0_r. rewrite Hrep.
        rewrite rep_none.
        2:{ intros s Hs. right. split; [lia|].
            destruct (Nat.eq_dec (s - 1) i) as [->|]; [congruence|].
            apply Hall. subst s0. lia. }
        replace (zeroAt H (s0 + S c)) with false.
        2:{ unfold zeroAt. replace (s0 + S c)%nat with n by (subst s0; lia).
            rewrite <- Hn. now rewrite (proj2 (nth_error_None H (List.length H))). }
        fold valid in Hv. unfold valid in Hv.
        rewrite (classValid_nonzero _ _ Hv).
        replace (N.of_nat c + 1) with (N.of_nat (S c)) by lia.
        rewrite orb_false_r. cbn [negb]. rewrite andb_true_r.
        destruct (m <=? N.of_nat (S c)); cbn [andb]; [|now rewrite app_nil_r].
        destruct nt; cbn [negb map]; [now rewrite app_nil_r|].
        unfold occ at 1, occurrenceAt. now rewrite Hlen.
      * (* more bytes follow *)
        replace (N.of_nat c + 1) with (N.of_nat (S c)) by lia.
        replace s0 with (S i - S c)%nat by (subst s0; lia).
        apply IH.
        -- exact Hrest.
        -- lia.
        -- intros Heq. exfalso. apply Hmid. subst s0 n. lia.
        -- intros j Hj. destruct (Nat.eq_dec j i) as [->|]; [congruence|].
           apply Hall. subst s0. lia.
        -- replace (S i - S c)%nat with s0 by (subst s0; lia). exact Hleft.
    + (* a byte that is not valid ends the run *)
      cbn [negb orb].
      rewrite (u64_small (x := getStartAddress r + N.of_nat s0 + (N.of_nat c + 1)))
        by (subst s0; lia).
      replace (getStartAddress r + N.of_nat s0 + (N.of_nat c + 1))
        with (getStartAddress r + N.of_nat (S i - 0)) by (subst s0; lia).
      change 0 with (N.of_nat 0) at 1.
      rewrite IH; [|exact Hrest|lia|intros; lia|intros; lia|].
      2:{ right. replace (S i - 0 - 1)%nat with i by lia. congruence. }
      replace (S i - 0)%nat with (S i) by lia.
      replace (n - s0)%nat with (S c + (n - S i))%nat by (subst s0; lia).
      rewrite seq_app, filter_app, map_app.
      replace (s0 + S c)%nat with (S i) by (subst s0; lia).
      rewrite app_assoc. f_equal.
      destruct c as [|c].
      * replace (m <=? N.of_nat 0) with false.
        2:{ symmetry. apply N.leb_gt. subst m. lia. }
        rewrite rep_none; [now rewrite app_nil_r|].
        intros s Hs. left. replace s with i by (subst s0; lia). congruence.
      * destruct (@rep_run s0 (S c)) as [Hlen Hrep].
        { lia. }
        { intros j Hj. apply Hall. subst s0. lia. }
        { exact Hleft. }
        { replace (s0 + S c)%nat with i by (subst s0; lia). congruence. }
        rewrite (@seq_split3 s0 0 (S (S c))) by lia.
        cbn [seq app filter]. rewrite Nat.add_0_r. rewrite Hrep.
        rewrite rep_none.
        2:{ intros s Hs. destruct (Nat.eq_dec s i) as [->|].
            - left. congruence.
            - right. split; [lia|]. apply Hall. subst s0. lia. }
        replace (zeroAt H (s0 + S c)) with (b =? 0).
        2:{ unfold zeroAt. replace (s0 + S c)%nat with i by (subst s0; lia).
            now rewrite Hb. }
        destruct (m <=? N.of_nat (S c)); cbn [andb]; [|now rewrite app_nil_r].
        destruct nt, (b =? 0); cbn [negb andb orb map]; try now rewrite app_nil_r.
        all: unfold occ at 1, occurrenceAt; now rewrite Hlen.
Qed.
End StringsAscii.

Lemma reportedRun_maximalRun valid m nt H s len :
  (reportedRun valid m nt H s = true /\ runLength valid (skipn s H) = len) <->
  (maximalRun valid H s len /\ m <= N.of_nat len /\
   (nt = true -> zeroAt H (s + len) = true)).
Proof.
  unfold reportedRun. split.
  - intros [Hrep Hlen]. rewrite Hlen in Hrep.
    apply andb_true_iff in Hrep. destruct Hrep as [Hrep Hz].
    apply andb_true_iff in Hrep. destruct Hrep as [Hs Hm].
    split; [apply startsRun_maximalRun; auto|].
    split; [now apply N.leb_le|].
    intros ->. exact Hz.
  - intros (Hmax & Hm & Hz). apply startsRun_maximalRun in Hmax.
    destruct Hmax as [Hs Hlen]. split; [|exact Hlen].
    rewrite Hlen, Hs. apply N.leb_le in Hm. rewrite Hm.
    destruct nt; [now rewrite Hz|reflexivity].
Qed.

(** C7 (as amended): in ASCII mode, with [minLength] at least 1 as the
    settings tab keeps it, [searchStrings] reports, in ascending order and
    once each, exactly the maximal runs of bytes valid for the enabled
    character classes that have at least [minLength] bytes and, when
    [nullTermination] is set, are followed by a zero byte inside the region;
    each is reported as one occurrence that spans the run.  Over
    ["ab\x01cd"] with lower case letters enabled this gives the two runs
    ["ab"] and ["cd"] for [minLength = 2] and none for [minLength = 3].
    In the UTF-16 modes the scan goes on after the byte that ended a run:
    over [a b 00 c 00] in UTF-16LE mode it reports [c 00] at offset 3. *)
Theorem searchStrings_ascii_maximal_runs
        (provider : Provider) (r : Region) (settings : Strings.t) (t : Task) :
  let H := haystack provider r in
  let valid := classValid settings in
  let m := Z.to_N (Strings.minLength settings) in
  let nt := Strings.nullTermination settings in
  let occ := fun s len => occurrenceAt r (N.of_nat len) DecodeType.ASCII native s in
  fitsAddressSpace r -> quiet t ->
  Strings.type settings = StringType.ASCII ->
  (1 <= Strings.minLength settings < 2 ^ 31)%Z ->
  fst (searchStrings provider r settings t)
    = Done (map (fun s => occ s (runLength valid (skipn s H)))
                (filter (reportedRun valid m nt H) (seq 0 (List.length H)))) /\
  (forall s len,
      (reportedRun valid m nt H s = true /\ runLength valid (skipn s H) = len) <->
      (maximalRun valid H s len /\ m <= N.of_nat len /\
       (nt = true -> zeroAt H (s + len) = true))) /\
  (H = [97; 98; 1; 99; 100] -> Strings.lowerCaseLetters settings = true -> nt = false ->
   (Strings.minLength settings = 2%Z ->
    fst (searchStrings provider r settings t) = Done [occ 0%nat 2%nat; occ 3%nat 2%nat]) /\
   (Strings.minLength settings = 3%Z ->
    fst (searchStrings provider r settings t) = Done [])) /\
  fst (searchStrings (bufferProvider 1 0 [97; 98; 0; 99; 0]) (mkRegion 0 5)
         (Strings.mk 2 false StringType.UTF16LE true true true true true true true) never)
  = Done [mkOccurrence (mkRegion 3 2) DecodeType.UTF16 little].
Proof.
  intros H valid m nt occ Hfits Hq Hascii Hmin.
  assert (Hmain : fst (searchStrings provider r settings t)
      = Done (map (fun s => occ s (runLength valid (skipn s H)))
                  (filter (reportedRun valid m nt H) (seq 0 (List.length H))))).
  { unfold searchStrings, searchStringsPass. rewrite Hascii.
    cbn [stringsDecoding]. unfold bind at 1.
    rewrite forBytes_quiet by exact Hq. unfold ret. cbn [fst].
    f_equal. cbn [m_begin m_end readerOver].
    pose proof (@stringsLoop_ascii provider r settings Hfits Hascii Hmin
                  (haystack provider r) 0%nat 0%nat [] eq_refl) as Hloop.
    cbn [Nat.sub N.of_nat app] in Hloop. rewrite N.add_0_r in Hloop.
    change (readerBytes (readerOver provider r)) with (haystack provider r).
    rewrite Hloop.
    - unfold H. rewrite haystack_length, Nat.sub_0_r. reflexivity.
    - lia.
    - reflexivity.
    - intros; lia.
    - now left. }
  split; [exact Hmain|]. split; [intros; apply reportedRun_maximalRun|].
  split; [|reflexivity].
  intros EH Hlower Hnt.
  rewrite Hmain. clear Hmain. subst occ. cbv zeta. fold H. rewrite EH.
  subst m nt valid. clear Hmin.
  destruct settings as [ml ntf ty lower upper nums under syms sp lf].
  cbn [Strings.lowerCaseLetters Strings.nullTermination Strings.minLength] in *.
  subst lower ntf.
  split; intros ->; destruct upper, nums, under, syms, sp, lf; reflexivity.
Qed.

Lemma searchStrings_ascii_maximal_runs_witness :
  fst (searchStrings (bufferProvider 1 0 [97; 98; 1; 99; 100]) (mkRegion 0 5)
         (Strings.mk 2 false StringType.ASCII true true true true true true false) never)
  = Done [mkOccurrence (mkRegion 0 2) DecodeType.ASCII native;
          mkOccurrence (mkRegion 3 2) DecodeType.ASCII native].
Proof.
  assert (Hfits : fitsAddressSpace (mkRegion 0 5)) by (unfold fitsAddressSpace; simpl; lia).
  assert (Hq : quiet never) by reflexivity.
  assert (Hmin : (1 <= 2 < 2 ^ 31)%Z) by lia.
  destruct (@searchStrings_ascii_maximal_runs
              (bufferProvider 1 0 [97; 98; 1; 99; 100]) (mkRegion 0 5)
              (Strings.mk 2 false StringType.ASCII true true true true true true false)
              never Hfits Hq eq_refl Hmin) as (_ & _ & Hex & _).
  exact (proj1 (Hex eq_refl eq_refl eq_refl) eq_refl).
Defined.

(** C7, the UTF-16 types.  Over the bytes [a b 00 c 00] in UTF-16LE mode the
    four bytes [b 00 c 00] at offset 1 are a maximal run of at least
    [minLength] bytes, and it is not reported (the scan reports [c 00] at
    offset 3 instead: the byte [b] ended the one-byte run [a] and was not
    looked at again).  Over the bytes [a 00] with [nullTermination] set the
    run is reported though no byte follows it in the region. *)
Lemma searchStrings_utf16_misses_run :
  let all := fun minLength nt =>
    Strings.mk minLength nt StringType.UTF16LE true true true true true true true in
  let H1 := [97; 98; 0; 99; 0] in
  let H2 := [97; 0] in
  ~ (forall s len,
       positionalMaximalRun (all 2%Z false) H1 s len -> (2 <= len)%nat ->
       exists found,
         fst (searchStrings (bufferProvider 1 0 H1) (mkRegion 0 5) (all 2%Z false) never)
           = Done found /\
         In (occurrenceAt (mkRegion 0 5) (N.of_nat len) DecodeType.UTF16 little s) found)
  /\
  ~ (forall found s len,
       fst (searchStrings (bufferProvider 1 0 H2) (mkRegion 0 2) (all 2%Z true) never)
         = Done found ->
       In (occurrenceAt (mkRegion 0 2) (N.of_nat len) DecodeType.UTF16 little s) found ->
       zeroAt H2 (s + len) = true).
Proof.
  intros all H1 H2. split.
  - intros Hclaim.
    destruct (Hclaim 1%nat 4%nat) as (found & Hrun & Hin); [|lia|].
    + split; [lia|]. split; [|split].
      * intros k Hk.
        destruct k as [|[|[|[|k]]]]; [| | | |lia]; eexists; split; reflexivity.
      * intros Hrun. destruct (Hrun 4%nat ltac:(lia)) as (b & Hb & _). discriminate Hb.
      * right. intros Hrun. destruct (Hrun 1%nat ltac:(lia)) as (b & Hb & Hv).
        injection Hb as <-. discriminate Hv.
    + vm_compute in Hrun. injection Hrun as <-.
      destruct Hin as [Hin|[]]. discriminate Hin.
  - intros Hclaim.
    specialize (Hclaim [mkOccurrence (mkRegion 0 2) DecodeType.UTF16 little] 0%nat 2%nat
                       eq_refl (or_introl eq_refl)).
    discriminate Hclaim.
Qed.


(** ** Properties of [searchBinaryPattern] *)

Section PatternLoop.
Variables (reader : ProviderReader) (pattern : list BinaryPattern).
Hypothesis Hrange : m_begin reader <= m_end reader < 2 ^ 64.
Hypothesis Hpattern : pattern <> [].

Let K := N.of_nat (List.length pattern).

Let Inv := patternInv reader pattern.
Let Mu := patternMeasure reader pattern.

Lemma K_positive : 0 < K.
Proof. unfold K. destruct pattern; [congruence|simpl; lia]. Qed.

Lemma u32_le x : u32 x <= x.
Proof. unfold u32. apply N.Div0.mod_le. Qed.

Lemma patternRound st entry byte :
  Inv st -> it st <> m_end reader ->
  let st' := advance (patternBody K entry byte st) in
  Inv st' /\ Mu st' < Mu st.
Proof.
  intros (Hlo & Hhi & Hm) Hne. fold K in Hm. pose proof K_positive as HK.
  pose proof (u32_le (matchedBytes st + 1)) as Hu.
  assert (Hs : 1 <= m_end reader - (it st - matchedBytes st)) by lia.
  unfold Inv, Mu, patternInv, patternMeasure, advance, patternBody. fold K.
  destruct (N.land byte (mask entry) =? value entry).
  - destruct (N.eqb_spec (u32 (matchedBytes st + 1)) K) as [Hfull|Hpart].
    + assert (HKm : K = matchedBytes st + 1) by lia.
      cbn [it matchedBytes patternResults].
      rewrite (u64_sub_small (a := K) (b := 1)) by lia.
      rewrite (u64_sub_small (a := it st) (b := K - 1)) by lia.
      rewrite u64_small by lia.
      split; [lia|]. nia.
    + cbn [it matchedBytes patternResults].
      rewrite u64_small by lia.
      split; [lia|].
      destruct (N.eq_dec (u32 (matchedBytes st + 1)) (matchedBytes st + 1)) as [E|E].
      * rewrite E. nia.
      * assert (u32 (matchedBytes st + 1) < matchedBytes st + 1) by lia. nia.
  - cbn [it matchedBytes patternResults].
    assert (Hit : (if 0 <? matchedBytes st
                   then u64_sub (it st) (matchedBytes st) else it st)
                  = it st - matchedBytes st).
    { destruct (N.ltb_spec 0 (matchedBytes st)).
      - apply u64_sub_small; lia.
      - lia. }
    rewrite Hit. rewrite u64_small by lia.
    split; [lia|]. nia.
Qed.

(** C10, the invariant: at every read of [pattern[matchedBytes]] the
    index is within the pattern. *)
Lemma reachable_inv st : reachable reader pattern st -> Inv st.
Proof.
  induction 1 as [|st entry Hreach IH Hne Hentry].
  - unfold Inv, patternInv. cbn [it matchedBytes].
    pose proof K_positive. fold K. lia.
  - now apply patternRound.
Qed.

Lemma patternLoop_total : forall fuel st t,
  Inv st -> (N.to_nat (Mu st) < fuel)%nat ->
  benign (fst (patternLoop fuel reader pattern st t)) /\
  (quiet t -> exists found, fst (patternLoop fuel reader pattern st t) = Done found).
Proof.
  induction fuel as [|fuel IH]; intros st t Hinv Hfuel; [lia|].
  cbn [patternLoop].
  destruct (N.eqb_spec (it st) (m_end reader)) as [Hend|Hne].
  - unfold ret. simpl. split; [exact I|]. eauto.
  - unfold bind, update.
    assert (Hentry : exists entry,
               nth_error pattern (N.to_nat (matchedBytes st)) = Some entry).
    { destruct (nth_error pattern (N.to_nat (matchedBytes st))) eqn:E; [eauto|].
      apply nth_error_None in E. destruct Hinv as (_ & _ & Hm). unfold K in Hm. lia. }
    destruct Hentry as [entry Hentry]. rewrite Hentry.
    destruct (patternRound entry (deref reader (it st)) Hinv Hne) as [Hinv' Hdec].
    fold K.
    destruct (interruptAt t) as [k|] eqn:Hk.
    + split; [|unfold quiet; intros; congruence].
      destruct (k <=? updates t)%nat; [exact I|].
      apply (IH _ (mkTask (S (updates t)) (Some k)) Hinv'). lia.
    + split; [apply (IH _ (mkTask (S (updates t)) None) Hinv'); lia|].
      intros _. apply (IH _ (mkTask (S (updates t)) None) Hinv'); [lia|reflexivity].
Qed.
End PatternLoop.

(** *** The occurrences that the loop reports *)

Lemma matchesPattern_short pattern : forall l,
  (List.length l < List.length pattern)%nat -> matchesPattern pattern l = false.
Proof.
  induction pattern as [|e es IH]; intros l Hl; simpl in *; [lia|].
  destruct l as [|b bs]; [reflexivity|]. simpl in Hl.
  rewrite IH by lia. apply andb_false_r.
Qed.

Lemma matchesPattern_snoc pattern : forall l m e b,
  nth_error pattern m = Some e -> nth_error l m = Some b ->
  matchesPattern (firstn (S m) pattern) l
  = matchesPattern (firstn m pattern) l && (N.land b (mask e) =? value e).
Proof.
  induction pattern as [|e0 es IH]; intros l m e b He Hb.
  - destruct m; discriminate.
  - destruct l as [|b0 bs]; [destruct m; discriminate|].
    destruct m as [|m].
    + simpl in *. injection He as <-. injection Hb as <-.
      now rewrite andb_true_r.
    + simpl in He, Hb.
      change (firstn (S (S m)) (e0 :: es)) with (e0 :: firstn (S m) es).
      change (firstn (S m) (e0 :: es)) with (e0 :: firstn m es).
      cbn [matchesPattern].
      rewrite (IH bs m e b He Hb). now rewrite andb_assoc.
Qed.

Lemma matchesPattern_prefix pattern : forall l m,
  matchesPattern pattern l = true -> matchesPattern (firstn m pattern) l = true.
Proof.
  induction pattern as [|e es IH]; intros l m Hm.
  - now rewrite firstn_nil.
  - destruct m; [reflexivity|]. destruct l as [|b bs]; [discriminate|].
    simpl in *. apply andb_true_iff in Hm. destruct Hm as [-> Hm].
    now rewrite IH.
Qed.

Section PatternResults.
Variables (provider : Provider) (r : Region) (pattern : list BinaryPattern).
Hypothesis Hfits : fitsAddressSpace r.
Hypothesis Hpattern : pattern <> [].
Hypothesis Hshort : N.of_nat (List.length pattern) < 2 ^ 32.

Let reader := readerOver provider r.
Let H := haystack provider r.
Let n := N.to_nat (getSize r).
Let K := List.length pattern.
Let occ := occurrenceAt r (N.of_nat K) DecodeType.Binary native.
Let good := patternAt pattern H.

(** The state when the candidate start is offset [s] and the first [m]
    entries have matched there. *)
Let scanning (st : PatternState) (s m : nat) : Prop :=
  it st = getStartAddress r + N.of_nat (s + m) /\
  matchedBytes st = N.of_nat m /\
  (s + m <= n)%nat /\ (m < K)%nat /\
  matchesPattern (firstn m pattern) (skipn s H) = true /\
  patternResults st = map occ (filter good (seq 0 s)).

Lemma deref_haystack i :
  (i < n)%nat ->
  nth_error H i = Some (deref reader (getStartAddress r + N.of_nat i)).
Proof.
  intros Hi. unfold H. pose proof (haystack_skipn provider r i) as Hs.
  rewrite skipn_cons_nth in Hs.
  replace (N.to_nat (getSize r) - i)%nat with (S (n - S i)) in Hs by (unfold n in *; lia).
  cbn [addresses map] in Hs.
  destruct (nth_error (haystack provider r) i); [|discriminate].
  now injection Hs as -> _.
Qed.

Lemma scanning_inv st s m : scanning st s m -> patternInv reader pattern st.
Proof.
  intros (Hit & Hm & Hsm & HmK & _). unfold patternInv, reader, readerOver.
  cbn [m_begin m_end]. fold K. rewrite Hit, Hm. unfold n in *. lia.
Qed.

Lemma patternLoop_results : forall fuel st t s m,
  quiet t -> scanning st s m ->
  (N.to_nat (patternMeasure reader pattern st) < fuel)%nat ->
  fst (patternLoop fuel reader pattern st t)
  = Done (map occ (filter good (seq 0 n))).
Proof.
  assert (Hn : List.length H = n) by apply haystack_length.
  assert (Hrange : m_begin reader <= m_end reader < 2 ^ 64).
  { unfold fitsAddressSpace in Hfits. unfold reader, readerOver.
    cbn [m_begin m_end]. lia. }
  induction fuel as [|fuel IH]; intros st t s m Hq Hscan Hfuel; [lia|].
  pose proof (scanning_inv Hscan) as Hinv.
  destruct Hscan as (Hit & Hm & Hsm & HmK & Hprefix & Hres).
  unfold fitsAddressSpace in Hfits.
  cbn [patternLoop].
  destruct (N.eqb_spec (it st) (m_end reader)) as [Hend|Hne].
  - (* the end of the region *)
    unfold ret. cbn [fst]. f_equal. rewrite Hres. f_equal.
    assert (Hsn : (s + m = n)%nat).
    { unfold reader, readerOver in Hend. cbn [m_end] in Hend. unfold n in *. lia. }
    replace n with (s + (n - s))%nat at 1 by lia.
    rewrite seq_app, filter_app. rewrite (@filter_none _ good (seq (0 + s) (n - s))).
    + now rewrite app_nil_r.
    + intros a Ha. apply in_seq in Ha. unfold good, patternAt.
      apply matchesPattern_short. rewrite length_skipn, Hn. fold K. lia.
  - (* one more round *)
    assert (Hlt : (s + m < n)%nat).
    { unfold reader, readerOver in Hne. cbn [m_end] in Hne. unfold n in *. lia. }
    unfold bind. rewrite (update_quiet Hq).
    destruct (nth_error pattern (N.to_nat (matchedBytes st))) as [entry|] eqn:Hentry.
    2:{ apply nth_error_None in Hentry. fold K in Hentry. lia. }
    rewrite Hm, Nat2N.id in Hentry.
    destruct (@patternRound reader pattern Hrange Hpattern st entry
                            (deref reader (it st)) Hinv Hne) as [_ Hdec].
    pose proof (deref_haystack Hlt) as Hbyte. rewrite <- Hit in Hbyte.
    assert (Hb : nth_error (skipn s H) m = Some (deref reader (it st)))
      by (rewrite nth_error_skipn; exact Hbyte).
    pose proof (@matchesPattern_snoc pattern (skipn s H) m entry _ Hentry Hb) as Hsnoc.
    rewrite Hprefix in Hsnoc. cbn [andb] in Hsnoc.
    set (byte := deref reader (it st)) in *.
    assert (Hu32 : u32 (matchedBytes st + 1) = N.of_nat (S m)).
    { rewrite Hm. rewrite u32_small by (fold K in Hshort; lia). lia. }
    destruct (N.land byte (mask entry) =? value entry) eqn:Hmatch.
    + destruct (Nat.eq_dec (S m) K) as [Hfull|Hpart].
      * (* the pattern is complete *)
        assert (Hgood : good s = true).
        { unfold good, patternAt. rewrite <- Hsnoc. rewrite Hfull.
          unfold K. now rewrite firstn_all. }
        apply (IH _ _ (S s) 0%nat); [reflexivity| |lia].
        unfold scanning, advance, patternBody. rewrite Hmatch, Hu32.
        fold K. rewrite Hfull, N.eqb_refl.
        cbn [it matchedBytes patternResults].
        rewrite (u64_sub_small (a := N.of_nat K) (b := 1)) by lia.
        rewrite u64_sub_small by lia. rewrite u64_small by lia.
        repeat split; try lia.
        rewrite Hres. rewrite seq_S, filter_app. cbn [filter Nat.add].
        rewrite Hgood, map_app. cbn [map]. do 2 f_equal.
        unfold occ, occurrenceAt. do 2 f_equal. lia.
      * (* one more entry has matched *)
        apply (IH _ _ s (S m)); [reflexivity| |lia].
        unfold scanning, advance, patternBody. rewrite Hmatch, Hu32.
        fold K.
        destruct (N.eqb_spec (N.of_nat (S m)) (N.of_nat K)) as [E|_]; [lia|].
        cbn [it matchedBytes patternResults].
        rewrite u64_small by lia.
        repeat split; try lia; [now rewrite Hsnoc|exact Hres].
    + (* a mismatch: no occurrence at [s] *)
      assert (Hbad : good s = false).
      { unfold good, patternAt.
        destruct (matchesPattern pattern (skipn s H)) eqn:E; [|reflexivity].
        apply (matchesPattern_prefix pattern (skipn s H) (S m)) in E. congruence. }
      apply (IH _ _ (S s) 0%nat); [reflexivity| |lia].
      unfold scanning, advance, patternBody. rewrite Hmatch.
      cbn [it matchedBytes patternResults].
      assert (Hback : (if 0 <? matchedBytes st
                       then u64_sub (it st) (matchedBytes st) else it st)
                      = getStartAddress r + N.of_nat s).
      { destruct (N.ltb_spec 0 (matchedBytes st)).
        - rewrite u64_sub_small by lia. lia.
        - lia. }
      rewrite Hback. rewrite u64_small by lia.
      repeat split; try lia.
      rewrite Hres. rewrite seq_S, filter_app. cbn [filter Nat.add].
      now rewrite Hbad, app_nil_r.
Qed.

(** For a pattern that is not empty (and shorter than [2^32] entries),
    [searchBinaryPattern] reports exactly the offsets at which the whole
    pattern matches, overlapping ones included. *)
Lemma searchBinaryPattern_results settings t :
  BinaryPatternSettings.pattern settings = pattern -> quiet t ->
  fst (searchBinaryPattern provider r settings t)
  = Done (map occ (filter good (seq 0 n))).
Proof.
  intros Hp Hq. unfold searchBinaryPattern. rewrite Hp.
  apply (@patternLoop_results _ _ _ 0%nat 0%nat Hq).
  - unfold scanning, readerOver. cbn [it matchedBytes patternResults m_begin].
    repeat split; try lia.
    unfold K. destruct pattern; [congruence|simpl; lia].
  - unfold patternMeasure, patternFuel. subst reader. unfold readerOver.
    cbn [m_begin m_end it matchedBytes].
    rewrite !N.sub_0_r, N2Nat.inj_mul, Nat2N.id.
    replace (getStartAddress r + getSize r - getStartAddress r) with (getSize r) by lia.
    lia.
Qed.
End PatternResults.

Lemma searchBinaryPattern_total provider r settings t :
  fitsAddressSpace r ->
  BinaryPatternSettings.pattern settings <> [] ->
  benign (fst (searchBinaryPattern provider r settings t)) /\
  (quiet t -> exists found, fst (searchBinaryPattern provider r settings t) = Done found).
Proof.
  intros Hfits Hne. unfold fitsAddressSpace in Hfits. unfold searchBinaryPattern.
  apply patternLoop_total.
  - cbn [m_begin m_end readerOver]. lia.
  - exact Hne.
  - unfold patternInv. cbn [m_begin m_end readerOver it matchedBytes].
    destruct (BinaryPatternSettings.pattern settings); [congruence|]. simpl. lia.
  - unfold patternMeasure, patternFuel.
    cbn [m_begin m_end readerOver it matchedBytes]. lia.
Qed.

Lemma searchBinaryPattern_empty_pattern provider r settings t :
  BinaryPatternSettings.pattern settings = [] ->
  getSize r <> 0 -> quiet t ->
  searchBinaryPattern provider r settings t
  = (Thrown OutOfBounds, mkTask (S (updates t)) None).
Proof.
  intros Hempty Hsize Hq. unfold searchBinaryPattern, patternFuel. rewrite Hempty.
  rewrite Nat.mul_0_r. cbn [patternLoop m_begin m_end readerOver it matchedBytes].
  destruct (N.eqb_spec (getStartAddress r) (getStartAddress r + getSize r)); [lia|].
  unfold bind. rewrite (update_quiet Hq). reflexivity.
Qed.

Section PatternGate.
Context {FP : FloatingPoint} {Hl : Helpers} {R : StdRegex}.

Lemma binaryPatternTab_valid input view :
  let view' := drawTab (BinaryPatternTab input) view in
  SearchSettings.mode (m_searchSettings view') = Mode.BinaryPattern /\
  BinaryPatternSettings.pattern (SearchSettings.binaryPattern (m_searchSettings view'))
    = parseBinaryPatternString input /\
  (m_settingsValid view' = true <-> parseBinaryPatternString input <> []).
Proof.
  cbn. repeat split.
  - destruct (parseBinaryPatternString input); [discriminate|]. discriminate.
  - destruct (parseBinaryPatternString input); [congruence|]. reflexivity.
Qed.

(** C10: [searchBinaryPattern] for a pattern that is not empty reads
    [pattern[matchedBytes]] within bounds at every round, and its loop
    ends: it returns a result, unless the task is cancelled.  With the
    empty pattern the first round, if there is one, reads [pattern[0]] out
    of bounds.  The binary pattern tab marks the settings valid only for
    a pattern that is not empty, so a search started by the button does
    not run into that read. *)
Theorem searchBinaryPattern_index_in_bounds
        (provider : Provider) (r : Region) (settings : BinaryPatternSettings.t) (t : Task) :
  let pattern := BinaryPatternSettings.pattern settings in
  fitsAddressSpace r ->
  (pattern <> [] ->
     (forall st, reachable (readerOver provider r) pattern st ->
                 matchedBytes st < N.of_nat (List.length pattern)) /\
     benign (fst (searchBinaryPattern provider r settings t)) /\
     (quiet t ->
      exists found, fst (searchBinaryPattern provider r settings t) = Done found)) /\
  (pattern = [] -> getSize r <> 0 -> quiet t ->
     searchBinaryPattern provider r settings t
     = (Thrown OutOfBounds, mkTask (S (updates t)) None)) /\
  (forall input view selection body view',
     searchButton true (drawTab (BinaryPatternTab input) view) provider selection
       = (view', Some body) ->
     parseBinaryPatternString input <> [] /\
     (fitsAddressSpace (searchRegionOf (drawTab (BinaryPatternTab input) view)
                                       provider selection) ->
      forall v, benign (fst (fst (body v t))))).
Proof.
  intros pattern Hfits. split; [|split].
  - intros Hne. split.
    + intros st Hreach. apply reachable_inv in Hreach.
      * apply Hreach.
      * unfold fitsAddressSpace in Hfits. cbn [m_begin m_end readerOver]. lia.
      * exact Hne.
    + now apply searchBinaryPattern_total.
  - apply searchBinaryPattern_empty_pattern.
  - intros input view selection body view' Hbutton.
    destruct (binaryPatternTab_valid input view) as (Hmode & Hpat & Hvalid).
    unfold searchButton in Hbutton. cbn [andb] in Hbutton.
    destruct (m_settingsValid (drawTab (BinaryPatternTab input) view)) eqn:Hv;
      [|discriminate].
    injection Hbutton as _ <-.
    assert (Hne : parseBinaryPatternString input <> []) by now apply Hvalid.
    split; [exact Hne|]. intros Hfit v.
    unfold runSearch, searchTask, bindW, liftW, dispatch.
    cbn [SearchSettings.mode SearchSettings.binaryPattern m_searchSettings setSettings].
    match goal with
    | |- context [searchBinaryPattern ?p ?rg ?s t] =>
        destruct (@searchBinaryPattern_total p rg s t Hfit Hne) as [Hb _];
        destruct (searchBinaryPattern p rg s t) as [[found|f|] t']
    end; cbn in *; auto.
Qed.
End PatternGate.

Lemma searchBinaryPattern_index_in_bounds_witness :
  let provider := bufferProvider 1 0 [222; 173; 222; 173; 190; 239] in
  let good := BinaryPatternSettings.mk "DE AD ?? EF" (parseBinaryPatternString "DE AD ?? EF") in
  let empty := BinaryPatternSettings.mk "D" (parseBinaryPatternString "D") in
  (exists found, fst (searchBinaryPattern provider (mkRegion 0 6) good never) = Done found) /\
  searchBinaryPattern provider (mkRegion 0 6) empty never
  = (Thrown OutOfBounds, mkTask 1 None).
Proof.
  intros provider good empty.
  assert (Hfits : fitsAddressSpace (mkRegion 0 6)) by (unfold fitsAddressSpace; simpl; lia).
  split.
  - destruct (@searchBinaryPattern_index_in_bounds integersOnly plainHelpers literalRegex
                provider (mkRegion 0 6) good never Hfits) as (Hgood & _ & _).
    apply Hgood; [discriminate|reflexivity].
  - destruct (@searchBinaryPattern_index_in_bounds integersOnly plainHelpers literalRegex
                provider (mkRegion 0 6) empty never Hfits) as (_ & Hempty & _).
    apply Hempty; [reflexivity|discriminate|reflexivity].
Defined.

Lemma patternBody_step K entry byte st :
  N.land byte (mask entry) = value entry ->
  u32 (matchedBytes st + 1) <> K -> it st < 2 ^ 64 - 1 ->
  let st' := advance (patternBody K entry byte st) in
  matchedBytes st' = u32 (matchedBytes st + 1) /\ it st' = it st + 1 /\
  patternResults st' = patternResults st.
Proof.
  intros Hmatch Hpart Hit. unfold advance, patternBody.
  apply N.eqb_eq in Hmatch. apply N.eqb_neq in Hpart. rewrite Hmatch, Hpart.
  cbn [it matchedBytes patternResults]. rewrite u64_small by lia. auto.
Qed.

Lemma patternBody_rewind K entry byte st :
  N.land byte (mask entry) <> value entry ->
  matchedBytes st <= it st -> it st < 2 ^ 64 - 1 ->
  let st' := advance (patternBody K entry byte st) in
  it st' + matchedBytes st = it st + 1 /\ matchedBytes st' = 0 /\
  patternResults st' = patternResults st.
Proof.
  intros Hmiss Hm Hit. unfold advance, patternBody.
  apply N.eqb_neq in Hmiss. rewrite Hmiss.
  cbn [it matchedBytes patternResults].
  destruct (N.ltb_spec 0 (matchedBytes st)).
  - rewrite u64_sub_small by lia. rewrite u64_small by lia. repeat split. lia.
  - rewrite u64_small by lia. repeat split. lia.
Qed.

Lemma patternBody_full K entry byte st :
  N.land byte (mask entry) = value entry ->
  u32 (matchedBytes st + 1) = K -> 1 <= K -> K - 1 <= it st -> it st < 2 ^ 64 - 1 ->
  let st' := advance (patternBody K entry byte st) in
  let found := mkRegion (it st - (K - 1)) K in
  patternResults st'
    = patternResults st ++ [mkOccurrence found DecodeType.Binary native] /\
  getStartAddress found + getSize found - 1 = it st /\
  it st' = getStartAddress found + 1 /\ matchedBytes st' = 0.
Proof.
  intros Hmatch Hfull HK Hit Hmax. unfold advance, patternBody.
  apply N.eqb_eq in Hmatch. apply N.eqb_eq in Hfull. rewrite Hmatch, Hfull.
  cbn [it matchedBytes patternResults getStartAddress getSize].
  rewrite (u64_sub_small (a := K) (b := 1)) by lia.
  rewrite (u64_sub_small (a := it st) (b := K - 1)) by lia.
  rewrite u64_small by lia. repeat split. lia.
Qed.

(** C3: the loop of [searchBinaryPattern] counts the bytes matched in a
    row.  In every round of a scan, a byte that matches entry
    [matchedBytes] of the pattern without completing it adds one to the
    count and the scan moves on by one byte; a byte that does not match
    takes the scan back by [matchedBytes - 1] positions when there was
    progress (on by one when there was none) and resets the count; the
    byte that completes the pattern appends one occurrence of the length of
    the pattern whose last byte is the current position, and the scan goes
    on one byte past the start of the match, so matches may overlap: a
    pattern (of fewer than [2^32] entries) is reported at every offset of
    the region at which all of it matches.  Over [DE AD DE AD BE EF] the pattern [DE AD ?? EF] is found once, at
    offset 2, over the four bytes [DE AD BE EF]; over [01 01 01] the pattern
    [01 01] is found at the offsets 0 and 1. *)
Theorem searchBinaryPattern_rewinds_and_resumes :
  (forall provider r pattern st entry,
      fitsAddressSpace r -> pattern <> [] ->
      let reader := readerOver provider r in
      let K := N.of_nat (List.length pattern) in
      reachable reader pattern st ->
      it st <> m_end reader ->
      nth_error pattern (N.to_nat (matchedBytes st)) = Some entry ->
      let byte := deref reader (it st) in
      let st' := advance (patternBody K entry byte st) in
      (N.land byte (mask entry) = value entry -> u32 (matchedBytes st + 1) <> K ->
       matchedBytes st' = u32 (matchedBytes st + 1) /\ it st' = it st + 1 /\
       patternResults st' = patternResults st) /\
      (N.land byte (mask entry) <> value entry ->
       it st' + matchedBytes st = it st + 1 /\ matchedBytes st' = 0 /\
       patternResults st' = patternResults st) /\
      (N.land byte (mask entry) = value entry -> u32 (matchedBytes st + 1) = K ->
       let found := mkRegion (it st - (K - 1)) K in
       patternResults st'
         = patternResults st ++ [mkOccurrence found DecodeType.Binary native] /\
       getStartAddress found + getSize found - 1 = it st /\
       it st' = getStartAddress found + 1 /\ matchedBytes st' = 0)) /\
  (let provider := bufferProvider 1 0 [222; 173; 222; 173; 190; 239] in
   let pattern := parseBinaryPatternString "DE AD ?? EF" in
   fst (searchBinaryPattern provider (mkRegion 0 6)
          (BinaryPatternSettings.mk "DE AD ?? EF" pattern) never)
     = Done [mkOccurrence (mkRegion 2 4) DecodeType.Binary native] /\
   read provider 2 4 = [222; 173; 190; 239]) /\
  fst (searchBinaryPattern (bufferProvider 1 0 [1; 1; 1]) (mkRegion 0 3)
         (BinaryPatternSettings.mk "01 01" (parseBinaryPatternString "01 01")) never)
    = Done [mkOccurrence (mkRegion 0 2) DecodeType.Binary native;
            mkOccurrence (mkRegion 1 2) DecodeType.Binary native] /\
  (forall provider r settings t,
      let pattern := BinaryPatternSettings.pattern settings in
      fitsAddressSpace r -> quiet t ->
      pattern <> [] -> N.of_nat (List.length pattern) < 2 ^ 32 ->
      fst (searchBinaryPattern provider r settings t)
      = Done (map (occurrenceAt r (N.of_nat (List.length pattern)) DecodeType.Binary native)
                  (filter (patternAt pattern (haystack provider r))
                          (seq 0 (List.length (haystack provider r)))))).
Proof.
  split; [|split; [split; reflexivity|split; [reflexivity|]]].
  2:{ intros provider r settings t pattern Hfits Hq Hne Hshort.
      rewrite haystack_length.
      now apply (@searchBinaryPattern_results provider r pattern Hfits Hne Hshort). }
  intros provider r pattern st entry Hfits Hne reader K Hreach Hend Hentry byte st'.
  unfold fitsAddressSpace in Hfits.
  assert (Hrange : m_begin reader <= m_end reader < 2 ^ 64)
    by (unfold reader, readerOver; cbn [m_begin m_end]; lia).
  destruct (reachable_inv Hrange Hne Hreach) as (Hlo & Hhi & Hm). fold K in Hm.
  assert (Hit : it st < 2 ^ 64 - 1) by lia.
  split; [|split].
  - intros Hmatch Hpart. now apply patternBody_step.
  - intros Hmiss. apply patternBody_rewind; [exact Hmiss|lia|exact Hit].
  - intros Hmatch Hfull.
    pose proof (u32_le (matchedBytes st + 1)) as Hu.
    apply patternBody_full; try assumption; lia.
Qed.

Lemma searchBinaryPattern_rewinds_and_resumes_witness :
  let provider := bufferProvider 1 0 [222; 173; 222; 173; 190; 239] in
  let pattern := parseBinaryPatternString "DE AD ?? EF" in
  let reader := readerOver provider (mkRegion 0 6) in
  let st := advance (patternBody 4 (mkPattern 255 222) 222 (mkPatternState 0 0 [])) in
  reachable reader pattern st /\
  it st = 1 /\ matchedBytes st = 1 /\
  it (advance (patternBody 4 (mkPattern 255 173) 173 st)) = 2.
Proof.
  intros provider pattern reader st.
  assert (Hfits : fitsAddressSpace (mkRegion 0 6)) by (unfold fitsAddressSpace; simpl; lia).
  assert (Hne : pattern <> []) by discriminate.
  assert (Hfirst : reachable reader pattern (mkPatternState 0 0 [])) by apply reach_first.
  assert (Hst : reachable reader pattern st).
  { apply (reach_round (reader := reader) (pattern := pattern)
                       (st := mkPatternState 0 0 []) (entry := mkPattern 255 222) Hfirst);
      [discriminate|reflexivity]. }
  destruct searchBinaryPattern_rewinds_and_resumes as (Hround & _).
  destruct (Hround provider (mkRegion 0 6) pattern st (mkPattern 255 173) Hfits Hne Hst)
    as (Hstep & _ & _); [discriminate|reflexivity|].
  destruct (Hstep eq_refl) as (Hm & Hit & _); [discriminate|].
  split; [exact Hst|]. split; [reflexivity|]. split; [reflexivity|exact Hit].
Defined.


(** ** The rolling window of [searchValue] *)

Lemma lor_low q b : b < 256 -> N.lor (q * 256) b = q * 256 + b.
Proof.
  intros Hb.
  assert (Hland : N.land (q * 256) b = 0).
  { apply N.bits_inj. intros n. rewrite N.land_spec, N.bits_0.
    destruct (N.lt_ge_cases n 8) as [Hn|Hn].
    - change 256 with (2 ^ 8). rewrite N.mul_pow2_bits_low by exact Hn. reflexivity.
    - replace b with (b mod 2 ^ 8) by (apply N.mod_small; exact Hb).
      rewrite N.mod_pow2_bits_high by exact Hn. apply andb_false_r. }
  rewrite <- N.lxor_lor by exact Hland.
  symmetry. apply N.add_nocarry_lxor. exact Hland.
Qed.

Lemma mod_mod_pow a k m : k <= m -> (a mod 2 ^ m) mod 2 ^ k = a mod 2 ^ k.
Proof.
  intros Hk. replace m with (k + (m - k)) by lia. rewrite N.pow_add_r.
  rewrite N.Div0.mod_mul_r. rewrite N.mul_comm. rewrite N.Div0.mod_add.
  apply N.Div0.mod_mod.
Qed.

Lemma ofBytes_bound l : allBytes l -> ofBytes l < 256 ^ N.of_nat (List.length l).
Proof.
  induction 1 as [|b l Hb Hl IH]; [simpl; lia|].
  cbn [ofBytes List.length]. rewrite Nat2N.inj_succ, N.pow_succ_r'. lia.
Qed.

Lemma ofBytes_app l1 l2 :
  ofBytes (l1 ++ l2) = ofBytes l1 + 256 ^ N.of_nat (List.length l1) * ofBytes l2.
Proof.
  induction l1 as [|b l1 IH]; cbn [ofBytes app List.length].
  - change (N.of_nat 0) with 0. rewrite N.pow_0_r. lia.
  - rewrite IH, Nat2N.inj_succ, N.pow_succ_r'. lia.
Qed.

Lemma bytesOf_ofBytes l : allBytes l -> bytesOf (List.length l) (ofBytes l) = l.
Proof.
  induction 1 as [|b l Hb Hl IH]; [reflexivity|].
  cbn [ofBytes List.length bytesOf].
  replace (b + 256 * ofBytes l) with (b + ofBytes l * 256) by lia.
  rewrite N.Div0.mod_add, N.div_add by lia.
  rewrite (N.mod_small b) by exact Hb. rewrite (N.div_small b) by exact Hb.
  rewrite N.add_0_l.
  now rewrite IH.
Qed.

Lemma allBytes_rev l : allBytes l -> allBytes (rev l).
Proof. intros Hl. apply Forall_rev. exact Hl. Qed.

(** The two changes of byte order of the comparison, on a window kept
    most significant byte first. *)
Lemma changeEndianess_window en l :
  allBytes l ->
  let w := N.of_nat (List.length l) in
  changeEndianess (changeEndianess (ofBytes (rev l)) w big) w en = windowValue en l.
Proof.
  intros Hl w. unfold changeEndianess at 2. cbn [endian_eqb native].
  unfold w. rewrite Nat2N.id.
  rewrite <- (length_rev l) at 1. rewrite bytesOf_ofBytes by now apply allBytes_rev.
  rewrite rev_involutive. unfold changeEndianess.
  destruct en; cbn [endian_eqb native windowValue]; [reflexivity|].
  rewrite Nat2N.id. now rewrite bytesOf_ofBytes.
Qed.

(** One more byte enters the window. *)
Lemma window_fill x b :
  b < 256 -> x * 256 + b < 2 ^ 64 ->
  N.lor (u64 (N.shiftl x 8)) b = b + 256 * x.
Proof.
  intros Hb Hx. rewrite N.shiftl_mul_pow2. change (2 ^ 8) with 256.
  rewrite u64_small by lia. rewrite lor_low by exact Hb. lia.
Qed.

Lemma window_roll x b w :
  b < 256 -> 1 <= w <= 8 ->
  N.land (N.lor (u64 (N.shiftl x 8)) b) (bitmask (w * 8))
  = (b + 256 * x) mod 256 ^ w.
Proof.
  intros Hb Hw. unfold bitmask. rewrite N.land_ones.
  rewrite N.shiftl_mul_pow2. change (2 ^ 8) with 256.
  assert (Hm : u64 (x * 256) = (x mod 2 ^ 56) * 256).
  { unfold u64. change (2 ^ 64) with (2 ^ 56 * 256).
    now rewrite N.Div0.mul_mod_distr_r. }
  rewrite Hm, lor_low by exact Hb. rewrite <- Hm.
  replace (256 ^ w) with (2 ^ (w * 8)).
  2:{ change 256 with (2 ^ 8). rewrite <- N.pow_mul_r. f_equal. lia. }
  rewrite N.Div0.add_mod. unfold u64. rewrite mod_mod_pow by lia.
  rewrite <- N.Div0.add_mod. f_equal. lia.
Qed.

Lemma haystack_allBytes provider r : allBytes (haystack provider r).
Proof.
  unfold allBytes, haystack, readerBytes. apply Forall_map, Forall_forall.
  intros a _. unfold deref, u8. apply N.mod_lt. lia.
Qed.

Lemma firstn_succ_nth {A} (l : list A) : forall i b,
  nth_error l i = Some b -> firstn (S i) l = firstn i l ++ [b].
Proof.
  induction l as [|x xs IH]; intros [|i] b Hb; simpl in *; try discriminate.
  - now injection Hb as ->.
  - f_equal. now apply IH.
Qed.

Lemma allBytes_app l1 l2 : allBytes (l1 ++ l2) <-> allBytes l1 /\ allBytes l2.
Proof. unfold allBytes. apply Forall_app. Qed.

Lemma allBytes_firstn l k : allBytes l -> allBytes (firstn k l).
Proof.
  intros Hl. rewrite <- (firstn_skipn k l) in Hl. now apply allBytes_app in Hl.
Qed.

Lemma allBytes_skipn l k : allBytes l -> allBytes (skipn k l).
Proof.
  intros Hl. rewrite <- (firstn_skipn k l) in Hl. now apply allBytes_app in Hl.
Qed.

(** The window after one more byte, once it is full. *)
Lemma window_shift c tl b :
  allBytes (c :: tl) -> b < 256 ->
  (b + 256 * ofBytes (rev (c :: tl))) mod 256 ^ N.of_nat (List.length (c :: tl))
  = ofBytes (rev (tl ++ [b])).
Proof.
  intros Hl Hb. inversion Hl as [|c' tl' Hc Htl]; subst.
  rewrite rev_app_distr. cbn [rev app ofBytes].
  rewrite ofBytes_app. cbn [ofBytes]. rewrite length_rev.
  cbn [List.length]. rewrite Nat2N.inj_succ, N.pow_succ_r'.
  replace (b + 256 * (ofBytes (rev tl) + 256 ^ N.of_nat (List.length tl) * (c + 256 * 0)))
    with (b + 256 * ofBytes (rev tl) + c * (256 * 256 ^ N.of_nat (List.length tl))) by lia.
  rewrite N.Div0.mod_add. apply N.mod_small.
  pose proof (ofBytes_bound (allBytes_rev Htl)) as Hbound. rewrite length_rev in Hbound.
  lia.
Qed.

Section ValueLoop.
Context {FP : FloatingPoint}.
Variables (provider : Provider) (r : Region) (settings : Value.t).
Variables (min max : NumericValue) (w : N).
Hypothesis Hfits : fitsAddressSpace r.
Hypothesis Hw : 1 <= w <= 8.
Hypothesis Halt : sameAlternative min max.

Let H := haystack provider r.
Let n := N.to_nat (getSize r).
Let wn := N.to_nat w.
Let en := Value.endian settings.
Let occ := occurrenceAt r w (valueDecodeType (Value.type settings)) en.
Let inR := fun a => valueInRange min max (windowValue en (firstn wn (skipn a H))).

Lemma windowInRange_spec l t :
  allBytes l -> List.length l = wn ->
  windowInRange min max (ofBytes (rev l)) w en t
  = (Done (valueInRange min max (windowValue en l)), t).
Proof.
  intros Hl Hlen. unfold windowInRange.
  assert (Hwl : w = N.of_nat (List.length l)) by (subst wn; lia).
  assert (Hsmall : ofBytes (rev l) mod 2 ^ (8 * w) = ofBytes (rev l)).
  { apply N.mod_small. pose proof (ofBytes_bound (allBytes_rev Hl)) as Hb.
    rewrite length_rev, <- Hwl in Hb.
    replace (2 ^ (8 * w)) with (256 ^ w); [exact Hb|].
    change 256 with (2 ^ 8). now rewrite <- N.pow_mul_r. }
  rewrite Hsmall. rewrite Hwl. rewrite (changeEndianess_window en Hl).
  unfold valueInRange. destruct min, max; cbn in Halt; try contradiction; reflexivity.
Qed.

Lemma valueLoop_spec : forall rest i st t,
  quiet t -> rest = skipn i H -> (i <= n)%nat ->
  address st = getStartAddress r + N.of_nat i ->
  validBytes st = N.of_nat (Nat.min i wn) ->
  bytes st = ofBytes (rev (skipn (i - Nat.min i wn) (firstn i H))) ->
  exists st' t',
    forBytes (valueBody settings min max w) rest st t = (Done st', t') /\
    valueResults st'
    = valueResults st
      ++ map occ (filter inR (seq (Nat.max i wn - wn + 1) (n - Nat.max i wn))).
Proof.
  assert (Hn : List.length H = n) by apply haystack_length.
  assert (HH : allBytes H) by apply haystack_allBytes.
  unfold fitsAddressSpace in Hfits.
  induction rest as [|b rest IH]; intros i st t Hq Hrest Hi Haddr Hvalid Hbytes.
  - assert (i = n).
    { apply (f_equal (@List.length N)) in Hrest. rewrite length_skipn in Hrest.
      simpl in Hrest. lia. }
    subst i. exists st, t. split; [reflexivity|].
    replace (n - Nat.max n wn)%nat with 0%nat by lia. simpl. now rewrite app_nil_r.
  - rewrite skipn_cons_nth in Hrest.
    destruct (nth_error H i) as [b'|] eqn:Hb; [|discriminate].
    injection Hrest as <- Hrest. change (rest = skipn (S i) H) in Hrest.
    assert (Hin : (i < n)%nat) by (rewrite <- Hn; apply nth_error_Some; congruence).
    assert (Hb256 : b < 256).
    { unfold allBytes in HH. rewrite Forall_forall in HH. apply HH.
      eapply nth_error_In; eauto. }
    pose proof (firstn_succ_nth H i Hb) as Hfirst.
    assert (Hlen_i : List.length (firstn i H) = i) by (rewrite length_firstn; lia).
    cbn [forBytes]. unfold bind at 1. unfold valueBody at 1.
    destruct (N.eqb_spec (validBytes st) w) as [Hfull|Hpart].
    + (* the window is full *)
      assert (Hiw : (wn <= i)%nat) by (subst wn; lia).
      rewrite Nat.min_r in Hbytes by exact Hiw.
      remember (skipn (i - wn) (firstn i H)) as wl eqn:Ewl.
      assert (Hwl_len : List.length wl = wn)
        by (rewrite Ewl, length_skipn, Hlen_i; lia).
      assert (Hwl_bytes : allBytes wl)
        by (rewrite Ewl; apply allBytes_skipn, allBytes_firstn, HH).
      destruct wl as [|c tl]; [simpl in Hwl_len; subst wn; lia|].
      assert (Hnew : skipn (S i - wn) (firstn (S i) H) = tl ++ [b]).
      { rewrite Hfirst, skipn_app, Hlen_i.
        replace (S i - wn - i)%nat with 0%nat by lia. cbn [skipn]. f_equal.
        replace (S i - wn)%nat with (1 + (i - wn))%nat by lia.
        rewrite <- skipn_skipn, <- Ewl. reflexivity. }
      assert (Hnew_bytes : allBytes (tl ++ [b])).
      { apply allBytes_app. split.
        - now inversion Hwl_bytes.
        - constructor; [exact Hb256|constructor]. }
      assert (Hnew_len : List.length (tl ++ [b]) = wn)
        by (rewrite length_app; simpl in *; lia).
      rewrite window_roll by assumption. rewrite Hbytes.
      replace (256 ^ w) with (256 ^ N.of_nat (List.length (c :: tl)))
        by (f_equal; subst wn; lia).
      rewrite window_shift by assumption.
      unfold bind at 1. rewrite (update_quiet Hq).
      unfold bind at 1. rewrite (windowInRange_spec _ Hnew_bytes Hnew_len).
      unfold ret at 1.
      match goal with
      | |- context [forBytes _ rest ?s1 ?t1] =>
          destruct (IH (S i) s1 t1) as (st' & t' & Hrun & Hres)
      end.
      * reflexivity.
      * exact Hrest.
      * lia.
      * cbn [address]. rewrite Haddr. rewrite u64_small by lia. lia.
      * cbn [validBytes]. rewrite Hfull. subst wn. lia.
      * cbn [bytes]. rewrite Nat.min_r by lia. now rewrite Hnew.
      * exists st', t'. split; [exact Hrun|]. rewrite Hres. cbn [valueResults].
        replace (Nat.max i wn) with i by lia.
        replace (Nat.max (S i) wn) with (S i) by lia.
        replace (n - i)%nat with (S (n - S i)) by lia.
        cbn [seq filter].
        assert (HinR : inR (i - wn + 1)%nat
                       = valueInRange min max (windowValue en (tl ++ [b]))).
        { unfold inR. do 2 f_equal. rewrite <- Hnew.
          rewrite skipn_firstn_comm. f_equal; [lia|f_equal; lia]. }
        rewrite HinR.
        replace (S (i - wn + 1)) with (S i - wn + 1)%nat by lia.
        destruct (valueInRange min max (windowValue en (tl ++ [b]))).
        -- rewrite <- app_assoc. cbn [map app]. do 2 f_equal.
           unfold occ, occurrenceAt. do 2 f_equal.
           rewrite (u64_sub_small (a := w) (b := 1)) by lia.
           rewrite u64_sub_small by (subst wn; lia). subst wn. lia.
        -- reflexivity.
    + (* the window is being filled *)
      assert (Hiw : (i < wn)%nat) by (subst wn; lia).
      rewrite Nat.min_l in Hbytes by lia.
      rewrite Nat.sub_diag in Hbytes. cbn [skipn] in Hbytes.
      assert (Hfill : bytes st * 256 + b < 2 ^ 64).
      { pose proof (ofBytes_bound (allBytes_rev (allBytes_firstn i HH))) as Hbound.
        rewrite length_rev, Hlen_i, <- Hbytes in Hbound.
        assert (256 ^ N.of_nat i * 256 <= 2 ^ 64).
        { change (2 ^ 64) with (256 ^ 7 * 256). apply N.mul_le_mono_r.
          apply N.pow_le_mono_r; [lia|subst wn; lia]. }
        nia. }
      rewrite window_fill by assumption.
      unfold ret at 1.
      match goal with
      | |- context [forBytes _ rest ?s1 ?t1] =>
          destruct (IH (S i) s1 t1) as (st' & t' & Hrun & Hres)
      end.
      * exact Hq.
      * exact Hrest.
      * lia.
      * cbn [address]. rewrite Haddr. rewrite u64_small by lia. lia.
      * cbn [validBytes]. rewrite Hvalid. rewrite u64_small by lia. lia.
      * cbn [bytes]. rewrite Nat.min_l by lia. rewrite Nat.sub_diag. cbn [skipn].
        rewrite Hfirst, rev_app_distr. cbn [rev app ofBytes]. now rewrite Hbytes.
      * exists st', t'. split; [exact Hrun|]. rewrite Hres. cbn [valueResults].
        replace (Nat.max (S i) wn) with (Nat.max i wn) by lia. reflexivity.
Qed.
End ValueLoop.


(** ** Properties of [searchValue] *)

Lemma forBytes_invariant {S : Type} (body : S -> N -> M S) (P : nat -> S -> Prop) (n : nat) :
  (forall i s b t s' t',
      (i < n)%nat -> P i s -> body s b t = (Done s', t') -> P (Datatypes.S i) s') ->
  forall l i s t s' t',
    (i + List.length l = n)%nat -> P i s ->
    forBytes body l s t = (Done s', t') -> P n s'.
Proof.
  intros Hstep. induction l as [|b rest IH]; intros i s t s' t' Hlen HP Hrun.
  - simpl in *. unfold ret in Hrun. injection Hrun as <- _.
    now replace n with i by lia.
  - simpl in Hlen. cbn [forBytes] in Hrun. unfold bind in Hrun.
    destruct (body s b t) as [[s1|f|] t1] eqn:Hb; try discriminate.
    apply (IH (Datatypes.S i) s1 t1 s' t'); [lia| |exact Hrun].
    apply (Hstep i s b t s1 t1); [lia|exact HP|exact Hb].
Qed.

Section ValueTheorems.
Context {FP : FloatingPoint}.

Lemma parse_size input type v w :
  parseNumericValueInput input type = (true, v, w) -> 1 <= w <= 8.
Proof.
  intros Hp. apply parseNumericValueInput_success in Hp.
  destruct Hp as (_ & _ & ->). destruct type; simpl; lia.
Qed.

(** No occurrence is ever reported at the first address of the region. *)
Lemma searchValue_never_at_start provider r settings t found :
  fitsAddressSpace r ->
  fst (searchValue provider r settings t) = Done found ->
  forall occ, In occ found -> getStartAddress r < getStartAddress (region occ).
Proof.
  intros Hfits Hrun. unfold fitsAddressSpace in Hfits. unfold searchValue in Hrun.
  destruct (parseNumericValueInput (Value.inputMin settings) (Value.type settings))
    as [[validMin min] sizeMin] eqn:Hmin.
  destruct (parseNumericValueInput (Value.inputMax settings) (Value.type settings))
    as [[validMax max] sizeMax] eqn:Hmax.
  destruct validMin; cbn [negb orb] in Hrun;
    [|unfold ret in Hrun; injection Hrun as <-; intros occ []].
  destruct validMax; cbn [negb orb] in Hrun;
    [|unfold ret in Hrun; injection Hrun as <-; intros occ []].
  destruct (sizeMin =? sizeMax); cbn [negb] in Hrun;
    [|unfold ret in Hrun; injection Hrun as <-; intros occ []].
  pose proof (parse_size _ _ Hmin) as Hsize.
  unfold bind in Hrun.
  match type of Hrun with
  | context [forBytes ?body ?l ?s0 t] =>
      destruct (forBytes body l s0 t) as [[st|f|] t'] eqn:Hloop;
      try discriminate Hrun
  end.
  unfold ret in Hrun. cbn [fst] in Hrun. injection Hrun as <-.
  set (P := fun (i : nat) (st : ValueState) =>
              address st = getStartAddress r + N.of_nat i /\
              validBytes st = N.min (N.of_nat i) sizeMin /\
              forall occ, In occ (valueResults st) ->
                          getStartAddress r < getStartAddress (region occ)).
  assert (HP : P (N.to_nat (getSize r)) st).
  { refine (@forBytes_invariant _ _ P (N.to_nat (getSize r)) _ _ 0%nat _ _ _ _ _ _ Hloop).
    - clear Hloop st t'. intros i s b t0 s' t0' Hi (Haddr & Hvalid & Hres) Hbody.
      unfold valueBody in Hbody.
      destruct (N.eqb_spec (validBytes s) sizeMin) as [Hfull|Hpart].
      + unfold bind in Hbody.
        destruct (update t0) as [[[]|f|] t1]; try discriminate Hbody.
        destruct (windowInRange _ _ _ _ _ t1) as [[result|f|] t2];
          try discriminate Hbody.
        unfold ret in Hbody. injection Hbody as <- _.
        unfold P. cbn [address validBytes valueResults].
        repeat split.
        * rewrite Haddr. rewrite u64_small by lia. lia.
        * lia.
        * intros occ Hocc. destruct result; [|now apply Hres].
          apply in_app_or in Hocc. destruct Hocc as [Hocc|[<-|[]]]; [now apply Hres|].
          cbn [region getStartAddress].
          rewrite (u64_sub_small (a := sizeMin) (b := 1)) by lia.
          rewrite u64_sub_small by lia. lia.
      + unfold ret in Hbody. injection Hbody as <- _.
        unfold P. cbn [address validBytes valueResults].
        repeat split.
        * rewrite Haddr. rewrite u64_small by lia. lia.
        * rewrite u64_small by lia. lia.
        * exact Hres.
    - unfold readerBytes. rewrite length_map, addresses_length.
      unfold readerOver. cbn [m_begin m_end]. lia.
    - unfold P. cbn [address validBytes valueResults]. repeat split; try lia.
      intros occ []. }
  apply HP.
Qed.

Lemma parse_alternative inputMin inputMax type min max w1 w2 :
  parseNumericValueInput inputMin type = (true, min, w1) ->
  parseNumericValueInput inputMax type = (true, max, w2) ->
  sameAlternative min max /\ w1 = sizeofType type /\ w2 = sizeofType type.
Proof.
  intros H1 H2. apply parseNumericValueInput_success in H1, H2.
  destruct H1 as (_ & Hf1 & ->), H2 as (_ & Hf2 & ->).
  split; [|split; reflexivity].
  destruct type, min, max; cbn in *; auto.
Qed.

(** What [searchValue] reports: the windows at the offsets 1, 2, ... of
    the region that lie inside it and whose value is in range. *)
Lemma searchValue_reports provider r settings t min max w w' :
  fitsAddressSpace r -> quiet t ->
  parseNumericValueInput (Value.inputMin settings) (Value.type settings) = (true, min, w) ->
  parseNumericValueInput (Value.inputMax settings) (Value.type settings) = (true, max, w') ->
  fst (searchValue provider r settings t)
  = Done (map (occurrenceAt r w (valueDecodeType (Value.type settings))
                            (Value.endian settings))
              (filter (fun a => valueInRange min max
                                  (windowValue (Value.endian settings)
                                     (firstn (N.to_nat w)
                                             (skipn a (haystack provider r)))))
                      (seq 1 (List.length (haystack provider r) - N.to_nat w)))).
Proof.
  intros Hfits Hq Hmin Hmax.
  destruct (parse_alternative _ _ _ Hmin Hmax) as (Halt & Hw & Hw').
  pose proof (parse_size _ _ Hmin) as Hsize.
  unfold searchValue. rewrite Hmin, Hmax. rewrite Hw, Hw', N.eqb_refl.
  cbn [negb orb]. unfold bind.
  destruct (@valueLoop_spec FP provider r settings min max (sizeofType (Value.type settings))
              Hfits ltac:(rewrite <- Hw; exact Hsize) Halt
              (readerBytes (readerOver provider r)) 0%nat
              (mkValueState 0 (getStartAddress r) 0 []) t Hq eq_refl)
    as (st' & t' & Hrun & Hres).
  - lia.
  - cbn [address]. lia.
  - reflexivity.
  - reflexivity.
  - rewrite Hrun. unfold ret. cbn [fst]. f_equal. rewrite Hres. cbn [valueResults app].
    rewrite haystack_length.
    assert (Hpos : (1 <= N.to_nat (sizeofType (Value.type settings)))%nat)
      by (rewrite <- Hw; lia).
    replace (Nat.max 0 (N.to_nat (sizeofType (Value.type settings)))
             - N.to_nat (sizeofType (Value.type settings)) + 1)%nat with 1%nat by lia.
    replace (Nat.max 0 (N.to_nat (sizeofType (Value.type settings))))
      with (N.to_nat (sizeofType (Value.type settings))) by lia.
    reflexivity.
Qed.
End ValueTheorems.

Section ValueExamples.
Context {FP : FloatingPoint}.

(** C2: over the bytes [00 0A 14] the search for a [U8] in [5, 20] reports
    the addresses 1 and 2, as the specification says.  But the window at
    the first address of the region is never looked at, whatever it
    holds: the loop tests a window only in a round that starts with
    [validBytes == size], which needs [size + 1] bytes to have been read.
    So the single byte [0A], and the byte [0A] followed by [00], give no
    occurrence at all, and no search ever reports the first address.
    What is reported is, in ascending order, every window of [size] bytes
    at an offset from 1 on that lies inside the region and whose bytes,
    read at the selected byte order, are in range. *)
Theorem searchValue_skips_first_window :
  let u8InRange := Value.mk "5" "20" U8 little in
  let found := fun a => mkOccurrence (mkRegion a 1) DecodeType.Unsigned little in
  fst (searchValue (bufferProvider 1 0 [0; 10; 20]) (mkRegion 0 3) u8InRange never)
    = Done [found 1; found 2] /\
  fst (searchValue (bufferProvider 1 0 [10]) (mkRegion 0 1) u8InRange never) = Done [] /\
  fst (searchValue (bufferProvider 1 0 [10; 0]) (mkRegion 0 2) u8InRange never) = Done [] /\
  (forall provider r settings t found,
      fitsAddressSpace r ->
      fst (searchValue provider r settings t) = Done found ->
      forall occ, In occ found -> getStartAddress r < getStartAddress (region occ)) /\
  (forall provider r settings t min max w w',
      fitsAddressSpace r -> quiet t ->
      parseNumericValueInput (Value.inputMin settings) (Value.type settings)
        = (true, min, w) ->
      parseNumericValueInput (Value.inputMax settings) (Value.type settings)
        = (true, max, w') ->
      fst (searchValue provider r settings t)
      = Done (map (occurrenceAt r w (valueDecodeType (Value.type settings))
                                (Value.endian settings))
                  (filter (fun a => valueInRange min max
                                      (windowValue (Value.endian settings)
                                         (firstn (N.to_nat w)
                                                 (skipn a (haystack provider r)))))
                          (seq 1 (List.length (haystack provider r) - N.to_nat w))))).
Proof.
  repeat split.
  - intros provider r settings t found. apply searchValue_never_at_start.
  - intros provider r settings t min max w w'. apply searchValue_reports.
Qed.

(** The window is copied into a zeroed 64-bit integer, so a signed type
    narrower than 64 bits is compared without its sign: the byte [FF] is
    not found as the [I8] value -1. *)
Lemma searchValue_signed_window :
  fst (searchValue (bufferProvider 1 0 [0; 255; 255]) (mkRegion 0 3)
         (Value.mk "-1" "-1" I8 little) never) = Done [] /\
  parseNumericValueInput "-1" I8 = (true, VI64 (-1), 1).
Proof. split; reflexivity. Qed.
End ValueExamples.

Lemma searchValue_skips_first_window_witness :
  fst (searchValue (FP := integersOnly) (bufferProvider 1 0 [0; 10; 20]) (mkRegion 0 3)
         (Value.mk "5" "20" U8 little) never)
  = Done [mkOccurrence (mkRegion 1 1) DecodeType.Unsigned little;
          mkOccurrence (mkRegion 2 1) DecodeType.Unsigned little] /\
  0 < getStartAddress (region (mkOccurrence (mkRegion 2 1) DecodeType.Unsigned little)).
Proof.
  assert (Hfits : fitsAddressSpace (mkRegion 0 3)) by (unfold fitsAddressSpace; simpl; lia).
  destruct (@searchValue_skips_first_window integersOnly) as (Hex & _ & _ & Hgen & _).
  split; [exact Hex|].
  apply (Hgen (bufferProvider 1 0 [0; 10; 20]) (mkRegion 0 3)
              (Value.mk "5" "20" U8 little) never _ Hfits Hex).
  right. left. reflexivity.
Defined.


(** ** Properties of [searchRegex] *)

Lemma forBytes_benign {S : Type} (f : S -> N -> S) l :
  forall s t, benign (fst (forBytes (fun st byte => update ;;; ret (f st byte)) l s t)).
Proof.
  induction l as [|b rest IH]; intros s t; cbn [forBytes].
  - exact I.
  - unfold bind at 1. unfold bind at 1. unfold update.
    destruct (interruptAt t) as [k|].
    + destruct (k <=? updates t)%nat; [exact I|]. apply IH.
    + apply IH.
Qed.

Lemma searchStringsPass_benign provider r settings t :
  benign (fst (searchStringsPass provider r settings t)).
Proof.
  unfold searchStringsPass. destruct (stringsDecoding _) as [decode en].
  unfold bind at 1.
  match goal with
  | |- context [forBytes ?body ?l ?s t] =>
      assert (Hb : benign (fst (forBytes body l s t))) by apply forBytes_benign;
      destruct (forBytes body l s t) as [[st|f|] t']
  end; cbn in *; auto.
Qed.

Lemma searchStringsPass_quiet provider r settings t :
  quiet t ->
  exists found,
    searchStringsPass provider r settings t
    = (Done found, mkTask (updates t + N.to_nat (getSize r)) None).
Proof.
  intros Hq. unfold searchStringsPass. destruct (stringsDecoding _) as [decode en].
  unfold bind at 1. rewrite forBytes_quiet by exact Hq. unfold ret.
  eexists. f_equal. rewrite Hq. f_equal.
  unfold readerBytes. rewrite length_map, addresses_length.
  unfold readerOver. cbn [m_begin m_end]. f_equal. lia.
Qed.

Lemma searchStrings_benign provider r settings t :
  benign (fst (searchStrings provider r settings t)).
Proof.
  unfold searchStrings.
  destruct (Strings.type settings); try apply searchStringsPass_benign;
    (unfold bind;
     match goal with
     | |- context [searchStringsPass ?p ?rg ?s ?t0] =>
         pose proof (searchStringsPass_benign p rg s t0) as Hb;
         destruct (searchStringsPass p rg s t0) as [[a|f|] t1]
     end; cbv beta iota in *; cbn [fst benign] in *; auto;
     match goal with
     | |- context [searchStringsPass ?p ?rg ?s ?t0] =>
         pose proof (searchStringsPass_benign p rg s t0) as Hb';
         destruct (searchStringsPass p rg s t0) as [[a'|f'|] t2]
     end; cbv beta iota in *; cbn [fst benign] in *; auto).
Qed.

Lemma searchStrings_quiet provider r settings t :
  quiet t ->
  exists found,
    searchStrings provider r settings t
    = (Done found,
       mkTask (updates t + passes (Strings.type settings) * N.to_nat (getSize r)) None).
Proof.
  intros Hq. unfold searchStrings.
  destruct (Strings.type settings) eqn:Hty; cbn [passes];
    try (rewrite Nat.mul_1_l; apply searchStringsPass_quiet; exact Hq);
    (unfold bind;
     match goal with
     | |- context [searchStringsPass ?p ?rg ?s ?t0] =>
         destruct (@searchStringsPass_quiet p rg s t0 Hq) as [a ->]
     end;
     match goal with
     | |- context [searchStringsPass ?p ?rg ?s ?t1] =>
         destruct (@searchStringsPass_quiet p rg s t1 eq_refl) as [b ->]
     end;
     unfold ret; eexists; f_equal; cbn [updates]; f_equal; lia).
Qed.

Section RegexTheorems.
Context {FP : FloatingPoint} {Hl : Helpers} {R : StdRegex}.

Lemma regexLoop_benign provider fullMatch re : forall occs result t,
  benign (fst (regexLoop provider fullMatch re occs result t)).
Proof.
  induction occs as [|occ rest IH]; intros result t; cbn [regexLoop].
  - exact I.
  - unfold bind, update. destruct (interruptAt t) as [k|].
    + destruct (k <=? updates t)%nat; [exact I|]. apply IH.
    + apply IH.
Qed.

Lemma searchRegex_valid_benign provider r settings t :
  std_regex (Regex.pattern settings) <> None ->
  benign (fst (searchRegex provider r settings t)).
Proof.
  intros Hvalid. unfold searchRegex, bind.
  match goal with
  | |- context [searchStrings ?p ?rg ?s t] =>
      pose proof (searchStrings_benign p rg s t) as Hb;
      destruct (searchStrings p rg s t) as [[occs|f|] t1]
  end; cbn in *; auto.
  destruct (std_regex (Regex.pattern settings)) as [re|]; [|congruence].
  apply regexLoop_benign.
Qed.

Lemma searchRegex_invalid provider r settings t :
  std_regex (Regex.pattern settings) = None -> quiet t ->
  searchRegex provider r settings t
  = (Thrown RegexError,
     mkTask (updates t + passes (Regex.type settings) * N.to_nat (getSize r)) None).
Proof.
  intros Hinvalid Hq. unfold searchRegex, bind.
  match goal with
  | |- context [searchStrings ?p ?rg ?s t] =>
      destruct (@searchStrings_quiet p rg s t Hq) as [occs ->]
  end.
  rewrite Hinvalid. reflexivity.
Qed.

Lemma regexTab_valid settings view :
  let view' := drawTab (RegexTab settings) view in
  SearchSettings.mode (m_searchSettings view') = Mode.Regex /\
  Regex.pattern (SearchSettings.regex (m_searchSettings view')) = Regex.pattern settings /\
  (m_settingsValid view' = true <->
   Regex.pattern settings <> EmptyString /\ std_regex (Regex.pattern settings) <> None).
Proof.
  cbn [drawTab]. cbn [SearchSettings.mode SearchSettings.regex m_searchSettings
                      m_settingsValid setSettings].
  split; [reflexivity|]. split.
  - destruct (Regex.minLength settings <? 1)%Z; reflexivity.
  - assert (Hp : Regex.pattern
                   (if (Regex.minLength settings <? 1)%Z
                    then Regex.mk 1 (Regex.nullTermination settings) (Regex.type settings)
                                  (Regex.pattern settings) (Regex.fullMatch settings)
                    else settings) = Regex.pattern settings)
      by (destruct (Regex.minLength settings <? 1)%Z; reflexivity).
    rewrite Hp. destruct (Regex.pattern settings) as [|c p]; cbn [emptyString].
    + split; [discriminate|]. intros [Hne _]. congruence.
    + destruct (std_regex (String c p)); split; try discriminate; try congruence.
      * intros _. split; discriminate.
      * intros [_ Hc]. congruence.
Qed.

(** C5 (as amended): the pattern is validated by the regex tab, not by
    [searchRegex].  The tab marks the settings valid exactly when the
    pattern is not empty and compiles; the search button starts a task
    only for valid settings, so for no empty pattern and for no pattern
    that does not compile, and such a task ends with a result or with
    its cancellation, never with a regex fault.  [searchRegex] itself compiles
    the pattern after the string scan: called with a pattern that does
    not compile, it has consumed the whole region, once for every pass,
    when it raises the fault. *)
Theorem regex_validated_by_tab
        (settings : Regex.t) (view : ViewFind) (provider : Provider)
        (selection : option Region) (t : Task) :
  let view1 := drawTab (RegexTab settings) view in
  (m_settingsValid view1 = true <->
   Regex.pattern settings <> EmptyString /\ std_regex (Regex.pattern settings) <> None) /\
  (forall view2 body,
      searchButton true view1 provider selection = (view2, Some body) ->
      m_settingsValid view1 = true /\
      Regex.pattern settings <> EmptyString /\
      std_regex (Regex.pattern settings) <> None /\
      forall v, benign (fst (fst (body v t)))) /\
  (Regex.pattern settings = EmptyString \/ std_regex (Regex.pattern settings) = None ->
   searchButton true view1 provider selection = (view1, None)) /\
  (std_regex (Regex.pattern settings) = None -> quiet t ->
   forall r,
     searchRegex provider r settings t
     = (Thrown RegexError,
        mkTask (updates t + passes (Regex.type settings) * N.to_nat (getSize r)) None)).
Proof.
  intros view1.
  destruct (regexTab_valid settings view) as (Hmode & Hpat & Hvalid). fold view1 in Hmode, Hpat, Hvalid.
  split; [exact Hvalid|]. split; [|split].
  - intros view2 body Hbutton. unfold searchButton in Hbutton. cbn [andb] in Hbutton.
    destruct (m_settingsValid view1) eqn:Hv; [|discriminate].
    injection Hbutton as _ <-.
    assert (Hboth : Regex.pattern settings <> EmptyString /\
                    std_regex (Regex.pattern settings) <> None) by now apply Hvalid.
    destruct Hboth as [Hnonempty Hcompiles].
    split; [reflexivity|]. split; [exact Hnonempty|]. split; [exact Hcompiles|]. intros v.
    unfold runSearch, searchTask, bindW, liftW, dispatch. rewrite Hmode.
    match goal with
    | |- context [searchRegex ?p ?rg ?s t] =>
        assert (Hb : benign (fst (searchRegex p rg s t)))
          by (apply searchRegex_valid_benign; rewrite Hpat; exact Hcompiles);
        destruct (searchRegex p rg s t) as [[found|f|] t']
    end; cbn in *; auto.
  - intros Hinvalid. unfold searchButton. cbn [andb].
    destruct (m_settingsValid view1) eqn:Hv; [|reflexivity].
    destruct (proj1 Hvalid eq_refl) as [Hne Hc]. destruct Hinvalid; congruence.
  - intros Hinvalid Hq r. now apply searchRegex_invalid.
Qed.
End RegexTheorems.

Lemma regex_validated_by_tab_witness :
  let invalid := Regex.mk 1 false StringType.ASCII "(" false in
  m_settingsValid
    (drawTab (FP := integersOnly) (H := plainHelpers) (R := literalRegex)
             (RegexTab invalid) blankView) = false /\
  searchRegex (R := literalRegex) (bufferProvider 1 0 [97; 98; 99]) (mkRegion 0 3) invalid never
  = (Thrown RegexError, mkTask 3 None).
Proof.
  intros invalid. split; [reflexivity|].
  destruct (@regex_validated_by_tab integersOnly plainHelpers literalRegex invalid
              blankView (bufferProvider 1 0 [97; 98; 99]) None never)
    as (_ & _ & _ & Hscan).
  exact (Hscan eq_refl eq_refl (mkRegion 0 3)).
Defined.

(** C5, [searchRegex] on its own: with the pattern ["("], which does not
    compile, the three bytes of the region have been scanned when the fault
    is raised, and the fault leaves the function. *)
Lemma searchRegex_scans_before_failing :
  let invalid := Regex.mk 1 false StringType.ASCII "(" false in
  let run := searchRegex (R := literalRegex) (bufferProvider 1 0 [97; 98; 99])
                         (mkRegion 0 3) invalid never in
  @std_regex literalRegex (Regex.pattern invalid) = None /\
  ~ (updates (snd run) = 0%nat /\ benign (fst run)).
Proof.
  intros invalid run. split; [reflexivity|].
  intros [Hscan _]. vm_compute in Hscan. discriminate Hscan.
Qed.


(** ** Properties of the search session *)

Section SessionTheorems.
Context {FP : FloatingPoint} {Hl : Helpers} {R : StdRegex}.


(** ** The filter *)

Lemma decodeValue_members view view' provider occ :
  m_decodeSettings view' = m_decodeSettings view ->
  decodeValue view' provider occ = decodeValue view provider occ.
Proof. intros E. unfold decodeValue. now rewrite E. Qed.

Lemma sameButSorted_refl id v : sameButSorted id v v.
Proof. unfold sameButSorted. auto 10. Qed.

Lemma store_kept (kept : list Occurrence) occ vector :
  store (List.length kept) occ (kept ++ skipn (List.length kept) vector)
  = (kept ++ [occ]) ++ skipn (List.length (kept ++ [occ])) vector.
Proof.
  unfold store.
  rewrite firstn_app, firstn_all, Nat.sub_diag. cbn [firstn]. rewrite app_nil_r.
  rewrite skipn_app, skipn_all2 by lia.
  replace (S (List.length kept) - List.length kept)%nat with 1%nat by lia.
  rewrite skipn_skipn, length_app, <- app_assoc. cbn [app List.length].
  do 3 f_equal. lia.
Qed.

Lemma allowed_next t n :
  interruptAt t = None \/ (exists k, interruptAt t = Some k /\ (updates t < k)%nat) ->
  allowed t (S n) = S (allowed (mkTask (S (updates t)) (interruptAt t)) n).
Proof.
  unfold allowed. cbn [interruptAt updates].
  intros [->|(k & -> & Hk)]; [reflexivity|]. lia.
Qed.

(** The pass of [std::remove_if] from any point on: it tests as many
    elements as the task allows and leaves the vector as the moves made
    up to there have left it. *)
Lemma removeIf_run provider view0 :
  let id := ident provider in
  let keep := keeps view0 provider (m_currFilter view0 id) in
  forall rest pre v t,
    m_sortedOccurrences v id
    = filter keep pre ++ skipn (List.length (filter keep pre)) (pre ++ rest) ->
    sameButSorted id v view0 ->
    let j := allowed t (List.length rest) in
    exists v',
      removeIf provider (List.length (filter keep pre)) rest v t
      = (if (j <? List.length rest)%nat then Thrown TaskInterruptor
         else Done (List.length (filter keep (pre ++ rest))),
         v', mkTask (updates t + j) (interruptAt t)) /\
      m_sortedOccurrences v' id = torn keep (pre ++ rest) (List.length pre + j) /\
      sameButSorted id v' view0.
Proof.
  intros id keep. induction rest as [|occ rest IH]; intros pre v t Hvec Hsame j.
  - exists v.
    assert (Hj : j = 0%nat)
      by (unfold j, allowed; destruct (interruptAt t); reflexivity).
    clearbody j. subst j. cbn [removeIf List.length].
    cbn [Nat.ltb Nat.leb]. rewrite !Nat.add_0_r. unfold retW.
    split; [|split; [|exact Hsame]].
    + destruct t. rewrite app_nil_r. reflexivity.
    + unfold torn. rewrite app_nil_r, firstn_all. rewrite app_nil_r in Hvec. exact Hvec.
  - assert (Eapp : (pre ++ [occ]) ++ rest = pre ++ occ :: rest)
      by (rewrite <- app_assoc; reflexivity).
    assert (Hkeep : containsIgnoreCase (decodeValue v provider occ) (m_currFilter v id)
                    = keep occ).
    { destruct Hsame as (_ & Hdec & _ & _ & _ & Hcur & _).
      unfold keep, keeps. rewrite Hcur.
      now rewrite (decodeValue_members view0 v provider occ Hdec). }
    set (t1 := mkTask (S (updates t)) (interruptAt t)).
    assert (Hsame2 : forall l, sameButSorted id (setSorted id l v) view0).
    { intros l. unfold setSorted, assign, sameButSorted in *.
      cbn [m_searchSettings m_decodeSettings m_settingsValid m_foundOccurrences
           m_sortedOccurrences m_occurrenceTree m_currFilter].
      destruct Hsame as (H1 & H2 & H3 & H4 & H5 & H6 & H7).
      repeat split; try assumption.
      intros key Hkey. destruct (N.eqb_spec key id); [contradiction|]. now apply H7. }
    assert (Hup : (update t = (Thrown TaskInterruptor, t) /\ j = 0%nat) \/
                  (update t = (Done tt, t1) /\ j = S (allowed t1 (List.length rest)))).
    { unfold j, t1. clear. pose proof (allowed_next t (List.length rest)) as Hnext.
      unfold update, allowed in *. cbn [List.length].
      destruct t as [u [k|]]; cbn [interruptAt updates] in *.
      - destruct (Nat.leb_spec k u) as [Hle|Hgt].
        + left. split; [reflexivity|lia].
        + right. split; [reflexivity|]. apply Hnext. right. exists k. split; [reflexivity|lia].
      - right. split; [reflexivity|]. apply Hnext. now left. }
    clearbody j. cbn [removeIf]. unfold bindW at 1. unfold liftW.
    destruct Hup as [[Hup ->]|[Hup ->]]; rewrite Hup.
    + (* the interrupt is pending: the predicate throws *)
      exists v. cbn [List.length Nat.ltb Nat.leb]. rewrite !Nat.add_0_r.
      split; [|split; [|exact Hsame]].
      * destruct t as [u i]. reflexivity.
      * unfold torn. rewrite firstn_app, firstn_all, Nat.sub_diag. cbn [firstn].
        rewrite app_nil_r. exact Hvec.
    + unfold bindW at 1. unfold getView. fold id. rewrite Hkeep.
      assert (Hstep : forall v2,
                 m_sortedOccurrences v2 id
                 = filter keep (pre ++ [occ])
                     ++ skipn (List.length (filter keep (pre ++ [occ]))) (pre ++ occ :: rest) ->
                 sameButSorted id v2 view0 ->
                 exists v',
                   removeIf provider (List.length (filter keep (pre ++ [occ]))) rest v2 t1
                   = (if (S (allowed t1 (List.length rest)) <? List.length (occ :: rest))%nat
                      then Thrown TaskInterruptor
                      else Done (List.length (filter keep (pre ++ occ :: rest))),
                      v',
                      mkTask (updates t + S (allowed t1 (List.length rest)))
                             (interruptAt t)) /\
                   m_sortedOccurrences v' id
                   = torn keep (pre ++ occ :: rest)
                          (List.length pre + S (allowed t1 (List.length rest))) /\
                   sameButSorted id v' view0).
      { intros v2 Hvec2 Hsame2'.
        rewrite <- Eapp in Hvec2.
        destruct (IH (pre ++ [occ]) v2 t1 Hvec2 Hsame2') as (v' & Hrun & Hvec' & Hsame').
        exists v'. rewrite Eapp in Hrun, Hvec'. rewrite Hrun, Hvec'.
        split; [|split; [|exact Hsame']].
        - cbn [List.length updates interruptAt t1].
          change (S (allowed t1 (List.length rest)) <? S (List.length rest))%nat
            with (allowed t1 (List.length rest) <? List.length rest)%nat.
          f_equal. f_equal. lia.
        - f_equal. rewrite length_app. cbn [List.length]. lia. }
      destruct (keep occ) eqn:Hocc; cbn [negb].
      * unfold bindW at 1. unfold modify.
        replace (S (List.length (filter keep pre)))
          with (List.length (filter keep (pre ++ [occ])))
          by (rewrite filter_app, length_app; cbn [filter]; rewrite Hocc;
              cbn [List.length]; lia).
        apply Hstep; [|apply Hsame2].
        unfold setSorted, assign. cbn [m_sortedOccurrences].
        rewrite N.eqb_refl, Hvec, store_kept, filter_app. cbn [filter].
        rewrite Hocc. reflexivity.
      * replace (List.length (filter keep pre))
          with (List.length (filter keep (pre ++ [occ])))
          by (rewrite filter_app; cbn [filter]; rewrite Hocc, app_nil_r; reflexivity).
        apply Hstep; [|exact Hsame].
        rewrite filter_app. cbn [filter]. rewrite Hocc, app_nil_r. exact Hvec.
Qed.

(** The filtering task: run to its end it leaves the entries that pass
    the filter; ended by an interrupt it leaves the vector in the middle
    of the pass.  No other member changes. *)
Lemma filterTask_run provider view t :
  let id := ident provider in
  let keep := keeps view provider (m_currFilter view id) in
  let vector := m_sortedOccurrences view id in
  let j := allowed t (List.length vector) in
  exists view',
    filterTask provider view t
    = (if (j <? List.length vector)%nat then Thrown TaskInterruptor else Done tt,
       view', mkTask (updates t + j) (interruptAt t)) /\
    m_sortedOccurrences view' id
    = (if (j <? List.length vector)%nat then torn keep vector j
       else filter keep vector) /\
    sameButSorted id view' view.
Proof.
  intros id keep vector j.
  destruct (@removeIf_run provider view vector [] view t eq_refl
              (sameButSorted_refl id view)) as (v' & Hrun & Hvec & Hsame).
  fold id in Hrun, Hvec, Hsame. fold keep in Hrun, Hvec. cbn [app List.length filter] in *.
  fold vector j in Hrun, Hvec.
  unfold filterTask, bindW at 1, getView. fold id vector. unfold bindW at 1.
  rewrite Hrun. destruct (Nat.ltb_spec j (List.length vector)) as [Hlt|Hge].
  - exists v'. auto.
  - unfold modify. eexists. split; [reflexivity|]. split.
    + unfold setSorted, assign. cbn [m_sortedOccurrences]. rewrite N.eqb_refl, Hvec.
      assert (Hall : firstn j vector = vector) by (apply firstn_all2; exact Hge).
      unfold torn. cbn [Nat.add]. rewrite Hall.
      rewrite firstn_app, firstn_all, Nat.sub_diag. cbn [firstn].
      apply app_nil_r.
    + unfold setSorted, assign, sameButSorted in *.
      cbn [m_searchSettings m_decodeSettings m_settingsValid m_foundOccurrences
           m_sortedOccurrences m_occurrenceTree m_currFilter].
      destruct Hsame as (H1 & H2 & H3 & H4 & H5 & H6 & H7).
      repeat split; try assumption.
      intros key Hkey. destruct (N.eqb_spec key id); [contradiction|]. now apply H7.
Qed.

Lemma allowed_quiet t n : quiet t -> allowed t n = n.
Proof. unfold quiet, allowed. now intros ->. Qed.

Lemma filterTask_quiet provider view t :
  quiet t ->
  let id := ident provider in
  let view' := snd (fst (filterTask provider view t)) in
  m_sortedOccurrences view' id
  = filter (keeps view provider (m_currFilter view id)) (m_sortedOccurrences view id) /\
  sameButSorted id view' view.
Proof.
  intros Hq id view'.
  destruct (filterTask_run provider view t) as (v' & Hrun & Hvec & Hsame).
  fold id in Hrun, Hvec, Hsame. subst view'. rewrite Hrun. cbn [fst snd].
  rewrite (allowed_quiet _ Hq), Nat.ltb_irrefl in Hvec. auto.
Qed.

Lemma editFilter_spec provider text t view :
  quiet t ->
  let id := ident provider in
  let base := if (String.length text <? String.length (m_currFilter view id))%nat
              then m_foundOccurrences view id
              else m_sortedOccurrences view id in
  let view' := editFilter provider text t view in
  m_sortedOccurrences view' id
    = (if emptyString text then base else filter (keeps view provider text) base) /\
  m_foundOccurrences view' = m_foundOccurrences view /\
  m_currFilter view' id = text /\
  m_decodeSettings view' = m_decodeSettings view.
Proof.
  intros Hq id base view'. subst view' base.
  unfold editFilter, filterEdited. fold id.
  set (view0 := setFilter id text view).
  assert (Hf0 : m_currFilter view0 id = text).
  { unfold view0, setFilter, assign. simpl. now rewrite N.eqb_refl. }
  rewrite Hf0.
  set (view1 := if (String.length text <? String.length (m_currFilter view id))%nat
                then setSorted id (m_foundOccurrences view0 id) view0 else view0).
  assert (Hf1 : m_currFilter view1 id = text).
  { unfold view1. destruct (_ <? _)%nat; [|exact Hf0]. exact Hf0. }
  assert (Hfound : m_foundOccurrences view1 = m_foundOccurrences view).
  { unfold view1. destruct (_ <? _)%nat; reflexivity. }
  assert (Hdec : m_decodeSettings view1 = m_decodeSettings view).
  { unfold view1. destruct (_ <? _)%nat; reflexivity. }
  assert (Hsorted : m_sortedOccurrences view1 id
                    = if (String.length text <? String.length (m_currFilter view id))%nat
                      then m_foundOccurrences view id
                      else m_sortedOccurrences view id).
  { unfold view1. destruct (_ <? _)%nat; [|reflexivity].
    unfold setSorted, assign. simpl. now rewrite N.eqb_refl. }
  rewrite Hf1.
  destruct (emptyString text) eqn:Hempty; cbn [negb runTask].
  - repeat split; assumption.
  - destruct (filterTask_quiet provider view1 Hq)
      as (Hkept & _ & Hdec' & _ & Hfound' & _ & Hcur' & _).
    fold id in Hkept. rewrite Hkept, Hfound', Hcur', Hdec', Hf1, Hsorted.
    repeat split; try assumption.
    apply filter_ext. intros occ. unfold keeps.
    now rewrite (decodeValue_members view view1 provider occ Hdec).
Qed.

Lemma keeps_members view view' provider text :
  m_decodeSettings view' = m_decodeSettings view ->
  forall l, filter (keeps view' provider text) l = filter (keeps view provider text) l.
Proof.
  intros E l. apply filter_ext. intros occ. unfold keeps.
  now rewrite (decodeValue_members view view' provider occ E).
Qed.

(** C9: editing the filter narrows the working copy and restores it
    exactly.  An edit that makes the text longer filters the working
    copy as it stands, so it only removes entries; an edit that makes it
    shorter first copies the list of found occurrences into the working
    copy and filters that.  So after a search, typing a text, then a
    longer one, then the first text again leaves exactly the found
    occurrences whose decoded value contains the first text. *)
Theorem filter_narrows_and_restores (provider : Provider) (view : ViewFind) (t : Task) :
  let id := ident provider in
  quiet t ->
  (forall text,
      (String.length (m_currFilter view id) < String.length text)%nat ->
      let view' := editFilter provider text t view in
      m_sortedOccurrences view' id
        = filter (keeps view provider text) (m_sortedOccurrences view id) /\
      incl (m_sortedOccurrences view' id) (m_sortedOccurrences view id) /\
      m_foundOccurrences view' = m_foundOccurrences view) /\
  (forall text,
      (String.length text < String.length (m_currFilter view id))%nat ->
      let view' := editFilter provider text t view in
      m_sortedOccurrences view' id
        = (if emptyString text then m_foundOccurrences view id
           else filter (keeps view provider text) (m_foundOccurrences view id)) /\
      m_foundOccurrences view' = m_foundOccurrences view) /\
  (forall ab abc,
      (0 < String.length ab < String.length abc)%nat ->
      m_currFilter view id = EmptyString ->
      m_sortedOccurrences view id = m_foundOccurrences view id ->
      let view1 := editFilter provider ab t view in
      let view2 := editFilter provider abc t view1 in
      let view3 := editFilter provider ab t view2 in
      m_sortedOccurrences view1 id
        = filter (keeps view provider ab) (m_foundOccurrences view id) /\
      m_sortedOccurrences view2 id
        = filter (keeps view provider abc)
                 (filter (keeps view provider ab) (m_foundOccurrences view id)) /\
      m_sortedOccurrences view3 id
        = filter (keeps view provider ab) (m_foundOccurrences view id)).
Proof.
  intros id Hq.
  assert (Hnonempty : forall text n, (n < String.length text)%nat -> emptyString text = false)
    by (intros [|c text] n Hn; [simpl in Hn; lia|reflexivity]).
  split; [|split].
  - intros text Hlen view'.
    destruct (editFilter_spec provider text view Hq) as (Hs & Hf & _). fold id in Hs.
    fold view' in Hs, Hf.
    rewrite (Hnonempty text _ Hlen) in Hs.
    replace (String.length text <? String.length (m_currFilter view id))%nat
      with false in Hs by (symmetry; apply Nat.ltb_ge; lia).
    split; [exact Hs|]. split; [|exact Hf].
    rewrite Hs. intros occ Hocc. apply filter_In in Hocc. tauto.
  - intros text Hlen view'.
    destruct (editFilter_spec provider text view Hq) as (Hs & Hf & _). fold id in Hs.
    fold view' in Hs, Hf.
    replace (String.length text <? String.length (m_currFilter view id))%nat
      with true in Hs by (symmetry; apply Nat.ltb_lt; lia).
    split; assumption.
  - intros ab abc Hlen Hblank Hfresh view1 view2 view3.
    destruct (editFilter_spec provider ab view Hq) as (Hs1 & Hf1 & Hc1 & Hd1).
    fold id in Hs1, Hc1. fold view1 in Hs1, Hf1, Hc1, Hd1.
    rewrite Hblank in Hs1. simpl String.length in Hs1.
    rewrite (Hnonempty ab 0%nat) in Hs1 by lia.
    replace (String.length ab <? 0)%nat with false in Hs1
      by (symmetry; apply Nat.ltb_ge; lia).
    rewrite Hfresh in Hs1.
    destruct (editFilter_spec provider abc view1 Hq) as (Hs2 & Hf2 & Hc2 & Hd2).
    fold id in Hs2, Hc2. fold view2 in Hs2, Hf2, Hc2, Hd2.
    rewrite Hc1 in Hs2. rewrite (Hnonempty abc (String.length ab)) in Hs2 by lia.
    replace (String.length abc <? String.length ab)%nat with false in Hs2
      by (symmetry; apply Nat.ltb_ge; lia).
    rewrite (keeps_members view view1 provider abc Hd1) in Hs2. rewrite Hs1 in Hs2.
    destruct (editFilter_spec provider ab view2 Hq) as (Hs3 & Hf3 & Hc3 & Hd3).
    fold id in Hs3, Hc3. fold view3 in Hs3, Hf3, Hc3, Hd3.
    rewrite Hc2 in Hs3. rewrite (Hnonempty ab 0%nat) in Hs3 by lia.
    replace (String.length ab <? String.length abc)%nat with true in Hs3
      by (symmetry; apply Nat.ltb_lt; lia).
    rewrite (keeps_members view view2 provider ab) in Hs3 by congruence.
    rewrite Hf2, Hf1 in Hs3.
    repeat split; assumption.
Qed.
End SessionTheorems.


Lemma filter_narrows_and_restores_witness :
  let provider := bufferProvider 1 0 [97; 98; 99; 32; 65; 66] in
  let abc := mkOccurrence (mkRegion 0 3) DecodeType.ASCII native in
  let AB := mkOccurrence (mkRegion 4 2) DecodeType.ASCII native in
  let c := mkOccurrence (mkRegion 2 1) DecodeType.ASCII native in
  let found := [abc; AB; c] in
  let view := mkView blankSettings blankSettings true
                     (fun _ => found) (fun _ => found) (fun _ => []) (fun _ => EmptyString) in
  let edit := editFilter (FP := integersOnly) (Hl := plainHelpers) (R := literalRegex)
                         provider in
  m_sortedOccurrences (edit "ab"%string never view) 1 = [abc; AB] /\
  m_sortedOccurrences (edit "abc"%string never (edit "ab"%string never view)) 1 = [abc] /\
  m_sortedOccurrences
    (edit "ab"%string never (edit "abc"%string never (edit "ab"%string never view))) 1
  = [abc; AB].
Proof.
  intros provider abc AB c found view edit.
  destruct (@filter_narrows_and_restores integersOnly plainHelpers literalRegex
              provider view never eq_refl) as (_ & _ & Hscenario).
  assert (Hlen : (0 < String.length "ab" < String.length "abc")%nat) by (simpl; lia).
  destruct (Hscenario "ab"%string "abc"%string Hlen eq_refl eq_refl) as (H1 & H2 & H3).
  split; [exact H1|]. split; [exact H2|exact H3].
Defined.


(** * Properties of the event system *)

(** ** [EventId] *)

Lemma lor_disjoint a b k : b < 2 ^ k -> N.lor (a * 2 ^ k) b = a * 2 ^ k + b.
Proof.
  intros Hb.
  assert (Hland : N.land (a * 2 ^ k) b = 0).
  { apply N.bits_inj. intros n. rewrite N.land_spec, N.bits_0.
    destruct (N.lt_ge_cases n k) as [Hn|Hn].
    - rewrite N.mul_pow2_bits_low by exact Hn. reflexivity.
    - replace b with (b mod 2 ^ k) by (apply N.mod_small; exact Hb).
      rewrite N.mod_pow2_bits_high by exact Hn. apply andb_false_r. }
  rewrite <- N.lxor_lor by exact Hland.
  symmetry. apply N.add_nocarry_lxor. exact Hland.
Qed.

Lemma lxor_bound a b n : a < 2 ^ n -> b < 2 ^ n -> N.lxor a b < 2 ^ n.
Proof.
  intros Ha Hb.
  destruct (N.eq_dec (N.lxor a b) 0) as [E|E].
  - rewrite E. apply N.neq_0_lt_0, N.pow_nonzero. discriminate.
  - apply N.log2_lt_pow2; [lia|].
    eapply N.le_lt_trans; [apply N.log2_lxor|].
    assert (Hn : 0 < n).
    { destruct (N.eq_dec n 0) as [->|]; [|lia].
      change (2 ^ 0) with 1 in *. exfalso. apply E.
      replace a with 0 by lia. replace b with 0 by lia. reflexivity. }
    apply N.max_lub_lt.
    + destruct (N.eq_dec a 0) as [->|]; [exact Hn|]. apply N.log2_lt_pow2; lia.
    + destruct (N.eq_dec b 0) as [->|]; [exact Hn|]. apply N.log2_lt_pow2; lia.
Qed.

Lemma lxor_cancel a b c : N.lxor a c = N.lxor b c -> a = b.
Proof.
  intros H.
  assert (E : N.lxor (N.lxor a c) c = N.lxor (N.lxor b c) c) by now rewrite H.
  now rewrite !N.lxor_assoc, !N.lxor_nilpotent, !N.lxor_0_r in E.
Qed.

Lemma rotate_spec h :
  h < 2 ^ 32 -> EventId.rotate h = (h mod 32) * 2 ^ 27 + h / 32.
Proof.
  intros Hh. unfold EventId.rotate, u32.
  rewrite N.shiftr_div_pow2, N.shiftl_mul_pow2.
  change (2 ^ 5) with 32.
  assert (Hq : h / 32 < 2 ^ 27).
  { apply N.Div0.div_lt_upper_bound. exact Hh. }
  assert (Hr : h mod 32 < 32) by (apply N.mod_lt; discriminate).
  assert (E : (h * 2 ^ 27) mod 2 ^ 32 = (h mod 32) * 2 ^ 27).
  { rewrite (N.div_mod h 32) at 1 by discriminate.
    replace ((32 * (h / 32) + h mod 32) * 2 ^ 27)
      with ((h mod 32) * 2 ^ 27 + (h / 32) * 2 ^ 32).
    - rewrite N.Div0.mod_add. apply N.mod_small.
      change (2 ^ 32) with (32 * 2 ^ 27). apply N.mul_lt_mono_pos_r; [reflexivity|exact Hr].
    - change (2 ^ 32) with (32 * 2 ^ 27). lia. }
  rewrite E, N.lor_comm. apply lor_disjoint. exact Hq.
Qed.

Lemma rotate_bound h : h < 2 ^ 32 -> EventId.rotate h < 2 ^ 32.
Proof.
  intros Hh. rewrite rotate_spec by exact Hh.
  assert (Hq : h / 32 < 2 ^ 27) by (apply N.Div0.div_lt_upper_bound; exact Hh).
  assert (Hr : h mod 32 < 32) by (apply N.mod_lt; discriminate).
  change (2 ^ 32) with (32 * 2 ^ 27). nia.
Qed.

Lemma rotate_injective h h' :
  h < 2 ^ 32 -> h' < 2 ^ 32 -> EventId.rotate h = EventId.rotate h' -> h = h'.
Proof.
  intros Hh Hh'. rewrite !rotate_spec by assumption. intros E.
  assert (Hq : h / 32 < 2 ^ 27) by (apply N.Div0.div_lt_upper_bound; exact Hh).
  assert (Hq' : h' / 32 < 2 ^ 27) by (apply N.Div0.div_lt_upper_bound; exact Hh').
  assert (Hu : h mod 32 = h' mod 32 /\ h / 32 = h' / 32).
  { destruct (N.div_mod_unique (2 ^ 27) (h mod 32) (h' mod 32) (h / 32) (h' / 32))
      as [E1 E2]; try assumption; [lia|]. split; assumption. }
  destruct Hu as [Er Eq].
  rewrite (N.div_mod h 32), (N.div_mod h' 32) by discriminate.
  now rewrite Er, Eq.
Qed.

Lemma promote_bound c : EventId.promote c < 2 ^ 32.
Proof.
  unfold EventId.promote, code.
  pose proof (N_ascii_bounded c) as Hc.
  destruct (N_of_ascii c <? 128); change (2 ^ 32) with 4294967296; lia.
Qed.

Lemma mix_bound func : forall h, h < 2 ^ 32 -> EventId.mix h func < 2 ^ 32.
Proof.
  induction func as [|c rest IH]; intros h Hh; simpl; [exact Hh|].
  apply IH, lxor_bound; [now apply rotate_bound|apply promote_bound].
Qed.

Lemma mix_injective func : forall h h',
  h < 2 ^ 32 -> h' < 2 ^ 32 -> EventId.mix h func = EventId.mix h' func -> h = h'.
Proof.
  induction func as [|c rest IH]; intros h h' Hh Hh' E; simpl in E; [exact E|].
  apply IH in E; try (apply lxor_bound; [now apply rotate_bound|apply promote_bound]).
  apply lxor_cancel in E. now apply rotate_injective.
Qed.

Lemma make_bound func line : line < 2 ^ 32 -> EventId.make func line < 2 ^ 32.
Proof.
  intros Hl. apply mix_bound, lxor_bound; [exact Hl|reflexivity].
Qed.

Lemma make_injective func line1 line2 :
  line1 < 2 ^ 32 -> line2 < 2 ^ 32 ->
  EventId.make func line1 = EventId.make func line2 -> line1 = line2.
Proof.
  intros H1 H2 E. unfold EventId.make in E.
  apply mix_injective in E; try (apply lxor_bound; [assumption|reflexivity]).
  now apply lxor_cancel in E.
Qed.

Lemma make_differs func line1 line2 :
  line1 < 2 ^ 32 -> line2 < 2 ^ 32 -> line1 <> line2 ->
  EventId.eqb (EventId.make func line1) (EventId.make func line2) = false.
Proof.
  intros H1 H2 Hne. unfold EventId.eqb. apply N.eqb_neq. intros E.
  apply Hne. now apply (make_injective func).
Qed.

(** X1: an event id fits its [u32], and two events that are defined in
    functions of the same name on different lines get ids that
    [operator==] tells apart; the events of [event.hpp] are all defined
    that way, one per line. *)
Theorem EventId_tells_lines_apart func line1 line2 :
  line1 < 2 ^ 32 -> line2 < 2 ^ 32 -> line1 <> line2 ->
  EventId.make func line1 < 2 ^ 32 /\
  EventId.eqb (EventId.make func line1) (EventId.make func line2) = false.
Proof.
  intros H1 H2 Hne. split; [now apply make_bound|now apply make_differs].
Qed.

(** ** [EventManager] *)

Section ManagerTheorems.
Variables Params World : Type.

Local Notation "'Entry'" := (EventManager.Entry Params World).
Local Notation "'Manager'" := (EventManager.t Params World).
Local Notation "'Callback'" := (EventManager.Callback Params World).

Lemma entry_eqb_refl (e : Entry) : EventManager.entry_eqb e e = true.
Proof.
  unfold EventManager.entry_eqb, EventId.eqb.
  now rewrite N.eqb_refl, Nat.eqb_refl.
Qed.

Lemma entry_eqb_later (e : Entry) id n (f : Callback) :
  (EventManager.location (snd e) < n)%nat ->
  EventManager.entry_eqb e (id, EventManager.mkPointer n f) = false.
Proof.
  intros Hl. unfold EventManager.entry_eqb. cbn [fst snd EventManager.location].
  destruct (Nat.eqb_spec (EventManager.location (snd e)) n) as [E|_]; [lia|].
  apply andb_false_r.
Qed.

Lemma remove_last (events : list Entry) id n (f : Callback) :
  Forall (fun e => (EventManager.location (snd e) < n)%nat) events ->
  EventManager.remove (id, EventManager.mkPointer n f)
                      (events ++ [(id, EventManager.mkPointer n f)]) = events.
Proof.
  intros Hall. unfold EventManager.remove. rewrite filter_app. cbn [filter].
  rewrite entry_eqb_refl. cbn [negb]. rewrite app_nil_r.
  induction Hall as [|e l He Hl IH]; [reflexivity|].
  cbn [filter]. rewrite (entry_eqb_later e id f He). cbn [negb]. now rewrite IH.
Qed.

Lemma present_last (events : list Entry) (e : Entry) :
  EventManager.dangling (events ++ [e]) e = false.
Proof.
  unfold EventManager.dangling. rewrite existsb_app. cbn [existsb].
  rewrite entry_eqb_refl. now rewrite orb_true_r.
Qed.

Lemma present_more (events : list Entry) (e it : Entry) :
  EventManager.dangling events it = false ->
  EventManager.dangling (events ++ [e]) it = false.
Proof.
  unfold EventManager.dangling. rewrite existsb_app.
  intros H. apply negb_false_iff in H. now rewrite H.
Qed.

Lemma erase_unused token (it : Entry) (store : list (N * Entry)) :
  ~ In token (map fst store) -> EventManager.erase (token, it) store = store.
Proof.
  unfold EventManager.erase. cbn [fst].
  induction store as [|item rest IH]; intros Hn; [reflexivity|].
  cbn [filter]. cbn [map In] in Hn.
  destruct (N.eqb_spec (fst item) token) as [E|_]; [tauto|].
  cbn [negb]. rewrite IH; [reflexivity|tauto].
Qed.

Lemma erase_insert token (it : Entry) (store : list (N * Entry)) :
  ~ In token (map fst store) ->
  EventManager.erase (token, it) (EventManager.insert token it store) = store.
Proof.
  induction store as [|item rest IH]; intros Hn.
  - unfold EventManager.erase. cbn. now rewrite N.eqb_refl.
  - cbn [EventManager.insert]. cbn [map In] in Hn.
    destruct (token <? fst item).
    + remember (item :: rest) as store eqn:Es.
      unfold EventManager.erase at 1. cbn [filter fst]. rewrite N.eqb_refl. cbn [negb].
      change (EventManager.erase (token, it) store = store).
      apply erase_unused. subst store. cbn [map In]. tauto.
    + destruct (N.eqb_spec token (fst item)) as [E|Hne]; [symmetry in E; tauto|].
      unfold EventManager.erase. cbn [filter fst].
      destruct (N.eqb_spec (fst item) token) as [E|_]; [tauto|].
      cbn [negb]. f_equal. apply IH. tauto.
Qed.

Lemma find_if_unused events id token (store : list (N * Entry)) :
  ~ In token (map fst store) ->
  EventManager.find_if events id token store = Some None.
Proof.
  induction store as [|item rest IH]; intros Hn; [reflexivity|].
  cbn [EventManager.find_if]. cbn [map In] in Hn.
  destruct (N.eqb_spec (fst item) token) as [E|_]; [tauto|].
  apply IH. tauto.
Qed.

Lemma find_if_insert events token (it : Entry) (store : list (N * Entry)) :
  ~ In token (map fst store) ->
  EventManager.dangling events it = false ->
  EventManager.find_if events (fst it) token (EventManager.insert token it store)
  = Some (Some (token, it)).
Proof.
  intros Hn Hd.
  assert (Hit : EventManager.find_if events (fst it) token ((token, it) :: store)
                = Some (Some (token, it))).
  { cbn [EventManager.find_if fst snd]. rewrite N.eqb_refl, Hd.
    unfold EventId.eqb. now rewrite N.eqb_refl. }
  induction store as [|item rest IH]; [exact Hit|].
  cbn [EventManager.insert]. cbn [map In] in Hn.
  destruct (token <? fst item); [exact Hit|].
  destruct (N.eqb_spec token (fst item)) as [E|Hne]; [symmetry in E; tauto|].
  cbn [EventManager.find_if].
  destruct (N.eqb_spec (fst item) token) as [E|_]; [tauto|].
  apply IH; [tauto|].
  cbn [EventManager.find_if fst snd]. rewrite N.eqb_refl, Hd.
  unfold EventId.eqb. now rewrite N.eqb_refl.
Qed.

Lemma increasing_unused k (keys : list N) :
  Forall (fun k' => k < k') keys -> ~ In k keys.
Proof.
  intros Hall Hin. rewrite Forall_forall in Hall. specialize (Hall _ Hin). lia.
Qed.

Lemma insert_present token (it : Entry) (store : list (N * Entry)) :
  increasing (map fst store) -> In token (map fst store) ->
  EventManager.insert token it store = store.
Proof.
  induction store as [|item rest IH]; intros Hinc Hin; [destruct Hin|].
  cbn [EventManager.insert]. cbn [map increasing In] in *.
  destruct Hinc as [Hall Hinc].
  destruct (N.ltb_spec token (fst item)) as [Hlt|Hge].
  - exfalso. destruct Hin as [E|Hin]; [lia|].
    rewrite Forall_forall in Hall. specialize (Hall _ Hin). lia.
  - destruct (N.eqb_spec token (fst item)) as [E|Hne]; [reflexivity|].
    f_equal. apply IH; [exact Hinc|]. destruct Hin as [E|Hin]; [congruence|exact Hin].
Qed.

Lemma insert_keys token (it : Entry) (store : list (N * Entry)) k :
  In k (map fst (EventManager.insert token it store)) <->
  k = token \/ In k (map fst store).
Proof.
  induction store as [|item rest IH]; cbn [EventManager.insert map In fst].
  - intuition congruence.
  - destruct (token <? fst item); [cbn [map In fst]; intuition congruence|].
    destruct (N.eqb_spec token (fst item)) as [E|Hne].
    + cbn [map In]. intuition congruence.
    + cbn [map In]. rewrite IH. intuition congruence.
Qed.

Lemma insert_increasing token (it : Entry) (store : list (N * Entry)) :
  increasing (map fst store) ->
  increasing (map fst (EventManager.insert token it store)).
Proof.
  induction store as [|item rest IH]; intros Hinc.
  - cbn. auto.
  - cbn [EventManager.insert]. cbn [map increasing] in Hinc. destruct Hinc as [Hall Hinc].
    destruct (N.ltb_spec token (fst item)) as [Hlt|Hge].
    + cbn [map increasing fst]. split; [|split; assumption].
      constructor; [exact Hlt|].
      rewrite Forall_forall in *. intros k Hk. specialize (Hall _ Hk). lia.
    + destruct (N.eqb_spec token (fst item)) as [E|Hne].
      * cbn [map increasing]. split; assumption.
      * cbn [map increasing]. split; [|now apply IH].
        rewrite Forall_forall in *. intros k Hk.
        apply insert_keys in Hk. destruct Hk as [->|Hk]; [lia|now apply Hall].
Qed.

Lemma find_if_other events id token (it0 : Entry) (store : list (N * Entry)) :
  increasing (map fst store) -> In (token, it0) store ->
  EventManager.dangling events it0 = false ->
  EventId.eqb (fst it0) id = false ->
  EventManager.find_if events id token store = Some None.
Proof.
  induction store as [|item rest IH]; intros Hinc Hin Hd Hid; [destruct Hin|].
  cbn [map increasing] in Hinc. destruct Hinc as [Hall Hinc].
  cbn [EventManager.find_if].
  destruct Hin as [->|Hin].
  - cbn [fst snd]. rewrite N.eqb_refl, Hd, Hid.
    apply find_if_unused. now apply increasing_unused.
  - destruct (N.eqb_spec (fst item) token) as [E|_].
    + exfalso. apply (increasing_unused Hall). rewrite E.
      change token with (fst (token, it0)). now apply in_map.
    + now apply IH.
Qed.

Lemma post_app id args (events more : list Entry) allocated store allocated' store' w :
  EventManager.post id args (EventManager.mk allocated (events ++ more) store) w
  = EventManager.post id args (EventManager.mk allocated' more store')
      (EventManager.post id args (EventManager.mk allocated events store) w).
Proof. unfold EventManager.post. cbn [EventManager.s_events]. apply fold_left_app. Qed.

Lemma post_subscribe_token id id' token (f : Callback) (st : Manager) args w :
  EventManager.post id args (EventManager.subscribe_token id' token f st) w
  = if EventId.eqb id' id then f args (EventManager.post id args st w)
    else EventManager.post id args st w.
Proof.
  unfold EventManager.subscribe_token, EventManager.subscribe, EventManager.post.
  cbn [EventManager.s_events]. rewrite fold_left_app. cbn [fold_left fst snd EventManager.m_func].
  reflexivity.
Qed.

Lemma consistent_subscribe_token id token (f : Callback) (st : Manager) :
  consistent st -> consistent (EventManager.subscribe_token id token f st).
Proof.
  intros [Hall Hinc]. unfold consistent, EventManager.subscribe_token, EventManager.subscribe.
  cbn [EventManager.s_events EventManager.allocated EventManager.s_tokenStore].
  split; [|now apply insert_increasing].
  apply Forall_app. split.
  - eapply Forall_impl; [|exact Hall]. cbn beta. intros e He. lia.
  - constructor; [cbn; lia|constructor].
Qed.

(** X2: a subscription under a token that is not in use is undone by
    [unsubscribe<E>(token)].  While it lasts, posting the event runs the
    new callback after the callbacks subscribed before it, and posting
    any other event runs what it ran before; unsubscribing leaves the
    list of events and the token store as they were before the
    subscription. *)
Theorem subscribe_unsubscribe_round_trip id token (f : Callback) (st : Manager) :
  consistent st -> unused token st ->
  (forall args w,
      EventManager.post id args (EventManager.subscribe_token id token f st) w
      = f args (EventManager.post id args st w)) /\
  (forall id' args w,
      EventId.eqb id id' = false ->
      EventManager.post id' args (EventManager.subscribe_token id token f st) w
      = EventManager.post id' args st w) /\
  exists st',
    EventManager.unsubscribe_token id token (EventManager.subscribe_token id token f st)
    = Some st' /\
    EventManager.s_events st' = EventManager.s_events st /\
    EventManager.s_tokenStore st' = EventManager.s_tokenStore st.
Proof.
  intros [Hall Hinc] Hfresh. split; [|split].
  - intros args w. rewrite post_subscribe_token.
    unfold EventId.eqb. now rewrite N.eqb_refl.
  - intros id' args w Hne. rewrite post_subscribe_token. now rewrite Hne.
  - unfold EventManager.unsubscribe_token, EventManager.subscribe_token, EventManager.subscribe.
    cbn [EventManager.s_events EventManager.s_tokenStore EventManager.allocated].
    set (entry := (id, EventManager.mkPointer (EventManager.allocated st) f)).
    change id with (fst entry) at 1.
    rewrite find_if_insert; [|exact Hfresh|apply present_last].
    eexists. split; [reflexivity|].
    cbn [EventManager.s_events EventManager.s_tokenStore snd]. split.
    + unfold entry. now apply remove_last.
    + now apply erase_insert.
Qed.

(** X3: the token store keeps one subscription per token.  When the
    token already stands for a subscription to another event, a further
    [subscribe<E>(token, function)] adds the callback to the list of
    events but leaves the token store as it is, so that
    [unsubscribe<E>(token)] finds nothing to remove: the state stays the
    same and the callback is still run when the event is posted. *)
Theorem second_subscription_is_kept id token (it0 : Entry) (f : Callback) (st : Manager) :
  consistent st ->
  In (token, it0) (EventManager.s_tokenStore st) ->
  EventManager.dangling (EventManager.s_events st) it0 = false ->
  EventId.eqb (fst it0) id = false ->
  EventManager.s_tokenStore (EventManager.subscribe_token id token f st)
  = EventManager.s_tokenStore st /\
  EventManager.unsubscribe_token id token (EventManager.subscribe_token id token f st)
  = Some (EventManager.subscribe_token id token f st) /\
  (forall args w,
      EventManager.post id args (EventManager.subscribe_token id token f st) w
      = f args (EventManager.post id args st w)).
Proof.
  intros [Hall Hinc] Hin Hd Hid.
  assert (Hkey : In token (map fst (EventManager.s_tokenStore st))).
  { change token with (fst (token, it0)). now apply in_map. }
  assert (Hstore : EventManager.s_tokenStore (EventManager.subscribe_token id token f st)
                   = EventManager.s_tokenStore st).
  { unfold EventManager.subscribe_token, EventManager.subscribe.
    cbn [EventManager.s_tokenStore]. now apply insert_present. }
  split; [exact Hstore|]. split.
  - unfold EventManager.unsubscribe_token. rewrite Hstore.
    rewrite (@find_if_other _ id token it0); try assumption; [reflexivity|].
    unfold EventManager.subscribe_token, EventManager.subscribe.
    cbn [EventManager.s_events]. now apply present_more.
  - intros args w. rewrite post_subscribe_token.
    unfold EventId.eqb. now rewrite N.eqb_refl.
Qed.
End ManagerTheorems.

Section HexEditorEventTheorems.
Variables Params World : Type.
Variable lambda : string.

Lemma insert_in token (it : EventManager.Entry Params World) store :
  ~ In token (map fst store) -> In (token, it) (EventManager.insert token it store).
Proof.
  induction store as [|item rest IH]; intros Hn; [now left|].
  cbn [EventManager.insert]. cbn [map In] in Hn.
  destruct (token <? fst item); [now left|].
  destruct (N.eqb_spec token (fst item)) as [E|_]; [symmetry in E; tauto|].
  right. apply IH. tauto.
Qed.

(** X4: the destructor of the hex editor view removes nothing.  The view
    subscribes to [RequestSelectionChange] and then to
    [EventProviderChanged] under the one token [this], so the token store
    holds the first subscription only, and
    [unsubscribe<EventProviderChanged>(this)] leaves the event manager as
    it is: both handlers are still run when their events are posted. *)
Theorem hex_editor_handlers_outlive_the_view
        this (onSelectionChange onProviderChanged : EventManager.Callback Params World)
        (st : EventManager.t Params World) :
  consistent st -> unused this st ->
  destroyViewHexEditor lambda this
    (registerEvents lambda this onSelectionChange onProviderChanged st)
  = Some (registerEvents lambda this onSelectionChange onProviderChanged st) /\
  (forall args w,
      EventManager.post (EventProviderChanged lambda) args
        (registerEvents lambda this onSelectionChange onProviderChanged st) w
      = onProviderChanged args (EventManager.post (EventProviderChanged lambda) args st w)) /\
  (forall args w,
      EventManager.post (RequestSelectionChange lambda) args
        (registerEvents lambda this onSelectionChange onProviderChanged st) w
      = onSelectionChange args (EventManager.post (RequestSelectionChange lambda) args st w)).
Proof.
  intros Hc Hfresh.
  assert (Hids : EventId.eqb (RequestSelectionChange lambda) (EventProviderChanged lambda)
                 = false).
  { apply make_differs; [reflexivity|reflexivity|discriminate]. }
  assert (Hids' : EventId.eqb (EventProviderChanged lambda) (RequestSelectionChange lambda)
                  = false).
  { apply make_differs; [reflexivity|reflexivity|discriminate]. }
  unfold registerEvents, destroyViewHexEditor.
  set (first := EventManager.subscribe_token (RequestSelectionChange lambda) this
                  onSelectionChange st).
  set (it1 := (RequestSelectionChange lambda,
               EventManager.mkPointer (EventManager.allocated st) onSelectionChange)).
  assert (Hc1 : consistent first) by now apply consistent_subscribe_token.
  assert (Hin : In (this, it1) (EventManager.s_tokenStore first)).
  { unfold first, EventManager.subscribe_token, EventManager.subscribe.
    cbn [EventManager.s_tokenStore]. now apply insert_in. }
  assert (Hd : EventManager.dangling (EventManager.s_events first) it1 = false).
  { unfold first, EventManager.subscribe_token, EventManager.subscribe.
    cbn [EventManager.s_events]. apply present_last. }
  assert (Hkey : In this (map fst (EventManager.s_tokenStore first))).
  { change this with (fst (this, it1)). now apply in_map. }
  assert (Hstore : EventManager.s_tokenStore
                     (EventManager.subscribe_token (EventProviderChanged lambda) this
                        onProviderChanged first)
                   = EventManager.s_tokenStore first).
  { unfold EventManager.subscribe_token at 1, EventManager.subscribe.
    cbn [EventManager.s_tokenStore]. apply insert_present; [apply Hc1|exact Hkey]. }
  split; [|split].
  - unfold EventManager.unsubscribe_token. rewrite Hstore.
    rewrite (@find_if_other _ _ _ (EventProviderChanged lambda) this it1);
      [reflexivity|apply Hc1|exact Hin| |exact Hids].
    unfold EventManager.subscribe_token at 1, EventManager.subscribe.
    cbn [EventManager.s_events]. now apply present_more.
  - intros args w. rewrite post_subscribe_token.
    unfold EventId.eqb at 1. rewrite N.eqb_refl.
    unfold first. rewrite post_subscribe_token. now rewrite Hids.
  - intros args w. rewrite post_subscribe_token. rewrite Hids'.
    unfold first. rewrite post_subscribe_token.
    unfold EventId.eqb. now rewrite N.eqb_refl.
Qed.
End HexEditorEventTheorems.

Lemma EventId_tells_lines_apart_witness :
  EventId.make "operator()" 154 < 2 ^ 32 /\
  EventId.eqb (EventId.make "operator()" 154) (EventId.make "operator()" 165) = false.
Proof.
  apply (@EventId_tells_lines_apart "operator()" 154 165);
    [reflexivity|reflexivity|discriminate].
Defined.

Lemma subscribe_unsubscribe_round_trip_witness :
  consistent (EventManager.empty Region PopupFind.t) /\
  unused 4096 (EventManager.empty Region PopupFind.t) /\
  EventManager.post (EventRegionSelected "operator()") (mkRegion 16 4)
    (PopupFind.construct "operator()" 4096 (EventManager.empty Region PopupFind.t))
    (PopupFind.mk None None)
  = PopupFind.mk (Some 16) None /\
  exists st',
    PopupFind.destroy "operator()" 4096
      (PopupFind.construct "operator()" 4096 (EventManager.empty Region PopupFind.t))
    = Some st' /\
    EventManager.s_events st' = [] /\ EventManager.s_tokenStore st' = [].
Proof.
  assert (Hc : consistent (EventManager.empty Region PopupFind.t))
    by (split; [constructor|exact I]).
  assert (Hu : unused 4096 (EventManager.empty Region PopupFind.t))
    by (intros Hin; exact Hin).
  destruct (@subscribe_unsubscribe_round_trip Region PopupFind.t
              (EventRegionSelected "operator()") 4096 PopupFind.onRegionSelected
              (EventManager.empty Region PopupFind.t) Hc Hu) as (Hpost & _ & Hundo).
  split; [exact Hc|]. split; [exact Hu|]. split; [|exact Hundo].
  unfold PopupFind.construct. rewrite Hpost. reflexivity.
Defined.

Lemma second_subscription_is_kept_witness :
  let st := EventManager.subscribe_token (RequestSelectionChange "operator()") 4096
              (fun (_ : unit) (log : list nat) => log ++ [1%nat])
              (EventManager.empty unit (list nat)) in
  let st' := EventManager.subscribe_token (EventProviderChanged "operator()") 4096
               (fun (_ : unit) (log : list nat) => log ++ [2%nat]) st in
  EventManager.s_tokenStore st' = EventManager.s_tokenStore st /\
  EventManager.unsubscribe_token (EventProviderChanged "operator()") 4096 st' = Some st' /\
  EventManager.post (EventProviderChanged "operator()") tt st' [] = [2%nat].
Proof.
  cbv zeta.
  set (st := EventManager.subscribe_token (RequestSelectionChange "operator()") 4096
               (fun (_ : unit) (log : list nat) => log ++ [1%nat])
               (EventManager.empty unit (list nat))).
  destruct (@second_subscription_is_kept unit (list nat)
              (EventProviderChanged "operator()") 4096
              (RequestSelectionChange "operator()",
               EventManager.mkPointer 0 (fun (_ : unit) (log : list nat) => log ++ [1%nat]))
              (fun (_ : unit) (log : list nat) => log ++ [2%nat]) st)
    as (Hstore & Hun & Hpost).
  - split; [repeat constructor|split; [constructor|exact I]].
  - left. reflexivity.
  - reflexivity.
  - reflexivity.
  - split; [exact Hstore|]. split; [exact Hun|]. rewrite Hpost. reflexivity.
Defined.

Lemma hex_editor_handlers_outlive_the_view_witness :
  let st := registerEvents "operator()" 4096
              (fun (_ : unit) (log : list nat) => log ++ [1%nat])
              (fun (_ : unit) (log : list nat) => log ++ [2%nat])
              (EventManager.empty unit (list nat)) in
  destroyViewHexEditor "operator()" 4096 st = Some st /\
  EventManager.post (EventProviderChanged "operator()") tt st [] = [2%nat] /\
  EventManager.post (RequestSelectionChange "operator()") tt st [] = [1%nat].
Proof.
  cbv zeta.
  destruct (@hex_editor_handlers_outlive_the_view unit (list nat) "operator()" 4096
              (fun (_ : unit) (log : list nat) => log ++ [1%nat])
              (fun (_ : unit) (log : list nat) => log ++ [2%nat])
              (EventManager.empty unit (list nat)))
    as (Hd & Hp & Hs).
  - split; [constructor|exact I].
  - intros Hin. exact Hin.
  - split; [exact Hd|]. split; [rewrite Hp|rewrite Hs]; reflexivity.
Defined.


(** * Properties of the rest of the Find view *)

Lemma assign_same {A} (map : N -> A) key v : assign map key v key = v.
Proof. unfold assign. now rewrite N.eqb_refl. Qed.

Section ValueTabTheorems.
Context {FP : FloatingPoint} {H : Helpers} {R : StdRegex}.

(** X5: the value tab computes [m_settingsValid] only in a frame in which
    one of its widgets was edited.  Opened after the strings tab and left
    untouched, it keeps the [true] that the strings tab stored, also when
    the lower bound does not parse; the search button then starts a
    search, which returns at once, without a call of [update], and
    stores empty results.  Had a widget been edited, the settings would
    be marked invalid. *)
Theorem value_tab_keeps_validity_unless_edited
        (view : ViewFind) (strings : Strings.t) (value : Value.t)
        (provider : Provider) (selection : option Region) (t : Task) :
  fst (fst (parseNumericValueInput (Value.inputMin value) (Value.type value))) = false ->
  let opened := drawTab (ValueTab value false) (drawTab (StringsTab strings) view) in
  m_settingsValid (drawTab (ValueTab value true) (drawTab (StringsTab strings) view))
  = false /\
  m_settingsValid opened = true /\
  exists body view',
    searchButton true opened provider selection
    = (setDecodeSettings (m_searchSettings opened) opened, Some body) /\
    body (setDecodeSettings (m_searchSettings opened) opened) t = (Done tt, view', t) /\
    m_foundOccurrences view' (ident provider) = [] /\
    m_sortedOccurrences view' (ident provider) = [] /\
    m_occurrenceTree view' (ident provider) = [].
Proof.
  intros Hmin opened. split; [|split].
  - unfold drawTab at 1. cbn [m_settingsValid setSettings].
    destruct (parseNumericValueInput (Value.inputMin value) (Value.type value))
      as [[minValid minValue] minSize].
    destruct (parseNumericValueInput (Value.inputMax value) (Value.type value))
      as [[maxValid maxValue] maxSize].
    cbn [fst] in Hmin. now rewrite Hmin.
  - reflexivity.
  - assert (Hvalid : m_settingsValid opened = true) by reflexivity.
    unfold searchButton. rewrite Hvalid. cbn [andb].
    eexists. eexists. split; [reflexivity|].
    unfold runSearch, searchTask, dispatch.
    assert (Hmode : SearchSettings.mode (m_searchSettings opened) = Mode.Value)
      by reflexivity.
    assert (Hvalue : SearchSettings.value (m_searchSettings opened) = value)
      by reflexivity.
    rewrite Hmode, Hvalue.
    unfold searchValue.
    destruct (parseNumericValueInput (Value.inputMin value) (Value.type value))
      as [[minValid minValue] minSize].
    destruct (parseNumericValueInput (Value.inputMax value) (Value.type value))
      as [[maxValid maxValue] maxSize].
    cbn [fst] in Hmin. rewrite Hmin. cbn [negb orb].
    unfold bindW, liftW, ret, modify.
    split; [reflexivity|].
    cbn [m_foundOccurrences m_sortedOccurrences m_occurrenceTree setFound setSorted setTree].
    rewrite !assign_same. cbn [map]. auto.
Qed.
End ValueTabTheorems.

Lemma value_tab_keeps_validity_unless_edited_witness :
  let value := Value.mk EmptyString EmptyString U8 little in
  let strings := SearchSettings.strings blankSettings in
  let provider := bufferProvider 1 0 [10; 20; 30] in
  let opened := drawTab (FP := integersOnly) (H := plainHelpers) (R := literalRegex)
                  (ValueTab value false)
                  (drawTab (FP := integersOnly) (H := plainHelpers) (R := literalRegex)
                     (StringsTab strings) blankView) in
  m_settingsValid opened = true /\
  exists body view',
    searchButton (FP := integersOnly) (H := plainHelpers) (R := literalRegex)
      true opened provider None
    = (setDecodeSettings (m_searchSettings opened) opened, Some body) /\
    body (setDecodeSettings (m_searchSettings opened) opened) never = (Done tt, view', never) /\
    m_foundOccurrences view' 1 = [].
Proof.
  cbv zeta.
  destruct (@value_tab_keeps_validity_unless_edited integersOnly plainHelpers literalRegex
              blankView (SearchSettings.strings blankSettings)
              (Value.mk EmptyString EmptyString U8 little)
              (bufferProvider 1 0 [10; 20; 30]) None never eq_refl)
    as (_ & Hvalid & body & view' & Hbutton & Hrun & Hfound & _).
  split; [exact Hvalid|].
  exists body, view'. split; [exact Hbutton|]. split; [exact Hrun|exact Hfound].
Defined.

(** ** [decodeValue] on UTF-16 text *)

Lemma everyOther_utf16le chars : everyOther (utf16le chars) = chars.
Proof.
  induction chars as [|c rest IH]; [reflexivity|].
  unfold utf16le in *. cbn [flat_map app everyOther]. now rewrite IH.
Qed.

Lemma rev_utf16be chars : rev (utf16be chars) = utf16le (rev chars).
Proof.
  induction chars as [|c rest IH]; [reflexivity|].
  unfold utf16be, utf16le in *. cbn [flat_map app rev].
  rewrite flat_map_app. cbn [flat_map app].
  rewrite IH, <- app_assoc. reflexivity.
Qed.

Section DecodeTheorems.
Context {H : Helpers}.

(** X6: a UTF-16 occurrence of a strings search is shown one character
    per code unit; for the little-endian type the characters come in the
    order of the text, for the big-endian type in reverse order, because
    the bytes are reversed as a whole before every other byte is taken. *)
Theorem decodeValue_utf16_order
        (view : ViewFind) (provider : Provider) (occ : Occurrence) (chars : list N) :
  SearchSettings.mode (m_decodeSettings view) = Mode.Strings ->
  decodeType occ = DecodeType.UTF16 ->
  getSize (region occ) <= 128 ->
  read provider (getStartAddress (region occ)) (getSize (region occ))
  = match endian occ with
    | little => utf16le chars
    | big => utf16be chars
    end ->
  decodeValue view provider occ
  = String.concat EmptyString
      (map (fun c => encodeByteString [c])
           match endian occ with
           | little => chars
           | big => rev chars
           end).
Proof.
  intros Hmode Hdt Hsize Hread. unfold decodeValue.
  rewrite Hmode, Hdt. rewrite N.min_l by exact Hsize. rewrite Hread.
  destruct (endian occ); cbn [endian_eqb native].
  - now rewrite everyOther_utf16le.
  - now rewrite rev_utf16be, everyOther_utf16le.
Qed.
End DecodeTheorems.

Lemma decodeValue_utf16_order_witness :
  decodeValue (H := plainHelpers) blankView (bufferProvider 1 0 [0; 97; 0; 98])
              (mkOccurrence (mkRegion 0 4) DecodeType.UTF16 big)
  = "ba"%string /\
  decodeValue (H := plainHelpers) blankView (bufferProvider 1 0 [97; 0; 98; 0])
              (mkOccurrence (mkRegion 0 4) DecodeType.UTF16 little)
  = "ab"%string.
Proof.
  split.
  - rewrite (@decodeValue_utf16_order plainHelpers blankView
               (bufferProvider 1 0 [0; 97; 0; 98])
               (mkOccurrence (mkRegion 0 4) DecodeType.UTF16 big) [97; 98]);
      [reflexivity|reflexivity|reflexivity|cbn; lia|reflexivity].
  - rewrite (@decodeValue_utf16_order plainHelpers blankView
               (bufferProvider 1 0 [97; 0; 98; 0])
               (mkOccurrence (mkRegion 0 4) DecodeType.UTF16 little) [97; 98]);
      [reflexivity|reflexivity|reflexivity|cbn; lia|reflexivity].
Defined.

(** ** Highlighting *)

Lemma HighlightColor_parts color :
  HighlightColor color / 2 ^ 24 = 112 /\
  HighlightColor color mod 2 ^ 24 = color mod 2 ^ 24.
Proof.
  unfold HighlightColor.
  change 16777215 with (N.ones 24). rewrite N.land_ones.
  change 1879048192 with (112 * 2 ^ 24). rewrite N.lor_comm.
  assert (Hlow : color mod 2 ^ 24 < 2 ^ 24) by (apply N.mod_lt; discriminate).
  rewrite lor_disjoint by exact Hlow. split.
  - rewrite N.div_add_l by discriminate. rewrite N.div_small by exact Hlow. reflexivity.
  - rewrite N.add_comm, N.Div0.mod_add. now apply N.mod_small.
Qed.

Lemma findOverlapping_covers (found : list Occurrence) address :
  Forall (fun occ => fitsAddressSpace (region occ)) found ->
  isEmpty (findOverlapping
             (map (fun occ => mkInterval (getStartAddress (region occ))
                                         (getEndAddress (region occ)) occ) found)
             address address) = false
  <-> exists occ, In occ found /\ covers occ address.
Proof.
  induction 1 as [|occ rest Hfit Hrest IH]; cbn [map findOverlapping filter].
  - split; [discriminate|]. intros (occ & [] & _).
  - fold (findOverlapping
            (map (fun occ => mkInterval (getStartAddress (region occ))
                                        (getEndAddress (region occ)) occ) rest)
            address address).
    cbn [start stop].
    assert (Hend : getEndAddress (region occ)
                   = getStartAddress (region occ) + getSize (region occ)).
    { unfold getEndAddress. apply u64_small. exact Hfit. }
    rewrite Hend.
    destruct ((getStartAddress (region occ) <=? address) &&
              (address <? getStartAddress (region occ) + getSize (region occ))) eqn:Hin.
    + split; [|reflexivity]. intros _. exists occ. split; [now left|].
      apply andb_true_iff in Hin. destruct Hin as [Hlo Hhi].
      apply N.leb_le in Hlo. apply N.ltb_lt in Hhi. unfold covers. lia.
    + rewrite IH. split.
      * intros (o & Ho & Hc). exists o. split; [now right|exact Hc].
      * intros (o & [<-|Ho] & Hc); [|now exists o].
        exfalso. unfold covers in Hc.
        apply andb_false_iff in Hin. destruct Hin as [Hlo|Hhi].
        -- apply N.leb_gt in Hlo. lia.
        -- apply N.ltb_ge in Hhi. lia.
Qed.

Section HighlightTheorems.
Context {FP : FloatingPoint} {H : Helpers} {R : StdRegex}.

Lemma searchTask_done provider settings searchRegion view t view' t' :
  searchTask provider settings searchRegion view t = (Done tt, view', t') ->
  m_occurrenceTree view' (ident provider)
  = map (fun occ => mkInterval (getStartAddress (region occ))
                               (getEndAddress (region occ)) occ)
        (m_foundOccurrences view' (ident provider)) /\
  m_sortedOccurrences view' (ident provider) = m_foundOccurrences view' (ident provider) /\
  dispatch provider searchRegion settings t
  = (Done (m_foundOccurrences view' (ident provider)), t').
Proof.
  unfold searchTask, bindW, liftW, modify.
  destruct (dispatch provider searchRegion settings t) as [[found|f|] t1];
    try discriminate.
  intros [= <- <-].
  cbn [m_foundOccurrences m_sortedOccurrences m_occurrenceTree setFound setSorted setTree].
  rewrite !assign_same. auto.
Qed.

Lemma filterTask_tree provider view t :
  m_occurrenceTree (snd (fst (filterTask provider view t))) = m_occurrenceTree view.
Proof.
  destruct (filterTask_run provider view t) as (view' & Hrun & _ & Hsame).
  rewrite Hrun. cbn [fst snd]. apply Hsame.
Qed.

Lemma editFilter_tree provider text t view :
  m_occurrenceTree (editFilter provider text t view) = m_occurrenceTree view.
Proof.
  unfold editFilter, filterEdited.
  match goal with
  | |- context [if negb (emptyString ?s) then _ else _] => destruct (negb (emptyString s))
  end; cbn [runTask]; [rewrite filterTask_tree|];
    match goal with
    | |- context [if ?c then _ else _] => destruct c
    end; reflexivity.
Qed.

(** X7: the bytes that the Find view highlights.  Once a search has
    completed, a byte is highlighted exactly when it belongs to one of
    the occurrences found, with the colour of the theme made
    translucent (alpha [0x70]); editing the filter narrows the table but
    not the highlighting; nothing is highlighted while a search is
    running, nor after the reset button has been pressed. *)
Theorem highlighting_follows_found_list
        (view members members' : ViewFind) (provider : Provider)
        (selection : option Region) (t t' : Task) (color address : N) :
  runSearch view provider selection members t = (Done tt, members', t') ->
  Forall (fun occ => fitsAddressSpace (region occ))
         (m_foundOccurrences members' (ident provider)) ->
  (highlightingProvider members' false provider color address
   = Some (HighlightColor color)
   <-> exists occ, In occ (m_foundOccurrences members' (ident provider)) /\
                   covers occ address) /\
  ((forall occ, In occ (m_foundOccurrences members' (ident provider)) ->
                ~ covers occ address) ->
   highlightingProvider members' false provider color address = None) /\
  HighlightColor color / 2 ^ 24 = 112 /\
  HighlightColor color mod 2 ^ 24 = color mod 2 ^ 24 /\
  (forall text task,
      highlightingProvider (editFilter provider text task members') false provider
                           color address
      = highlightingProvider members' false provider color address) /\
  highlightingProvider members' true provider color address = None /\
  highlightingProvider (resetButton true provider members') false provider color address
  = None.
Proof.
  intros Hrun Hfit. unfold runSearch in Hrun.
  apply searchTask_done in Hrun. destruct Hrun as (Htree & _ & _).
  pose proof (findOverlapping_covers address Hfit) as Hcov. rewrite <- Htree in Hcov.
  assert (Hiff : highlightingProvider members' false provider color address
                 = Some (HighlightColor color)
                 <-> exists occ, In occ (m_foundOccurrences members' (ident provider)) /\
                                 covers occ address).
  { rewrite <- Hcov. unfold highlightingProvider.
    destruct (isEmpty _); cbn [negb]; split; congruence. }
  split; [exact Hiff|]. split; [|split; [|split; [|split; [|split]]]].
  - intros Hnone. unfold highlightingProvider.
    destruct (isEmpty _) eqn:He; [reflexivity|].
    destruct (proj1 Hcov eq_refl) as (occ & Hin & Hc). now destruct (Hnone occ Hin).
  - apply HighlightColor_parts.
  - apply HighlightColor_parts.
  - intros text task. unfold highlightingProvider. now rewrite editFilter_tree.
  - reflexivity.
  - unfold resetButton, highlightingProvider. cbn [andb].
    destruct (isEmpty (m_foundOccurrences members' (ident provider))) eqn:He; cbn [negb].
    + destruct (m_foundOccurrences members' (ident provider)); [|discriminate].
      cbn [map] in Htree. now rewrite Htree.
    + cbn [m_occurrenceTree setTree]. now rewrite assign_same.
Qed.
End HighlightTheorems.

Lemma highlighting_follows_found_list_witness :
  let provider := bufferProvider 1 0 [120; 97; 98; 120] in
  let view := drawTab (FP := integersOnly) (H := plainHelpers) (R := literalRegex)
                (SequenceTab (Sequence.mk "ab")) blankView in
  let members' := snd (fst (runSearch (FP := integersOnly) (H := plainHelpers)
                              (R := literalRegex) view provider None view never)) in
  m_foundOccurrences members' 1 = [mkOccurrence (mkRegion 1 2) DecodeType.Binary native] /\
  highlightingProvider members' false provider 0xFF8000FF 2 = Some 0x708000FF /\
  highlightingProvider members' false provider 0xFF8000FF 3 = None.
Proof.
  cbv zeta.
  set (provider := bufferProvider 1 0 [120; 97; 98; 120]).
  set (view := drawTab (FP := integersOnly) (H := plainHelpers) (R := literalRegex)
                 (SequenceTab (Sequence.mk "ab")) blankView).
  set (run := runSearch (FP := integersOnly) (H := plainHelpers) (R := literalRegex)
                view provider None view never).
  assert (Hrun : run = (Done tt, snd (fst run), snd run)) by reflexivity.
  assert (Hfound : m_foundOccurrences (snd (fst run)) 1
                   = [mkOccurrence (mkRegion 1 2) DecodeType.Binary native]) by reflexivity.
  assert (Hfit : Forall (fun occ => fitsAddressSpace (region occ))
                        (m_foundOccurrences (snd (fst run)) (ident provider))).
  { change (ident provider) with 1. rewrite Hfound.
    constructor; [reflexivity|constructor]. }
  split; [exact Hfound|]. split.
  - destruct (@highlighting_follows_found_list integersOnly plainHelpers literalRegex
                view view (snd (fst run)) provider None never (snd run) 0xFF8000FF 2
                Hrun Hfit) as (Hiff & _).
    change (Some 0x708000FF) with (Some (HighlightColor 0xFF8000FF)).
    apply Hiff. exists (mkOccurrence (mkRegion 1 2) DecodeType.Binary native).
    split; [change (ident provider) with 1; rewrite Hfound; now left|].
    unfold covers. cbn. lia.
  - destruct (@highlighting_follows_found_list integersOnly plainHelpers literalRegex
                view view (snd (fst run)) provider None never (snd run) 0xFF8000FF 3
                Hrun Hfit) as (_ & Hnone & _).
    apply Hnone. intros occ Hin. change (ident provider) with 1 in Hin.
    rewrite Hfound in Hin. destruct Hin as [<-|[]]. unfold covers. cbn. lia.
Defined.

(** ** Sorting the table *)

Lemma insertSorted_permutation {A} (comp : A -> A -> bool) x l :
  Permutation.Permutation (insertSorted comp x l) (x :: l).
Proof.
  induction l as [|y rest IH]; cbn [insertSorted].
  - apply Permutation.Permutation_refl.
  - destruct (comp x y); [apply Permutation.Permutation_refl|].
    eapply Permutation.perm_trans; [apply Permutation.perm_skip, IH|].
    apply Permutation.perm_swap.
Qed.

Lemma std_sort_permutation {A} (comp : A -> A -> bool) l :
  Permutation.Permutation (std_sort comp l) l.
Proof.
  induction l as [|x rest IH]; cbn [std_sort fold_right].
  - apply Permutation.perm_nil.
  - eapply Permutation.perm_trans; [apply insertSorted_permutation|].
    now apply Permutation.perm_skip.
Qed.

Lemma ordered_weaken {A} (le le' : A -> A -> Prop) l :
  (forall a b, le a b -> le' a b) -> ordered le l -> ordered le' l.
Proof.
  intros Himp. induction l as [|a rest IH]; cbn [ordered]; [auto|].
  intros [Hall Hrest]. split; [|now apply IH].
  eapply Forall_impl; [|exact Hall]. apply Himp.
Qed.

Section SortOrder.
Variables (A : Type) (comp : A -> A -> bool).
Hypothesis comp_asym : forall a b, comp a b = true -> comp b a = false.
Hypothesis comp_trans : forall a b c, comp a b = true -> comp b c = true -> comp a c = true.

Let le (a b : A) : Prop := comp b a = false.

Lemma insertSorted_in x l z : In z (insertSorted comp x l) -> z = x \/ In z l.
Proof.
  induction l as [|y rest IH]; cbn [insertSorted].
  - intros [<-|[]]. now left.
  - destruct (comp x y); cbn [In]; [intuition congruence|].
    intros [<-|Hin]; [now right; left|]. destruct (IH Hin); auto.
Qed.

Lemma insertSorted_ordered x l : ordered le l -> ordered le (insertSorted comp x l).
Proof.
  induction l as [|y rest IH]; cbn [insertSorted ordered].
  - intros _. split; [constructor|exact I].
  - intros [Hall Hrest]. destruct (comp x y) eqn:Hxy; cbn [ordered].
    + split; [|split; assumption]. constructor; [now apply comp_asym|].
      rewrite Forall_forall in *. intros z Hz. specialize (Hall z Hz). unfold le in *.
      destruct (comp z x) eqn:Hzx; [|reflexivity].
      rewrite (comp_trans Hzx Hxy) in Hall. discriminate.
    + split; [|now apply IH].
      rewrite Forall_forall in *. intros z Hz.
      apply insertSorted_in in Hz. destruct Hz as [->|Hz]; [exact Hxy|now apply Hall].
Qed.

Lemma std_sort_ordered l : ordered le (std_sort comp l).
Proof.
  induction l as [|x rest IH]; cbn [std_sort fold_right]; [exact I|].
  now apply insertSorted_ordered.
Qed.
End SortOrder.

Lemma string_compare_trans a : forall b c,
  String.compare a b = Lt -> String.compare b c = Lt -> String.compare a c = Lt.
Proof.
  induction a as [|x a IH]; intros [|y b] [|z c]; cbn [String.compare]; try discriminate; auto.
  unfold Ascii.compare.
  destruct (N.compare_spec (N_of_ascii x) (N_of_ascii y)) as [Exy|Lxy|Gxy];
    destruct (N.compare_spec (N_of_ascii y) (N_of_ascii z)) as [Eyz|Lyz|Gyz];
    try discriminate; intros Hab Hbc.
  - rewrite Exy, Eyz, N.compare_refl. now apply (IH b c).
  - rewrite Exy. now apply N.compare_lt_iff in Lyz as ->.
  - rewrite <- Eyz. now apply N.compare_lt_iff in Lxy as ->.
  - assert (Hxz : N_of_ascii x < N_of_ascii z) by lia.
    now apply N.compare_lt_iff in Hxz as ->.
Qed.

Lemma string_ltb_asym a b : String.ltb a b = true -> String.ltb b a = false.
Proof.
  unfold String.ltb. rewrite (String.compare_antisym b a).
  destruct (String.compare a b); cbn; congruence.
Qed.

Lemma string_ltb_trans a b c :
  String.ltb a b = true -> String.ltb b c = true -> String.ltb a c = true.
Proof.
  unfold String.ltb.
  destruct (String.compare a b) eqn:Hab; try discriminate.
  destruct (String.compare b c) eqn:Hbc; try discriminate.
  now rewrite (@string_compare_trans a b c Hab Hbc).
Qed.

Lemma string_ltb_leb a b : String.ltb b a = false -> String.leb a b = true.
Proof.
  unfold String.ltb, String.leb. rewrite (String.compare_antisym a b).
  destruct (String.compare b a); cbn; congruence.
Qed.

Section SortTheorems.
Context {H : Helpers}.

(** X8: sorting the table.  When the sort specification is dirty the
    working copy is replaced by a permutation of itself, the list of
    found occurrences stays as it is and the specification is marked
    clean; otherwise nothing changes.  The comparison is [left > right]
    for the ascending direction, so the table then runs from the largest
    key to the smallest, and from the smallest to the largest for the
    other directions; the key is the start address, the size or the
    decoded value, compared as strings. *)
Theorem sortTable_orders_working_copy
        (sortSpecs : ImGuiTableSortSpecs) (provider : Provider) (view : ViewFind) :
  let id := ident provider in
  let result := sortTable sortSpecs provider view in
  let sorted := m_sortedOccurrences (fst result) id in
  let offset := fun occ => getStartAddress (region occ) in
  let size := fun occ => getSize (region occ) in
  let shown := decodeValue view provider in
  (SpecsDirty sortSpecs = false -> result = (view, sortSpecs)) /\
  (SpecsDirty sortSpecs = true ->
   Permutation.Permutation sorted (m_sortedOccurrences view id) /\
   m_foundOccurrences (fst result) = m_foundOccurrences view /\
   SpecsDirty (snd result) = false /\
   match Column sortSpecs, SortDirection sortSpecs with
   | OffsetColumn, ImGuiSortDirection_Ascending =>
       ordered (fun a b => offset b <= offset a) sorted
   | OffsetColumn, _ => ordered (fun a b => offset a <= offset b) sorted
   | SizeColumn, ImGuiSortDirection_Ascending =>
       ordered (fun a b => size b <= size a) sorted
   | SizeColumn, _ => ordered (fun a b => size a <= size b) sorted
   | ValueColumn, ImGuiSortDirection_Ascending =>
       ordered (fun a b => String.leb (shown b) (shown a) = true) sorted
   | ValueColumn, _ => ordered (fun a b => String.leb (shown a) (shown b) = true) sorted
   | OtherColumn, _ => True
   end).
Proof.
  intros id result sorted offset size shown. split.
  - intros Hclean. unfold result, sortTable. now rewrite Hclean.
  - intros Hdirty.
    assert (Hsorted : sorted = std_sort (sortComparison view provider sortSpecs)
                                        (m_sortedOccurrences view id)).
    { unfold sorted, result, sortTable. rewrite Hdirty.
      cbn [fst m_sortedOccurrences setSorted]. apply assign_same. }
    split; [rewrite Hsorted; apply std_sort_permutation|].
    split; [unfold result, sortTable; now rewrite Hdirty|].
    split; [unfold result, sortTable; now rewrite Hdirty|].
    rewrite Hsorted. clear Hsorted sorted result.
    set (comp := sortComparison view provider sortSpecs).
    assert (Hord : forall (asym : forall a b, comp a b = true -> comp b a = false)
                          (trans : forall a b c, comp a b = true -> comp b c = true ->
                                                 comp a c = true),
               ordered (fun a b => comp b a = false)
                       (std_sort comp (m_sortedOccurrences view id))).
    { intros asym trans. now apply std_sort_ordered. }
    unfold comp, sortComparison in *. clear comp.
    destruct (Column sortSpecs), (SortDirection sortSpecs); cbv beta iota zeta in *;
      try exact I;
      (eapply ordered_weaken; [|apply Hord]);
      try (intros a b Hab; apply N.ltb_ge in Hab; exact Hab);
      try (intros a b Hab; apply string_ltb_leb; exact Hab);
      try (intros a b Hab; apply N.ltb_lt in Hab; apply N.ltb_ge; lia);
      try (intros a b c Hab Hbc; apply N.ltb_lt in Hab; apply N.ltb_lt in Hbc;
           apply N.ltb_lt; lia);
      try (intros a b; apply string_ltb_asym);
      try (intros a b c Hab Hbc; eapply string_ltb_trans; eassumption).
Qed.
End SortTheorems.

(** ** The settings for decoding *)

Section DecodeSettingsTheorems.
Context {FP : FloatingPoint} {H : Helpers} {R : StdRegex}.

End DecodeSettingsTheorems.



(** ** [searchStrings]: what is reported is a run, in every mode *)

Lemma ordered_snoc {A} (le : A -> A -> Prop) l x :
  ordered le l -> Forall (fun a => le a x) l -> ordered le (l ++ [x]).
Proof.
  induction l as [|a rest IH]; cbn [ordered app].
  - intros _ _. split; [constructor|exact I].
  - intros [Hall Hrest] Hx. inversion Hx as [|? ? Hax Hrx]; subst.
    split; [|now apply IH].
    apply Forall_app. split; [exact Hall|]. constructor; [exact Hax|constructor].
Qed.

Section StringsSound.
Variables (provider : Provider) (r : Region) (settings : Strings.t).
Hypothesis Hfits : fitsAddressSpace r.

Let H := haystack provider r.
Let n := N.to_nat (getSize r).
Let a0 := getStartAddress r.
Let decode := fst (stringsDecoding (Strings.type settings)).
Let en := snd (stringsDecoding (Strings.type settings)).
Let step := stringsStep settings (getStartAddress r + getSize r) decode en.
Let hit := stringHit provider r settings.

(** What holds of the local variables when [i] bytes have been read. *)
Let Inv (i : nat) (st : StringsState) : Prop :=
  Forall hit (stringResults st) /\ ordered apart (stringResults st) /\
  ((i < n)%nat ->
   exists c : nat,
     countedCharacters st = N.of_nat c /\ (c <= i)%nat /\
     startAddress st = a0 + N.of_nat (i - c) /\
     positionalRun settings H (i - c) c /\
     Forall (fun o => getStartAddress (region o) + getSize (region o) < startAddress st)
            (stringResults st)).

Lemma stringsStep_sound i st b :
  (i < n)%nat -> nth_error H i = Some b -> Inv i st -> Inv (S i) (step st b).
Proof.
  assert (Hn : List.length H = n) by apply haystack_length.
  unfold fitsAddressSpace in Hfits. fold a0 in Hfits.
  intros Hi Hb (Hhits & Hord & Hstate).
  destruct (Hstate Hi) as (c & Hc & Hci & Hs & Hrun & Hends). clear Hstate.
  unfold Inv, step, stringsStep. rewrite Hc, Hs.
  set (m := size_t_of_int (Strings.minLength settings)).
  set (s0 := (i - c)%nat) in *.
  (* the occurrence that a flush may report *)
  assert (Hnew : forall len : nat,
             (len = c /\ validChar settings (N.of_nat c) b = false) \/
             (len = S c /\ S i = n /\ validChar settings (N.of_nat c) b = true) ->
             m <= N.of_nat len ->
             negb (Strings.nullTermination settings && negb (b =? 0)) = true ->
             positionalRun settings H s0 len ->
             hit (mkOccurrence (mkRegion (a0 + N.of_nat s0) (N.of_nat len)) decode en)).
  { intros len Hlen Hm Hnt Hrun'. unfold hit, stringHit.
    cbn [region getStartAddress getSize decodeType endian]. fold a0 H m.
    replace (N.to_nat (a0 + N.of_nat s0 - a0)) with s0 by lia.
    rewrite Nat2N.id.
    split; [lia|]. split; [subst s0 n; lia|]. split; [exact Hrun'|].
    split; [exact Hm|]. split; [|unfold decode, en; now destruct (stringsDecoding _)].
    intros Hnull. rewrite Hnull in Hnt. cbn [andb] in Hnt.
    apply negb_true_iff, negb_false_iff in Hnt.
    destruct Hlen as [[-> _]|(-> & Hlast & _)].
    - left. unfold zeroAt. replace (s0 + c)%nat with i by (subst s0; lia).
      now rewrite Hb.
    - right. split; [subst s0; lia|].
      unfold zeroAt. replace (s0 + S c - 1)%nat with i by (subst s0; lia).
      now rewrite Hb. }
  assert (Hext : validChar settings (N.of_nat c) b = true ->
                 positionalRun settings H s0 (S c)).
  { intros Hv k Hk. destruct (Nat.eq_dec k c) as [->|Hne].
    - exists b. split; [|exact Hv]. replace (s0 + c)%nat with i by (subst s0; lia).
      exact Hb.
    - apply Hrun. lia. }
  assert (Happend : forall len : nat,
             ordered apart
               (stringResults st ++
                  [mkOccurrence (mkRegion (a0 + N.of_nat s0) (N.of_nat len)) decode en])).
  { intros len. apply ordered_snoc; [exact Hord|].
    eapply Forall_impl; [|exact Hends]. intros o Ho. unfold apart.
    cbn [region getStartAddress]. rewrite Hs in Ho. exact Ho. }
  destruct (validChar settings (N.of_nat c) b) eqn:Hv.
  - (* the byte extends the run *)
    rewrite (u64_small (x := N.of_nat c + 1)) by lia.
    replace (N.of_nat c + 1) with (N.of_nat (S c)) by lia.
    rewrite (u64_small (x := a0 + N.of_nat s0 + N.of_nat (S c))) by (subst s0; lia).
    cbn [negb orb]. fold a0.
    destruct (N.eqb_spec (a0 + N.of_nat s0 + N.of_nat (S c)) (a0 + getSize r))
      as [Hend|Hmid].
    + assert (Hlast : S i = n) by (subst s0 n; lia).
      cbn [stringResults]. split; [|split; [|intros; lia]].
      * destruct (N.leb_spec m (N.of_nat (S c))) as [Hm|_]; [|exact Hhits].
        destruct (negb (Strings.nullTermination settings && negb (b =? 0))) eqn:Hnt;
          [|exact Hhits].
        apply Forall_app. split; [exact Hhits|]. constructor; [|constructor].
        apply Hnew; auto.
      * destruct (m <=? N.of_nat (S c)); [|exact Hord].
        destruct (negb (Strings.nullTermination settings && negb (b =? 0)));
          [|exact Hord].
        apply Happend.
    + cbn [stringResults countedCharacters startAddress].
      split; [exact Hhits|]. split; [exact Hord|]. intros _.
      exists (S c). split; [reflexivity|]. split; [lia|].
      replace (S i - S c)%nat with s0 by (subst s0; lia).
      split; [reflexivity|]. split; [now apply Hext|]. now rewrite <- Hs.
  - (* the byte ends the run *)
    cbn [negb orb stringResults countedCharacters startAddress].
    rewrite (u64_small (x := a0 + N.of_nat s0 + (N.of_nat c + 1))) by (subst s0; lia).
    split; [|split].
    + destruct (N.leb_spec m (N.of_nat c)) as [Hm|_]; [|exact Hhits].
      destruct (negb (Strings.nullTermination settings && negb (b =? 0))) eqn:Hnt;
        [|exact Hhits].
      apply Forall_app. split; [exact Hhits|]. constructor; [|constructor].
      apply Hnew; auto.
    + destruct (m <=? N.of_nat c); [|exact Hord].
      destruct (negb (Strings.nullTermination settings && negb (b =? 0)));
        [|exact Hord].
      apply Happend.
    + intros _. exists 0%nat. split; [reflexivity|]. split; [lia|].
      split; [subst s0; lia|]. split; [intros k Hk; lia|].
      assert (Hold : Forall (fun o => getStartAddress (region o) + getSize (region o)
                                      < a0 + N.of_nat s0 + (N.of_nat c + 1))
                            (stringResults st)).
      { eapply Forall_impl; [|exact Hends]. intros o Ho. cbv beta in *.
        rewrite Hs in Ho. lia. }
      destruct (m <=? N.of_nat c); [|exact Hold].
      destruct (negb (Strings.nullTermination settings && negb (b =? 0)));
        [|exact Hold].
      apply Forall_app. split; [exact Hold|]. constructor; [|constructor].
      cbn [region getStartAddress getSize]. lia.
Qed.

Lemma stringsLoop_sound : forall rest i st,
  rest = skipn i H -> (i <= n)%nat -> Inv i st -> Inv n (fold_left step rest st).
Proof.
  assert (Hn : List.length H = n) by apply haystack_length.
  induction rest as [|b rest IH]; intros i st Hrest Hi Hinv.
  - assert (i = n).
    { apply (f_equal (@List.length N)) in Hrest. rewrite length_skipn in Hrest.
      simpl in Hrest. lia. }
    subst i. exact Hinv.
  - rewrite skipn_cons_nth in Hrest.
    destruct (nth_error H i) as [b'|] eqn:Hb; [|discriminate].
    injection Hrest as <- Hrest.
    assert (Hin : (i < n)%nat) by (rewrite <- Hn; apply nth_error_Some; congruence).
    cbn [fold_left]. apply (IH (S i)); [exact Hrest|lia|].
    now apply stringsStep_sound.
Qed.

Lemma searchStringsPass_sound t :
  quiet t ->
  exists found,
    searchStringsPass provider r settings t = (Done found, mkTask (updates t + n) None) /\
    stringHits provider r settings found.
Proof.
  intros Hq. unfold searchStringsPass.
  assert (Hde : stringsDecoding (Strings.type settings) = (decode, en))
    by (unfold decode, en; now destruct (stringsDecoding _)).
  rewrite Hde. unfold bind at 1. rewrite forBytes_quiet by exact Hq. unfold ret.
  eexists. split.
  - f_equal. rewrite Hq. f_equal.
    unfold readerBytes. rewrite length_map, addresses_length.
    unfold readerOver. cbn [m_begin m_end]. unfold n. f_equal. lia.
  - cbn [m_begin m_end readerOver].
    change (readerBytes (readerOver provider r)) with H.
    destruct (@stringsLoop_sound H 0%nat (mkStringsState 0 (getStartAddress r) []))
      as (Hhits & Hord & _).
    + reflexivity.
    + lia.
    + split; [constructor|]. split; [exact I|]. intros _. exists 0%nat.
      cbn [countedCharacters startAddress stringResults].
      split; [reflexivity|]. split; [lia|]. split; [unfold a0; cbn; lia|].
      split; [intros k Hk; lia|constructor].
    + split; assumption.
Qed.
End StringsSound.

Lemma searchStrings_sound
      (provider : Provider) (r : Region) (settings : Strings.t) (t : Task) :
  fitsAddressSpace r -> quiet t ->
  exists found t',
    searchStrings provider r settings t = (Done found, t') /\
    match Strings.type settings with
    | StringType.ASCII_UTF16LE =>
        exists ascii utf16,
          found = ascii ++ utf16 /\
          stringHits provider r (Strings.withType settings StringType.ASCII) ascii /\
          stringHits provider r (Strings.withType settings StringType.UTF16LE) utf16
    | StringType.ASCII_UTF16BE =>
        exists ascii utf16,
          found = ascii ++ utf16 /\
          stringHits provider r (Strings.withType settings StringType.ASCII) ascii /\
          stringHits provider r (Strings.withType settings StringType.UTF16BE) utf16
    | _ => stringHits provider r settings found
    end.
Proof.
  intros Hfits Hq. unfold searchStrings.
  destruct (Strings.type settings) eqn:Hty;
    try (destruct (@searchStringsPass_sound provider r settings Hfits t Hq)
           as (found & Hrun & Hhits);
         exists found; eexists; rewrite Hrun; split; [reflexivity|exact Hhits]).
  - destruct (@searchStringsPass_sound provider r
                (Strings.withType settings StringType.ASCII) Hfits t Hq)
      as (ascii & Hrun1 & Hhits1).
    unfold bind at 1. rewrite Hrun1.
    destruct (@searchStringsPass_sound provider r
                (Strings.withType settings StringType.UTF16LE) Hfits
                (mkTask (updates t + N.to_nat (getSize r)) None) eq_refl)
      as (utf16 & Hrun2 & Hhits2).
    unfold bind. rewrite Hrun2. unfold ret.
    exists (ascii ++ utf16). eexists. split; [reflexivity|]. exists ascii, utf16. auto.
  - destruct (@searchStringsPass_sound provider r
                (Strings.withType settings StringType.ASCII) Hfits t Hq)
      as (ascii & Hrun1 & Hhits1).
    unfold bind at 1. rewrite Hrun1.
    destruct (@searchStringsPass_sound provider r
                (Strings.withType settings StringType.UTF16BE) Hfits
                (mkTask (updates t + N.to_nat (getSize r)) None) eq_refl)
      as (utf16 & Hrun2 & Hhits2).
    unfold bind. rewrite Hrun2. unfold ret.
    exists (ascii ++ utf16). eexists. split; [reflexivity|]. exists ascii, utf16. auto.
Qed.

(** X9: whatever the type of string searched for, every occurrence that
    [searchStrings] reports is a run of the region: it lies inside the
    region, each of its bytes passes the test for its position in the run
    (for the UTF-16 types every other byte is zero), it has at least
    [minLength] bytes, and under null termination the byte that ended it is
    zero.  The occurrences of one pass come in ascending order with at
    least one byte between two of them; the combined types give the
    occurrences of the ASCII pass followed by those of the UTF-16 pass. *)
Theorem searchStrings_reports_runs
        (provider : Provider) (r : Region) (settings : Strings.t) (t : Task) :
  fitsAddressSpace r -> quiet t ->
  exists found,
    fst (searchStrings provider r settings t) = Done found /\
    match Strings.type settings with
    | StringType.ASCII_UTF16LE =>
        exists ascii utf16,
          found = ascii ++ utf16 /\
          stringHits provider r (Strings.withType settings StringType.ASCII) ascii /\
          stringHits provider r (Strings.withType settings StringType.UTF16LE) utf16
    | StringType.ASCII_UTF16BE =>
        exists ascii utf16,
          found = ascii ++ utf16 /\
          stringHits provider r (Strings.withType settings StringType.ASCII) ascii /\
          stringHits provider r (Strings.withType settings StringType.UTF16BE) utf16
    | _ => stringHits provider r settings found
    end.
Proof.
  intros Hfits Hq.
  destruct (searchStrings_sound provider settings Hfits Hq) as (found & t' & Hrun & Hhits).
  exists found. rewrite Hrun. split; [reflexivity|exact Hhits].
Qed.

Lemma searchStrings_reports_runs_witness :
  let provider := bufferProvider 1 0 [97; 98; 0; 99; 0] in
  let settings := Strings.mk 2 true StringType.UTF16LE true true true true true true true in
  exists found,
    fst (searchStrings provider (mkRegion 0 5) settings never) = Done found /\
    stringHits provider (mkRegion 0 5) settings found.
Proof.
  cbv zeta.
  apply (@searchStrings_reports_runs (bufferProvider 1 0 [97; 98; 0; 99; 0]) (mkRegion 0 5)
           (Strings.mk 2 true StringType.UTF16LE true true true true true true true) never);
    [unfold fitsAddressSpace; cbn; lia|reflexivity].
Defined.

(** ** A strings search started from its tab *)

Lemma stringHit_size provider r settings ty occ :
  (1 <= Strings.minLength settings < 2 ^ 31)%Z ->
  stringHit provider r (Strings.withType settings ty) occ ->
  getStartAddress r <= getStartAddress (region occ) /\
  getStartAddress (region occ) + getSize (region occ) <= getStartAddress r + getSize r /\
  1 <= getSize (region occ).
Proof.
  intros Hmin (Hlo & Hhi & _ & Hlen & _). split; [exact Hlo|]. split; [exact Hhi|].
  unfold size_t_of_int in Hlen. cbn [Strings.withType Strings.minLength] in Hlen.
  rewrite Z.mod_small in Hlen by lia. lia.
Qed.

Lemma withType_same settings : Strings.withType settings (Strings.type settings) = settings.
Proof. now destruct settings. Qed.

Section StringsTabTheorems.
Context {FP : FloatingPoint} {H : Helpers} {R : StdRegex}.

(** X17: the strings tab always lets a search start, and it raises a
    minimal length below 1 to 1.  So a strings search started from the
    tab, run to its end, stores only occurrences that lie inside the
    region searched and have at least one byte.  The minimal length 0,
    which the tab excludes, would make the search report an empty
    occurrence wherever a byte is not valid. *)
Theorem strings_search_started_from_the_tab
        (view : ViewFind) (settings : Strings.t) (provider : Provider)
        (selection : option Region) (t : Task) :
  let opened := drawTab (StringsTab settings) view in
  let used := SearchSettings.strings (m_searchSettings opened) in
  let r := searchRegionOf opened provider selection in
  (Strings.minLength settings < 2 ^ 31)%Z -> fitsAddressSpace r -> quiet t ->
  m_settingsValid opened = true /\
  Strings.minLength used = Z.max 1 (Strings.minLength settings) /\
  (exists body members' t',
     searchButton true opened provider selection
     = (setDecodeSettings (m_searchSettings opened) opened, Some body) /\
     body (setDecodeSettings (m_searchSettings opened) opened) t = (Done tt, members', t') /\
     Forall (fun occ =>
               getStartAddress r <= getStartAddress (region occ) /\
               getStartAddress (region occ) + getSize (region occ)
               <= getStartAddress r + getSize r /\
               1 <= getSize (region occ))
            (m_foundOccurrences members' (ident provider))) /\
  fst (searchStrings (bufferProvider 1 0 [1]) (mkRegion 0 1)
         (Strings.mk 0 false StringType.ASCII true true true true true true true) never)
  = Done [mkOccurrence (mkRegion 0 0) DecodeType.ASCII native].
Proof.
  intros opened used r Hint Hfits Hq.
  assert (Hused : (1 <= Strings.minLength used < 2 ^ 31)%Z /\
                  Strings.minLength used = Z.max 1 (Strings.minLength settings)).
  { unfold used, opened, drawTab.
    cbn [m_searchSettings setSettings SearchSettings.strings].
    destruct (Z.ltb_spec (Strings.minLength settings) 1);
      cbn [Strings.minLength]; lia. }
  destruct Hused as [Hmin Hmax].
  split; [reflexivity|]. split; [exact Hmax|]. split; [|reflexivity].
  assert (Hvalid : m_settingsValid opened = true) by reflexivity.
  unfold searchButton. rewrite Hvalid. cbn [andb].
  destruct (searchStrings_sound provider used Hfits Hq) as (found & t' & Hrun & Hhits).
  eexists. exists
    (setTree (ident provider)
       (map (fun o => mkInterval (getStartAddress (region o))
                                 (getEndAddress (region o)) o) found)
       (setSorted (ident provider) found
          (setFound (ident provider) found
             (setDecodeSettings (m_searchSettings opened) opened)))), t'.
  split; [reflexivity|]. split.
  - unfold runSearch, searchTask, dispatch.
    change (SearchSettings.mode (m_searchSettings opened)) with Mode.Strings.
    fold used. fold r. unfold bindW, liftW, modify. rewrite Hrun.
    cbn [m_foundOccurrences setFound setSorted]. rewrite !assign_same. reflexivity.
  - cbn [m_foundOccurrences setTree setSorted setFound]. rewrite assign_same.
    destruct (Strings.type used) eqn:Hty.
    1-3: destruct Hhits as [Hall _]; eapply Forall_impl; [|exact Hall];
         intros occ Hocc; apply (@stringHit_size provider r used (Strings.type used) occ Hmin);
         now rewrite withType_same.
    all: destruct Hhits as (ascii & utf16 & -> & [Ha _] & [Hu _]);
         apply Forall_app; split;
         (eapply Forall_impl; [|eassumption]); intros occ Hocc;
         eapply stringHit_size; eassumption.
Qed.
End StringsTabTheorems.

Lemma strings_search_started_from_the_tab_witness :
  let provider := bufferProvider 1 0 [97; 98; 1; 99] in
  let settings := Strings.mk 0 false StringType.ASCII true true true true true true true in
  let opened := drawTab (FP := integersOnly) (H := plainHelpers) (R := literalRegex)
                  (StringsTab settings) blankView in
  Strings.minLength (SearchSettings.strings (m_searchSettings opened)) = 1%Z /\
  m_foundOccurrences
    (runTask (snd (searchButton (FP := integersOnly) (H := plainHelpers) (R := literalRegex)
                     true opened provider None))
             (fst (searchButton (FP := integersOnly) (H := plainHelpers) (R := literalRegex)
                     true opened provider None)) never) 1
  = [mkOccurrence (mkRegion 0 2) DecodeType.ASCII native;
     mkOccurrence (mkRegion 3 1) DecodeType.ASCII native].
Proof.
  cbv zeta.
  destruct (@strings_search_started_from_the_tab integersOnly plainHelpers literalRegex
              blankView
              (Strings.mk 0 false StringType.ASCII true true true true true true true)
              (bufferProvider 1 0 [97; 98; 1; 99]) None never)
    as (_ & Hmin & _).
  - reflexivity.
  - unfold fitsAddressSpace. cbn. lia.
  - reflexivity.
  - split; [exact Hmin|reflexivity].
Defined.


(** * Properties of the hex editor view *)

Section HighlightCallbackTheorems.
Variable overlaps : Region -> Region -> bool.
Variables (address : N) (data : list N) (size : N).

Let pick := fun (result : option N) (entry : N * HighlightingProviderFunction) =>
              match snd entry address data size
                              (match result with Some _ => true | None => false end)
              with
              | Some color => Some color
              | None => result
              end.

Lemma fold_silent (functions : list (N * HighlightingProviderFunction)) :
  (forall entry flag, In entry functions -> snd entry address data size flag = None) ->
  forall result, fold_left pick functions result = result.
Proof.
  induction functions as [|entry rest IH]; intros Hnone result; [reflexivity|].
  cbn [fold_left]. unfold pick at 2. rewrite Hnone by now left.
  apply IH. intros e flag He. apply Hnone. now right.
Qed.

Lemma firstColor_silent (functions : list (N * HighlightingProviderFunction)) :
  (forall entry, In entry functions -> snd entry address data size false = None) ->
  firstColor functions address data size = None.
Proof.
  induction functions as [|[id callback] rest IH]; intros Hnone; [reflexivity|].
  cbn [firstColor]. pose proof (Hnone (id, callback) (or_introl eq_refl)) as E.
  cbn [snd] in E. rewrite E.
  apply IH. intros e He. apply Hnone. now right.
Qed.

Lemma firstColor_first (before after : list (N * HighlightingProviderFunction)) (id : N)
      (f : HighlightingProviderFunction) (color : N) :
  (forall entry, In entry before -> snd entry address data size false = None) ->
  f address data size false = Some color ->
  firstColor (before ++ (id, f) :: after) address data size = Some color.
Proof.
  induction before as [|[id' callback] rest IH]; intros Hnone Hf; cbn [app firstColor].
  - now rewrite Hf.
  - pose proof (Hnone (id', callback) (or_introl eq_refl)) as E.
    cbn [snd] in E. rewrite E.
    apply IH; [|exact Hf]. intros e He. apply Hnone. now right.
Qed.

(** X10: which colour the hex editor gives a byte.  For the background
    the first highlighting function that returns a colour decides, and
    the functions after it are not asked; for the foreground every
    function is asked and the last one that returns a colour decides.
    The highlights set by region come into play only when no function
    returns a colour; then the first that overlaps the byte decides. *)
Theorem highlighting_functions_take_precedence
        (functions : list (N * HighlightingProviderFunction))
        (highlights : list (N * Highlighting)) :
  (forall before id f after color,
      functions = before ++ (id, f) :: after ->
      (forall entry, In entry before -> snd entry address data size false = None) ->
      f address data size false = Some color ->
      backgroundHighlight overlaps functions highlights address data size = Some color) /\
  (forall before id f after color,
      functions = before ++ (id, f) :: after ->
      (forall flag, f address data size flag = Some color) ->
      (forall entry flag, In entry after -> snd entry address data size flag = None) ->
      foregroundHighlight overlaps functions highlights address data size = Some color) /\
  ((forall entry flag, In entry functions -> snd entry address data size flag = None) ->
   backgroundHighlight overlaps functions highlights address data size
   = firstOverlapping overlaps highlights address size /\
   foregroundHighlight overlaps functions highlights address data size
   = firstOverlapping overlaps highlights address size).
Proof.
  split; [|split].
  - intros before id f after color -> Hnone Hf. unfold backgroundHighlight.
    now rewrite (@firstColor_first before after id f color Hnone Hf).
  - intros before id f after color -> Hf Hnone. unfold foregroundHighlight.
    fold pick. rewrite fold_left_app. cbn [fold_left].
    rewrite (@fold_silent after Hnone).
    unfold pick at 1. cbn [snd]. now rewrite Hf.
  - intros Hnone. unfold backgroundHighlight, foregroundHighlight. fold pick.
    rewrite (@fold_silent functions Hnone).
    rewrite firstColor_silent; [split; reflexivity|].
    intros entry He. now apply Hnone.
Qed.
End HighlightCallbackTheorems.

Section FindHighlightInEditor.
Context {FP : FloatingPoint} {H : Helpers} {R : StdRegex}.
Variable overlaps : Region -> Region -> bool.

Lemma highlightingProvider_covers
      (view members members' : ViewFind) (provider : Provider)
      (selection : option Region) (t t' : Task) (color address : N) :
  runSearch view provider selection members t = (Done tt, members', t') ->
  Forall (fun occ => fitsAddressSpace (region occ))
         (m_foundOccurrences members' (ident provider)) ->
  (exists occ, In occ (m_foundOccurrences members' (ident provider)) /\
               covers occ address) ->
  highlightingProvider members' false provider color address
  = Some (HighlightColor color).
Proof.
  intros Hrun Hfit Hocc. unfold runSearch in Hrun.
  apply searchTask_done in Hrun. destruct Hrun as (Htree & _ & _).
  apply (findOverlapping_covers address Hfit) in Hocc. rewrite <- Htree in Hocc.
  unfold highlightingProvider. now rewrite Hocc.
Qed.

(** X15: how a hit of the Find view gets its colour in the hex editor.
    The provider of the Find view is one of the background highlighting
    functions.  Once a search has completed, a byte of a found occurrence
    is painted in the highlight colour of the Find view unless a function
    registered before it returns a colour; the functions after it and the
    highlights set by region are not consulted.  While a search is
    running the Find view returns no colour, and if the other functions
    return none either, the highlights set by region decide. *)
Theorem find_hit_is_painted_in_the_editor
        (view members members' : ViewFind) (provider : Provider)
        (selection : option Region) (t t' : Task) (color : N)
        (before after : list (N * HighlightingProviderFunction)) (id : N)
        (highlights : list (N * Highlighting)) (address : N) (data : list N) (size : N) :
  runSearch view provider selection members t = (Done tt, members', t') ->
  Forall (fun occ => fitsAddressSpace (region occ))
         (m_foundOccurrences members' (ident provider)) ->
  (forall entry, In entry before -> snd entry address data size false = None) ->
  ((exists occ, In occ (m_foundOccurrences members' (ident provider)) /\
                covers occ address) ->
   backgroundHighlight overlaps
     (before ++ (id, findHighlighting members' false provider color) :: after)
     highlights address data size
   = Some (HighlightColor color)) /\
  ((forall entry, In entry after -> snd entry address data size false = None) ->
   backgroundHighlight overlaps
     (before ++ (id, findHighlighting members' true provider color) :: after)
     highlights address data size
   = firstOverlapping overlaps highlights address size).
Proof.
  intros Hrun Hfit Hbefore. split.
  - intros Hocc. unfold backgroundHighlight.
    rewrite (@firstColor_first address data size before after id
               (findHighlighting members' false provider color) (HighlightColor color)
               Hbefore); [reflexivity|].
    unfold findHighlighting.
    now apply (@highlightingProvider_covers view members members' provider selection t t').
  - intros Hafter. unfold backgroundHighlight.
    rewrite firstColor_silent; [reflexivity|].
    intros entry Hin. apply in_app_or in Hin. destruct Hin as [Hin|[<-|Hin]].
    + now apply Hbefore.
    + reflexivity.
    + now apply Hafter.
Qed.
End FindHighlightInEditor.

Lemma find_hit_is_painted_in_the_editor_witness :
  let provider := bufferProvider 1 0 [120; 97; 98; 120] in
  let view := drawTab (FP := integersOnly) (H := plainHelpers) (R := literalRegex)
                (SequenceTab (Sequence.mk "ab")) blankView in
  let members' := snd (fst (runSearch (FP := integersOnly) (H := plainHelpers)
                              (R := literalRegex) view provider None view never)) in
  backgroundHighlight (fun _ _ => true)
    ([(1, fun _ _ _ _ => None)] ++
     (2, findHighlighting members' false provider 0xFF8000FF) ::
     [(3, fun _ _ _ _ => Some 0xFF000000)])
    [(1, mkHighlighting (mkRegion 0 4) 0xFF00FF00)] 1 [97] 1
  = Some 0x708000FF.
Proof.
  cbv zeta.
  set (provider := bufferProvider 1 0 [120; 97; 98; 120]).
  set (view := drawTab (FP := integersOnly) (H := plainHelpers) (R := literalRegex)
                 (SequenceTab (Sequence.mk "ab")) blankView).
  set (run := runSearch (FP := integersOnly) (H := plainHelpers) (R := literalRegex)
                view provider None view never).
  assert (Hrun : run = (Done tt, snd (fst run), snd run)) by reflexivity.
  assert (Hfound : m_foundOccurrences (snd (fst run)) 1
                   = [mkOccurrence (mkRegion 1 2) DecodeType.Binary native]) by reflexivity.
  assert (Hfit : Forall (fun occ => fitsAddressSpace (region occ))
                        (m_foundOccurrences (snd (fst run)) (ident provider))).
  { change (ident provider) with 1. rewrite Hfound.
    constructor; [reflexivity|constructor]. }
  destruct (@find_hit_is_painted_in_the_editor integersOnly plainHelpers literalRegex
              (fun _ _ => true) view view (snd (fst run)) provider None never (snd run)
              0xFF8000FF [(1, fun _ _ _ _ => None)] [(3, fun _ _ _ _ => Some 0xFF000000)]
              2 [(1, mkHighlighting (mkRegion 0 4) 0xFF00FF00)] 1 [97] 1 Hrun Hfit)
    as (Hhit & _).
  - intros entry [<-|[]]. reflexivity.
  - change (Some 0x708000FF) with (Some (HighlightColor 0xFF8000FF)).
    apply Hhit. exists (mkOccurrence (mkRegion 1 2) DecodeType.Binary native).
    split; [change (ident provider) with 1; rewrite Hfound; now left|].
    unfold covers. cbn. lia.
Defined.


(** * Further properties of the pattern codec and the searches *)

(** ** The entries that [parseBinaryPatternString] builds *)

Lemma hexNibble_first c p :
  hexNibble (mkPattern 0 0) c = Some p -> halfToken p = true.
Proof.
  destruct c as [[] [] [] [] [] [] [] []]; vm_compute; intros E;
    try discriminate E; injection E as <-; reflexivity.
Qed.

Lemma hexCharToValue_nibble c h : hexCharToValue c = Some h -> h < 16.
Proof.
  destruct c as [[] [] [] [] [] [] [] []]; vm_compute; intros E;
    try discriminate E; injection E as <-; reflexivity.
Qed.

Lemma nibble_listed v : v < 16 -> In v (map N.of_nat (seq 0 16)).
Proof. intros Hv. cbn. lia. Qed.

Lemma hexNibble_second p c q :
  halfToken p = true -> hexNibble p c = Some q -> satisfiable q = true.
Proof.
  assert (Hdigit : forallb (fun m =>
            forallb (fun v =>
              forallb (fun h =>
                satisfiable (mkPattern (N.lor (u8 (N.shiftl m 4)) 15)
                                       (N.lor (u8 (N.shiftl v 4)) h)))
                (map N.of_nat (seq 0 16)))
              (if m =? 0 then [0] else map N.of_nat (seq 0 16)))
            [0; 15] = true) by (vm_compute; reflexivity).
  assert (Hfree : forallb (fun m =>
            forallb (fun v =>
              satisfiable (mkPattern (u8 (N.shiftl m 4)) (u8 (N.shiftl v 4))))
              (if m =? 0 then [0] else map N.of_nat (seq 0 16)))
            [0; 15] = true) by (vm_compute; reflexivity).
  rewrite forallb_forall in Hdigit, Hfree.
  destruct p as [m v]. unfold halfToken. cbn [mask value]. intros Hp.
  assert (Hm : In m [0; 15] /\
               In v (if m =? 0 then [0] else map N.of_nat (seq 0 16))).
  { apply orb_true_iff in Hp. destruct Hp as [Hp|Hp];
      apply andb_true_iff in Hp; destruct Hp as [Hm Hv]; apply N.eqb_eq in Hm; subst m.
    - apply N.eqb_eq in Hv. subst v. cbn. auto.
    - apply N.ltb_lt in Hv. split; [cbn; auto|]. now apply nibble_listed. }
  destruct Hm as [Hm Hv]. clear Hp.
  unfold hexNibble. cbn [mask value].
  destruct (isxdigit (code c)).
  - destruct (hexCharToValue c) as [h|] eqn:Hh; [|discriminate].
    intros [= <-]. apply hexCharToValue_nibble in Hh. apply nibble_listed in Hh.
    specialize (Hdigit m Hm). cbv beta in Hdigit. rewrite forallb_forall in Hdigit.
    specialize (Hdigit v Hv). cbv beta in Hdigit. rewrite forallb_forall in Hdigit.
    exact (Hdigit h Hh).
  - destruct (negb (Ascii.eqb c qmark)); [discriminate|].
    intros [= <-].
    specialize (Hfree m Hm). cbv beta in Hfree. rewrite forallb_forall in Hfree.
    exact (Hfree v Hv).
Qed.

Lemma hexToken_satisfiable c1 c2 q : hexToken c1 c2 = Some q -> satisfiable q = true.
Proof.
  unfold hexToken. destruct (hexNibble (mkPattern 0 0) c1) as [p|] eqn:E1; [|discriminate].
  apply hexNibble_second. now apply hexNibble_first with (c := c1).
Qed.

Lemma literal_satisfiable c : satisfiable (mkPattern 255 (u8 (code c))) = true.
Proof.
  unfold satisfiable, matchesEntry, u8. cbn [mask value].
  assert (Hlt : code c mod 256 < 256) by (apply N.mod_lt; discriminate).
  change 255 with (N.ones 8) at 2. rewrite N.land_ones.
  change (2 ^ 8) with 256. rewrite N.Div0.mod_mod, N.eqb_refl.
  apply N.ltb_lt in Hlt. now rewrite Hlt.
Qed.

Lemma parseLoop_satisfiable n : forall str inString result,
  (String.length str <= n)%nat ->
  forallb satisfiable result = true ->
  forallb satisfiable (parseLoop str inString result) = true.
Proof.
  assert (Hsnoc : forall result entry,
             forallb satisfiable result = true -> satisfiable entry = true ->
             forallb satisfiable (result ++ [entry]) = true).
  { intros result entry Hr He. rewrite forallb_app, Hr. cbn. now rewrite He. }
  induction n as [|n IH]; intros str inString result Hlen Hres.
  - destruct str; [|simpl in Hlen; lia]. cbn. now destruct inString.
  - destruct str as [|c rest]; [cbn; now destruct inString|].
    cbn [String.length] in Hlen. cbn [parseLoop].
    destruct (Ascii.eqb c dquote); [apply IH; [lia|exact Hres]|].
    destruct inString.
    { apply IH; [lia|]. apply Hsnoc; [exact Hres|apply literal_satisfiable]. }
    destruct rest as [|c2 rest2].
    { destruct (isspace (code c)); [apply IH; [cbn; lia|exact Hres]|reflexivity]. }
    cbn [String.length] in Hlen.
    destruct (Ascii.eqb c qmark && Ascii.eqb c2 qmark).
    { apply IH; [lia|]. now apply Hsnoc. }
    destruct (isxdigit (code c) || Ascii.eqb c qmark).
    { destruct (hexToken c c2) as [pattern|] eqn:Ht; [|reflexivity].
      apply IH; [lia|]. apply Hsnoc; [exact Hres|].
      now apply hexToken_satisfiable with (c1 := c) (c2 := c2). }
    destruct (isspace (code c)); [|reflexivity].
    apply IH; [cbn [String.length]; lia|exact Hres].
Qed.

(** X11: every entry that [parseBinaryPatternString] builds can be
    matched.  Mask and value fit a byte and the value has no bit outside
    the mask, so the byte equal to the value passes the test
    [(byte & mask) == value] of the search; a token never yields an entry
    that no byte could match. *)
Theorem parsed_entries_can_be_matched (input : string) :
  Forall (fun entry => mask entry < 256 /\ value entry < 256 /\
                       N.land (value entry) (mask entry) = value entry)
         (parseBinaryPatternString input) /\
  Forall (fun entry => exists byte, byte < 256 /\ matchesEntry entry byte = true)
         (parseBinaryPatternString input).
Proof.
  assert (Hall : forallb satisfiable (parseBinaryPatternString input) = true).
  { unfold parseBinaryPatternString.
    destruct (String.length input <? 2)%nat; [reflexivity|].
    now apply parseLoop_satisfiable with (n := String.length input). }
  rewrite forallb_forall in Hall.
  split; apply Forall_forall; intros entry Hin; specialize (Hall entry Hin);
    unfold satisfiable, matchesEntry in Hall;
    apply andb_true_iff in Hall; destruct Hall as [Hall Hmatch];
    apply andb_true_iff in Hall; destruct Hall as [Hm Hv];
    apply N.ltb_lt in Hm; apply N.ltb_lt in Hv.
  - apply N.eqb_eq in Hmatch. auto.
  - exists (value entry). split; [exact Hv|exact Hmatch].
Qed.


(** ** A pattern of exact bytes and the sequence search *)

Lemma matchesPattern_exact P : forall l,
  allBytes l -> matchesPattern (exactPattern P) l = isPrefix P l.
Proof.
  induction P as [|p P IH]; intros l Hl; [reflexivity|].
  destruct l as [|b l]; [reflexivity|].
  inversion Hl as [|? ? Hb Hrest]; subst.
  cbn [exactPattern map matchesPattern isPrefix mask value].
  change 255 with (N.ones 8). rewrite N.land_ones.
  change (2 ^ 8) with 256. rewrite (N.mod_small b 256) by exact Hb.
  f_equal. now apply IH.
Qed.

Section SequenceAgreement.
Context {Hl : Helpers}.

(** X12: a binary pattern made of exact bytes finds what the sequence
    search finds.  For a byte sequence that is not empty, searching the
    pattern whose entries are those bytes under the mask [0xFF] reports
    the same occurrences, in the same order, as [searchSequence] for the
    sequence. *)
Theorem exact_pattern_search_is_sequence_search
        (provider : Provider) (r : Region) (sequence : Sequence.t)
        (settings : BinaryPatternSettings.t) (t : Task) :
  let P := decodeByteString (Sequence.sequence sequence) in
  fitsAddressSpace r -> quiet t -> P <> [] -> N.of_nat (List.length P) < 2 ^ 32 ->
  BinaryPatternSettings.pattern settings = exactPattern P ->
  fst (searchBinaryPattern provider r settings t)
  = fst (searchSequence provider r sequence t).
Proof.
  intros P Hfits Hq HP Hshort Hpattern.
  assert (Hlen : List.length (exactPattern P) = List.length P)
    by (unfold exactPattern; apply length_map).
  assert (Hne : exactPattern P <> []).
  { destruct P; [congruence|discriminate]. }
  rewrite (@searchBinaryPattern_results provider r (exactPattern P) Hfits Hne
             ltac:(now rewrite Hlen) settings t Hpattern Hq).
  transitivity (fst (sequenceLoop (S (N.to_nat (getSize r)))
                       (seek (readerOver provider r) (getStartAddress r + N.of_nat 0))
                       P [] t)).
  - rewrite (@sequenceLoop_spec provider r P Hfits HP) by (try assumption; lia).
    cbn [app]. rewrite Nat.sub_0_r, Hlen. do 2 f_equal.
    apply filter_ext. intros i. unfold patternAt, occursAt.
    apply matchesPattern_exact, allBytes_skipn, haystack_allBytes.
  - unfold searchSequence. fold P. rewrite N.add_0_r. clearbody P.
    destruct P; [congruence|reflexivity].
Qed.
End SequenceAgreement.

Lemma exact_pattern_search_is_sequence_search_witness :
  let provider := bufferProvider 1 0 [65; 66; 65; 66; 65] in
  fst (searchBinaryPattern provider (mkRegion 0 5)
         (BinaryPatternSettings.mk "41 42 41" (parseBinaryPatternString "41 42 41")) never)
  = fst (searchSequence (H := plainHelpers) provider (mkRegion 0 5) (Sequence.mk "ABA") never).
Proof.
  cbv zeta.
  apply (@exact_pattern_search_is_sequence_search plainHelpers
           (bufferProvider 1 0 [65; 66; 65; 66; 65]) (mkRegion 0 5) (Sequence.mk "ABA")
           (BinaryPatternSettings.mk "41 42 41" (parseBinaryPatternString "41 42 41")) never);
    [unfold fitsAddressSpace; cbn; lia|reflexivity|discriminate|reflexivity|reflexivity].
Defined.

(** ** [searchRegex] with a pattern that compiles *)

Section RegexFilter.
Context {R : StdRegex}.

Lemma regexLoop_filter provider fullMatch re : forall strings result t,
  quiet t ->
  regexLoop provider fullMatch re strings result t
  = (Done (result ++ filter (accepted provider fullMatch re) strings),
     mkTask (updates t + List.length strings) None).
Proof.
  induction strings as [|occ rest IH]; intros result t Hq; cbn [regexLoop].
  - unfold ret. cbn [filter List.length]. rewrite app_nil_r, Nat.add_0_r.
    destruct t as [u i]. unfold quiet in Hq. cbn in *. now subst.
  - unfold bind. rewrite (update_quiet Hq). rewrite IH by reflexivity.
    cbn [filter updates List.length]. unfold accepted at 2.
    f_equal; [|f_equal; lia].
    destruct (if fullMatch then _ else _); [|reflexivity].
    rewrite <- app_assoc. reflexivity.
Qed.

(** X13: with a pattern that compiles, [searchRegex] returns, in their
    order, exactly those occurrences of the strings search with every
    character class enabled whose bytes the expression accepts: as a
    whole for a full match, somewhere inside otherwise.  It calls
    [update] once for every byte of every pass and once for every
    string. *)
Theorem searchRegex_filters_the_strings
        (provider : Provider) (r : Region) (settings : Regex.t) (re : regex) (t : Task) :
  quiet t -> std_regex (Regex.pattern settings) = Some re ->
  exists strings,
    fst (searchStrings provider r (regexStrings settings) t) = Done strings /\
    searchRegex provider r settings t
    = (Done (filter (accepted provider (Regex.fullMatch settings) re) strings),
       mkTask (updates t + passes (Regex.type settings) * N.to_nat (getSize r)
               + List.length strings) None).
Proof.
  intros Hq Hre.
  destruct (@searchStrings_quiet provider r (regexStrings settings) t Hq)
    as [strings Hstrings].
  exists strings. split; [now rewrite Hstrings|].
  unfold searchRegex. fold (regexStrings settings).
  unfold bind. rewrite Hstrings, Hre.
  rewrite regexLoop_filter by reflexivity. reflexivity.
Qed.
End RegexFilter.

Lemma searchRegex_filters_the_strings_witness :
  let provider := bufferProvider 1 0 [97; 98; 0; 99; 100; 101; 0; 97] in
  searchRegex (R := literalRegex) provider (mkRegion 0 8)
    (Regex.mk 2 false StringType.ASCII "cd" false) never
  = (Done [mkOccurrence (mkRegion 3 3) DecodeType.ASCII native], mkTask 10 None).
Proof.
  cbv zeta.
  destruct (@searchRegex_filters_the_strings literalRegex
              (bufferProvider 1 0 [97; 98; 0; 99; 100; 101; 0; 97]) (mkRegion 0 8)
              (Regex.mk 2 false StringType.ASCII "cd" false) [99; 100] never
              eq_refl eq_refl) as (strings & Hstrings & Hrun).
  rewrite Hrun. injection Hstrings as <-. reflexivity.
Defined.

(** ** A sequence search started from its tab *)

Section SequenceTabTheorems.
Context {FP : FloatingPoint} {H : Helpers} {R : StdRegex}.

(** X14: the sequence tab lets a search start exactly when the text is
    not empty and decodes to at least one byte; otherwise the search
    button does nothing.  A search started from the tab therefore never
    takes the early return for an empty sequence: run to its end, it
    stores as found occurrences, and as working copy, the occurrences of
    the decoded bytes at all offsets of the region at which they stand,
    and the settings of the search become the settings for decoding. *)
Theorem sequence_search_started_from_the_tab
        (view : ViewFind) (settings : Sequence.t) (provider : Provider)
        (selection : option Region) (t : Task) :
  let opened := drawTab (SequenceTab settings) view in
  let r := searchRegionOf opened provider selection in
  let P := decodeByteString (Sequence.sequence settings) in
  let hay := haystack provider r in
  let occ := occurrenceAt r (N.of_nat (List.length P)) DecodeType.Binary native in
  (m_settingsValid opened = true <-> Sequence.sequence settings <> EmptyString /\ P <> []) /\
  (m_settingsValid opened = false ->
   forall clicked, searchButton clicked opened provider selection = (opened, None)) /\
  (m_settingsValid opened = true -> fitsAddressSpace r -> quiet t ->
   exists body members' t',
     searchButton true opened provider selection
     = (setDecodeSettings (m_searchSettings opened) opened, Some body) /\
     body (setDecodeSettings (m_searchSettings opened) opened) t = (Done tt, members', t') /\
     m_foundOccurrences members' (ident provider)
     = map occ (filter (occursAt P hay) (seq 0 (List.length hay))) /\
     m_sortedOccurrences members' (ident provider)
     = m_foundOccurrences members' (ident provider) /\
     m_decodeSettings members' = m_searchSettings opened).
Proof.
  intros opened r P hay occ.
  assert (Hvalid : m_settingsValid opened
                   = negb (emptyString (Sequence.sequence settings)) && negb (isEmpty P))
    by reflexivity.
  assert (Hiff : m_settingsValid opened = true
                 <-> Sequence.sequence settings <> EmptyString /\ P <> []).
  { rewrite Hvalid. split.
    - intros Hb. apply andb_true_iff in Hb. destruct Hb as [Hs Hp].
      apply negb_true_iff in Hs. apply negb_true_iff in Hp.
      split; intros E; rewrite E in *; discriminate.
    - intros [Hs Hp]. apply andb_true_iff. split; apply negb_true_iff.
      + destruct (Sequence.sequence settings); [congruence|reflexivity].
      + destruct P; [congruence|reflexivity]. }
  split; [exact Hiff|]. split.
  - intros Hno clicked. unfold searchButton. rewrite Hno. now rewrite andb_false_r.
  - intros Hyes Hfits Hq. destruct (proj1 Hiff Hyes) as [_ HP].
    unfold searchButton. rewrite Hyes. cbn [andb].
    assert (Hseq : fst (searchSequence provider r settings t)
                   = Done (map occ (filter (occursAt P hay) (seq 0 (List.length hay))))).
    { transitivity (fst (sequenceLoop (S (N.to_nat (getSize r)))
                           (seek (readerOver provider r)
                                 (getStartAddress r + N.of_nat 0)) P [] t)).
      - unfold searchSequence. fold P. rewrite N.add_0_r. clearbody P.
        destruct P; [congruence|reflexivity].
      - rewrite (@sequenceLoop_spec provider r P Hfits HP) by (try assumption; lia).
        cbn [app]. unfold hay. rewrite haystack_length, Nat.sub_0_r. reflexivity. }
    destruct (searchSequence provider r settings t) as [outcome t'] eqn:Hrun.
    cbn [fst] in Hseq. subst outcome.
    eexists. exists
      (setTree (ident provider)
         (map (fun o => mkInterval (getStartAddress (region o))
                                   (getEndAddress (region o)) o)
              (map occ (filter (occursAt P hay) (seq 0 (List.length hay)))))
         (setSorted (ident provider)
            (map occ (filter (occursAt P hay) (seq 0 (List.length hay))))
            (setFound (ident provider)
               (map occ (filter (occursAt P hay) (seq 0 (List.length hay))))
               (setDecodeSettings (m_searchSettings opened) opened)))), t'.
    split; [reflexivity|]. split.
    + unfold runSearch, searchTask, dispatch.
      change (SearchSettings.mode (m_searchSettings opened)) with Mode.Sequence.
      change (SearchSettings.bytes (m_searchSettings opened)) with settings.
      fold r. unfold bindW, liftW, modify. rewrite Hrun.
      cbn [m_foundOccurrences setFound setSorted]. rewrite !assign_same. reflexivity.
    + cbn [m_foundOccurrences m_sortedOccurrences m_decodeSettings
           setTree setSorted setFound setDecodeSettings].
      rewrite !assign_same. auto.
Qed.
End SequenceTabTheorems.


(** ** What the table shows for a hit of the value search *)

Lemma addresses_firstn k : forall a c,
  (k <= c)%nat -> firstn k (addresses a c) = addresses a k.
Proof.
  induction k as [|k IH]; intros a c Hk; [reflexivity|].
  destruct c as [|c]; [lia|]. cbn [addresses firstn]. f_equal. apply IH. lia.
Qed.

Lemma read_haystack provider r a k :
  (a + k <= N.to_nat (getSize r))%nat ->
  read provider (getStartAddress r + N.of_nat a) (N.of_nat k)
  = firstn k (skipn a (haystack provider r)).
Proof.
  intros Hk. rewrite haystack_skipn, firstn_map, addresses_firstn by lia.
  unfold read. rewrite Nat2N.id. reflexivity.
Qed.

Section ValueShown.
Context {FP : FloatingPoint} {H : Helpers}.

(** X16: the number shown for a hit of an unsigned value search lies in
    the range searched for.  When the value of an unsigned occurrence is
    shown by [formatBytes<u64>], every occurrence that [searchValue]
    reports for the bounds [lo] and [hi] is shown, in a view whose
    decoding mode is the value search, as the formatted number [v] of its
    bytes read at the byte order of the search, and [lo <= v <= hi]. *)
Theorem value_hits_are_shown_in_range
        (format : N -> string) (view : ViewFind) (provider : Provider) (r : Region)
        (settings : Value.t) (t : Task) (lo hi w w' : N) :
  (forall raw, formatValue DecodeType.Unsigned raw = formatBytes_u64 format raw) ->
  SearchSettings.mode (m_decodeSettings view) = Mode.Value ->
  fitsAddressSpace r -> quiet t ->
  parseNumericValueInput (Value.inputMin settings) (Value.type settings)
  = (true, VU64 lo, w) ->
  parseNumericValueInput (Value.inputMax settings) (Value.type settings)
  = (true, VU64 hi, w') ->
  exists found,
    fst (searchValue provider r settings t) = Done found /\
    forall occ, In occ found ->
      exists v, decodeValue view provider occ = format v /\ lo <= v <= hi /\
                v = windowValue (Value.endian settings)
                      (read provider (getStartAddress (region occ))
                            (getSize (region occ))).
Proof.
  intros Hformat Hmode Hfits Hq Hmin Hmax.
  pose proof (parse_size _ _ Hmin) as Hsize.
  destruct (parse_alternative _ _ _ Hmin Hmax) as (_ & Hw & _).
  assert (Hunsigned : valueDecodeType (Value.type settings) = DecodeType.Unsigned).
  { apply parseNumericValueInput_success in Hmin. destruct Hmin as (_ & Hfit & _).
    destruct (Value.type settings); cbn in Hfit; try contradiction; reflexivity. }
  rewrite (@searchValue_reports FP provider r settings t (VU64 lo) (VU64 hi) w w'
             Hfits Hq Hmin Hmax).
  eexists. split; [reflexivity|].
  intros occ Hin. apply in_map_iff in Hin. destruct Hin as (a & <- & Ha).
  apply filter_In in Ha. destruct Ha as [Ha Hrange].
  apply in_seq in Ha. rewrite haystack_length in Ha.
  set (k := N.to_nat w) in *.
  assert (Hk : (1 <= k <= 8)%nat) by (unfold k; lia).
  assert (Hread : read provider (getStartAddress r + N.of_nat a) w
                  = firstn k (skipn a (haystack provider r))).
  { replace w with (N.of_nat k) by (unfold k; lia). apply read_haystack. lia. }
  unfold occurrenceAt. cbn [region getStartAddress getSize].
  rewrite Hread.
  exists (windowValue (Value.endian settings) (firstn k (skipn a (haystack provider r)))).
  split; [|split; [|reflexivity]].
  - unfold decodeValue. cbn [region getStartAddress getSize decodeType endian].
    rewrite Hmode, Hunsigned. rewrite N.min_l by lia. rewrite Hread.
    rewrite Hformat. unfold formatBytes_u64.
    assert (Hlen : List.length (firstn k (skipn a (haystack provider r))) = k).
    { rewrite length_firstn, length_skipn, haystack_length. lia. }
    destruct (Value.endian settings); cbn [endian_eqb native windowValue].
    + rewrite Hlen. destruct (Nat.ltb_spec 8 k); [lia|reflexivity].
    + rewrite length_rev, Hlen. destruct (Nat.ltb_spec 8 k); [lia|reflexivity].
  - cbn [valueInRange] in Hrange. apply andb_true_iff in Hrange.
    destruct Hrange as [Hlo Hhi]. apply N.leb_le in Hlo. apply N.leb_le in Hhi. lia.
Qed.
End ValueShown.

Lemma value_hits_are_shown_in_range_witness :
  let provider := bufferProvider 1 0 [0; 10; 20] in
  let settings := Value.mk "5" "20" U8 little in
  let view := setDecodeSettings
                (m_searchSettings
                   (drawTab (FP := integersOnly) (H := decimalHelpers) (R := literalRegex)
                      (ValueTab settings true) blankView))
                blankView in
  decodeValue (H := decimalHelpers) view provider
              (mkOccurrence (mkRegion 1 1) DecodeType.Unsigned little) = "10"%string /\
  exists found,
    fst (searchValue (FP := integersOnly) provider (mkRegion 0 3) settings never)
    = Done found /\
    forall occ, In occ found ->
      exists v, decodeValue (H := decimalHelpers) view provider occ = decimal v /\
                5 <= v <= 20 /\
                v = windowValue little (read provider (getStartAddress (region occ))
                                             (getSize (region occ))).
Proof.
  cbv zeta. split; [reflexivity|].
  apply (@value_hits_are_shown_in_range integersOnly decimalHelpers decimal
           (setDecodeSettings
              (m_searchSettings
                 (drawTab (FP := integersOnly) (H := decimalHelpers) (R := literalRegex)
                    (ValueTab (Value.mk "5" "20" U8 little) true) blankView))
              blankView)
           (bufferProvider 1 0 [0; 10; 20]) (mkRegion 0 3)
           (Value.mk "5" "20" U8 little) never 5 20 1 1);
    [reflexivity|reflexivity|unfold fitsAddressSpace; cbn; lia|reflexivity
    |reflexivity|reflexivity].
Defined.


(** ** Edges of the filter box and of the value tab *)

Section EdgeTheorems.
Context {FP : FloatingPoint} {Hl : Helpers} {R : StdRegex}.

(** X19: replacing the filter text by one that is not shorter narrows
    what is shown instead of filtering anew.  The found occurrences are
    copied back only when the text got shorter, so after a search, a
    text [old] and then a text [new] of the same length leave the found
    occurrences whose decoded value contains both: an occurrence that
    contains [new] but not [old] is not shown, although [new] is the text
    in the filter box. *)
Theorem same_length_filter_keeps_narrowing
        (provider : Provider) (view : ViewFind) (t : Task) (old new : string) :
  let id := ident provider in
  quiet t ->
  (0 < String.length old)%nat ->
  String.length new = String.length old ->
  m_currFilter view id = EmptyString ->
  m_sortedOccurrences view id = m_foundOccurrences view id ->
  let view1 := editFilter provider old t view in
  let view2 := editFilter provider new t view1 in
  m_currFilter view2 id = new /\
  m_foundOccurrences view2 = m_foundOccurrences view /\
  m_sortedOccurrences view2 id
  = filter (keeps view provider new)
           (filter (keeps view provider old) (m_foundOccurrences view id)) /\
  forall occ, keeps view provider old occ = false ->
              ~ In occ (m_sortedOccurrences view2 id).
Proof.
  intros id Hq Hold Hlen Hblank Hfresh view1 view2.
  assert (Hnonempty : forall text, (0 < String.length text)%nat -> emptyString text = false)
    by (intros [|c text] Hn; [simpl in Hn; lia|reflexivity]).
  destruct (editFilter_spec provider old view Hq) as (Hs1 & Hf1 & Hc1 & Hd1).
  fold id in Hs1, Hc1. fold view1 in Hs1, Hf1, Hc1, Hd1.
  rewrite Hblank in Hs1. simpl String.length in Hs1.
  rewrite (Hnonempty old Hold) in Hs1.
  replace (String.length old <? 0)%nat with false in Hs1
    by (symmetry; apply Nat.ltb_ge; lia).
  rewrite Hfresh in Hs1.
  destruct (editFilter_spec provider new view1 Hq) as (Hs2 & Hf2 & Hc2 & Hd2).
  fold id in Hs2, Hc2. fold view2 in Hs2, Hf2, Hc2, Hd2.
  rewrite Hc1 in Hs2. rewrite (Hnonempty new) in Hs2 by lia.
  replace (String.length new <? String.length old)%nat with false in Hs2
    by (symmetry; apply Nat.ltb_ge; lia).
  rewrite (keeps_members view view1 provider new Hd1) in Hs2. rewrite Hs1 in Hs2.
  split; [exact Hc2|]. split; [congruence|]. split; [exact Hs2|].
  intros occ Hocc Hin. rewrite Hs2 in Hin.
  apply filter_In in Hin. destruct Hin as [Hin _].
  apply filter_In in Hin. destruct Hin as [_ Hin]. congruence.
Qed.

(** X20: bounds in the wrong order are accepted and find nothing.  The
    value tab checks that both bounds parse in the chosen type and have
    the same size, not their order: for an integer type, with a lower
    bound above the upper one, an edit marks the settings valid, and the
    search, run to its end over any region, returns no occurrence. *)
Theorem inverted_range_finds_nothing
        (view : ViewFind) (provider : Provider) (r : Region) (settings : Value.t)
        (t : Task) (min max : NumericValue) (w w' : N) :
  fitsAddressSpace r -> quiet t ->
  parseNumericValueInput (Value.inputMin settings) (Value.type settings) = (true, min, w) ->
  parseNumericValueInput (Value.inputMax settings) (Value.type settings) = (true, max, w') ->
  inverted min max ->
  let view' := drawTab (ValueTab settings true) view in
  m_settingsValid view' = true /\
  SearchSettings.value (m_searchSettings view') = settings /\
  fst (searchValue provider r settings t) = Done [].
Proof.
  intros Hfits Hq Hmin Hmax Hinv view'.
  destruct (parse_alternative _ _ _ Hmin Hmax) as (_ & Hw & Hw').
  split; [|split].
  - unfold view', drawTab. rewrite Hmin, Hmax.
    cbn [m_settingsValid setSettings andb]. subst w w'. apply N.eqb_refl.
  - reflexivity.
  - rewrite (@searchValue_reports FP provider r settings t min max w w'
               Hfits Hq Hmin Hmax).
    rewrite filter_none; [reflexivity|].
    intros a _. destruct min, max; cbn in Hinv; try contradiction; cbn [valueInRange].
    + apply andb_false_iff.
      destruct (N.leb_spec n (windowValue (Value.endian settings)
                  (firstn (N.to_nat w) (skipn a (haystack provider r)))));
        [right; apply N.leb_gt; lia|now left].
    + apply andb_false_iff.
      destruct (Z.leb_spec z (to_i64 (windowValue (Value.endian settings)
                  (firstn (N.to_nat w) (skipn a (haystack provider r))))));
        [right; apply Z.leb_gt; lia|now left].
Qed.
End EdgeTheorems.

Lemma same_length_filter_keeps_narrowing_witness :
  let provider := bufferProvider 1 0 [97; 98; 99; 32; 65; 66] in
  let abc := mkOccurrence (mkRegion 0 3) DecodeType.ASCII native in
  let AB := mkOccurrence (mkRegion 4 2) DecodeType.ASCII native in
  let bc := mkOccurrence (mkRegion 1 2) DecodeType.ASCII native in
  let found := [abc; AB; bc] in
  let view := mkView blankSettings blankSettings true
                     (fun _ => found) (fun _ => found) (fun _ => []) (fun _ => EmptyString) in
  let edit := editFilter (FP := integersOnly) (Hl := plainHelpers) (R := literalRegex)
                         provider in
  keeps (Hl := plainHelpers) view provider "bc" bc = true /\
  m_sortedOccurrences (edit "bc"%string never (edit "ab"%string never view)) 1 = [abc] /\
  m_sortedOccurrences (edit "bc"%string never view) 1 = [abc; bc].
Proof.
  intros provider abc AB bc found view edit.
  destruct (@same_length_filter_keeps_narrowing integersOnly plainHelpers literalRegex
              provider view never "ab"%string "bc"%string eq_refl
              (Nat.lt_0_succ 1) eq_refl eq_refl eq_refl) as (_ & _ & Hsorted & _).
  split; [reflexivity|]. split; [exact Hsorted|reflexivity].
Defined.

Lemma inverted_range_finds_nothing_witness :
  let provider := bufferProvider 1 0 [0; 10; 20] in
  let settings := Value.mk "20" "5" U8 little in
  m_settingsValid (drawTab (FP := integersOnly) (H := plainHelpers) (R := literalRegex)
                     (ValueTab settings true) blankView) = true /\
  fst (searchValue (FP := integersOnly) provider (mkRegion 0 3) settings never) = Done [].
Proof.
  cbv zeta.
  destruct (@inverted_range_finds_nothing integersOnly plainHelpers literalRegex
              blankView (bufferProvider 1 0 [0; 10; 20]) (mkRegion 0 3)
              (Value.mk "20" "5" U8 little) never (VU64 20) (VU64 5) 1 1)
    as (Hvalid & _ & Hnone);
    [unfold fitsAddressSpace; cbn; lia|reflexivity|reflexivity|reflexivity
    |cbn; lia|].
  split; [exact Hvalid|exact Hnone].
Defined.


(** ** A filtering task that is cancelled *)



Section FilterCancelled.
Context {Hl : Helpers}.

End FilterCancelled.

